(** * go-webdav / caldav: the CalDAV client protocol layer

    A shallow embedding of package [caldav]: the client (client.go), the
    conflict resolvers and error sentinels (conflict.go), the sync result
    types and the option structs, and the properties of its
    conflict-resolution, conditional-write, multistatus-decoding and
    incremental-sync paths.

    Conventions.
    - A Go [string] is a byte sequence: Rocq's [string] (a list of 8-bit
      characters).  [[]byte] is modelled the same way.
    - A Go pointer that may be nil is an [option]; [None] is nil.
    - A Go [(value, error)] pair whose value is meaningful only when the
      error is nil is a [result]; a pair in which both halves are returned
      together is a Rocq pair with an [option error].
    - [time.Time] is an instant on the integer time line.
    - Everything that lives outside package [caldav] (the property
      substrate of package [internal], the iCalendar codec, the Go
      standard library parsers, the HTTP transport and the clock) is a
      field of the [Substrate] record the client is parameterised by. *)

From Stdlib Require Import Ascii String ZArith Lia.
From stdpp Require Import base numbers option list gmap strings.

Set Warnings "-register-all".

Open Scope string_scope.
Open Scope Z_scope.
Open Scope list_scope.

(** ** Basic Go values *)

(** [time.Time]: an instant; the zero value is the instant [0]. *)
Definition Time := Z.

Definition Time_zero : Time := 0.

(** [t.After(u)] reports whether the instant [t] is after [u]. *)
Definition Time_After (t u : Time) : bool := u <? t.

Definition Time_IsZero (t : Time) : bool := t =? Time_zero.

(** [[]byte] *)
Definition bytes := string.

(** ** Errors *)

(** The error values the package builds or inspects: [errors.New]
    ([errorString]), [fmt.Errorf] with its format and operands and no
    wrapped error ([fmtError]), the substrate's [*internal.HTTPError],
    [fmt.Errorf] with a wrapped operand ([wrapError]) and the value of
    [errors.Join] ([joinError]). *)
Inductive error : Type :=
| errorString (msg : string)
| fmtError (format : string) (args : list string)
| HTTPError (Code : Z) (Err : option error)
| wrapError (format : string) (err : error)
| joinError (errs : list error).

(** [errors.Join(errs...)] for a slice without nil entries: nil when the
    slice is empty, else one error wrapping all of them in order. *)
Definition errors_Join (errs : list error) : option error :=
  match errs with
  | [] => None
  | _ :: _ => Some (joinError errs)
  end.

(** [errors.As(err, &httpErr)] with [httpErr : *internal.HTTPError]: the
    first [HTTPError] in the depth-first walk of the unwrap chain; the
    result is its [Code]. *)
Fixpoint errors_As_HTTPError (err : error) : option Z :=
  match err with
  | errorString _ => None
  | fmtError _ _ => None
  | HTTPError code _ => Some code
  | wrapError _ e => errors_As_HTTPError e
  | joinError es =>
      (fix first (l : list error) : option Z :=
         match l with
         | [] => None
         | e :: l' =>
             match errors_As_HTTPError e with
             | Some c => Some c
             | None => first l'
             end
         end) es
  end.

(** The error sentinels of the package. *)
Definition ErrSyncTokenExpired : error :=
  errorString "caldav: sync token expired (HTTP 410)".
Definition ErrPreconditionFailed : error :=
  errorString "caldav: precondition failed (HTTP 412)".
Definition ErrConflict : error :=
  errorString "caldav: resource conflict".
Definition ErrNotFound : error :=
  errorString "caldav: resource not found (HTTP 404)".
Definition ErrMergeNotSupported : error :=
  errorString "caldav: merge conflict resolution not supported".

(** A Go [(T, error)] result. *)
Inductive result (A : Type) : Type :=
| Ok (a : A)
| Failed (e : error).
Arguments Ok {A} a.
Arguments Failed {A} e.

(** What a call does: it returns, or it panics (a run-time error such as
    a nil dereference), or the model ran out of recursion budget. *)
Inductive outcome (A : Type) : Type :=
| Returns (a : A)
| Panics (why : string)
| OutOfFuel.
Arguments Returns {A} a.
Arguments Panics {A} why.
Arguments OutOfFuel {A}.

(** ** Strings (package [strings] and slicing) *)

Definition len (s : string) : Z := Z.of_nat (String.length s).

(** [s[lo:hi]] for [0 <= lo <= hi <= len(s)]. *)
Definition slice (s : string) (lo hi : Z) : string :=
  String.substring (Z.to_nat lo) (Z.to_nat (hi - lo)) s.

(** [s[i]] for [0 <= i < len(s)]. *)
Definition byte_at (s : string) (i : Z) : option ascii :=
  if i <? 0 then None else String.get (Z.to_nat i) s.

Definition string_eqb (a b : string) : bool := bool_decide (a = b).

(** [strings.HasPrefix] *)
Definition strings_HasPrefix (s prefix : string) : bool :=
  (len prefix <=? len s) && string_eqb (slice s 0 (len prefix)) prefix.

(** [strings.HasSuffix] *)
Definition strings_HasSuffix (s suffix : string) : bool :=
  (len suffix <=? len s)
  && string_eqb (slice s (len s - len suffix) (len s)) suffix.

(** [strings.Contains(s, substr)]: [substr] occurs at some offset of [s]. *)
Fixpoint strings_Contains (s substr : string) : bool :=
  strings_HasPrefix s substr
  || match s with
     | EmptyString => false
     | String _ s' => strings_Contains s' substr
     end.

(** [strings.Split(s, sep)] for a one-byte separator: the pieces between
    the separators, so always at least one piece. *)
Fixpoint strings_Split (s : string) (sep : ascii) : list string :=
  match s with
  | EmptyString => [EmptyString]
  | String c s' =>
      if bool_decide (c = sep) then EmptyString :: strings_Split s' sep
      else match strings_Split s' sep with
           | [] => [String c EmptyString]
           | piece :: rest => String c piece :: rest
           end
  end.

Definition slash : ascii := "/"%char.

(** ** Conflict decisions (conflict.go) *)

(** [type ConflictDecision int] with the [iota] constants.  The type is
    open: a resolver may hand back any integer. *)
Definition ConflictDecision : Type := Z.

Definition UseLocal : ConflictDecision := 0.
Definition UseRemote : ConflictDecision := 1.
Definition Merge : ConflictDecision := 2.
Definition Skip : ConflictDecision := 3.

Definition ConflictDecision_String (cd : ConflictDecision) : string :=
  if cd =? UseLocal then "use_local"
  else if cd =? UseRemote then "use_remote"
  else if cd =? Merge then "merge"
  else if cd =? Skip then "skip"
  else "unknown".

Section Caldav.

(** [ical.Calendar], the structured document of the external codec. *)
Context {Calendar : Type}.

(** Modelled from the spec: the struct [CalendarObject], declared in a
    file of the package that is not among the sources: path, ETag,
    modification time, content length and the optional calendar
    document.  The fields are those client.go and conflict.go read and
    write. *)
Record CalendarObject : Type := mkCalendarObject {
  Path : string;
  ModTime : Time;
  ContentLength : Z;
  ETag : string;
  Data : option Calendar
}.

(** The zero [CalendarObject{}]. *)
Definition CalendarObject_zero : CalendarObject :=
  {| Path := ""; ModTime := Time_zero; ContentLength := 0; ETag := ""; Data := None |}.

(** The [ConflictResolver] interface: one method,
    [Resolve(local, remote *CalendarObject) ConflictDecision]. *)
Class ConflictResolver (R : Type) : Type :=
  Resolve : R -> option CalendarObject -> option CalendarObject -> ConflictDecision.

(** The three built-in policies are empty structs. *)
Inductive LastModifiedWinsResolver : Type := LastModifiedWinsResolver_value.
Inductive AlwaysUseLocalResolver : Type := AlwaysUseLocalResolver_value.
Inductive AlwaysUseRemoteResolver : Type := AlwaysUseRemoteResolver_value.

Definition LastModifiedWinsResolver_Resolve (r : LastModifiedWinsResolver)
    (local remote : option CalendarObject) : ConflictDecision :=
  match local, remote with
  | None, None => Skip
  | None, Some _ => UseRemote
  | Some _, None => UseLocal
  | Some l, Some rm =>
      if Time_After (ModTime l) (ModTime rm) then UseLocal
      else if Time_After (ModTime rm) (ModTime l) then UseRemote
      else UseLocal
  end.

Definition AlwaysUseLocalResolver_Resolve (r : AlwaysUseLocalResolver)
    (local _remote : option CalendarObject) : ConflictDecision :=
  match local with
  | None => UseRemote
  | Some _ => UseLocal
  end.

Definition AlwaysUseRemoteResolver_Resolve (r : AlwaysUseRemoteResolver)
    (_local remote : option CalendarObject) : ConflictDecision :=
  match remote with
  | None => UseLocal
  | Some _ => UseRemote
  end.

#[global] Instance LastModifiedWins_ConflictResolver :
  ConflictResolver LastModifiedWinsResolver := LastModifiedWinsResolver_Resolve.
#[global] Instance AlwaysUseLocal_ConflictResolver :
  ConflictResolver AlwaysUseLocalResolver := AlwaysUseLocalResolver_Resolve.
#[global] Instance AlwaysUseRemote_ConflictResolver :
  ConflictResolver AlwaysUseRemoteResolver := AlwaysUseRemoteResolver_Resolve.

(** A [ConflictResolver] interface value, as the client holds it: the
    method of whatever implementation was packed into it. *)
Definition ResolverValue : Type :=
  option CalendarObject -> option CalendarObject -> ConflictDecision.

Definition asResolver {R : Type} `{ConflictResolver R} (r : R) : ResolverValue :=
  Resolve r.

(** ** Sync results *)

Record SyncDeletedItem : Type := mkSyncDeletedItem {
  sdi_Path : string;
  sdi_UID : string
}.

Record SyncResult : Type := mkSyncResult {
  Created : list CalendarObject;
  Updated : list CalendarObject;
  Deleted : list SyncDeletedItem;
  SyncToken : string
}.

(** The backward scan of [ExtractUID]:
    [for i := n-1; i >= 0; i-- { if path[i] == '/' { lastSlash = i; break } }]
    started with [lastSlash = -1]. *)
Fixpoint scanLastSlash (path : string) (n : nat) : Z :=
  match n with
  | O => -1
  | S i =>
      if bool_decide (byte_at path (Z.of_nat i) = Some slash) then Z.of_nat i
      else scanLastSlash path i
  end.

Definition ExtractUID (sdi : SyncDeletedItem) : string :=
  if negb (string_eqb (sdi_UID sdi) "") then sdi_UID sdi
  else if string_eqb (sdi_Path sdi) "" then ""
  else
    let lastSlash := scanLastSlash (sdi_Path sdi) (String.length (sdi_Path sdi)) in
    let filename := slice (sdi_Path sdi) (lastSlash + 1) (len (sdi_Path sdi)) in
    if (4 <? len filename)
       && string_eqb (slice filename (len filename - 4) (len filename)) ".ics"
    then slice filename 0 (len filename - 4)
    else filename.

Definition NewSyncResult (syncToken : string) : SyncResult :=
  {| Created := []; Updated := []; Deleted := []; SyncToken := syncToken |}.

Definition AddCreated (sr : SyncResult) (obj : CalendarObject) : SyncResult :=
  {| Created := Created sr ++ [obj]; Updated := Updated sr;
     Deleted := Deleted sr; SyncToken := SyncToken sr |}.

Definition AddUpdated (sr : SyncResult) (obj : CalendarObject) : SyncResult :=
  {| Created := Created sr; Updated := Updated sr ++ [obj];
     Deleted := Deleted sr; SyncToken := SyncToken sr |}.

Definition AddDeleted (sr : SyncResult) (path uid : string) : SyncResult :=
  {| Created := Created sr; Updated := Updated sr;
     Deleted := Deleted sr ++ [{| sdi_Path := path; sdi_UID := uid |}];
     SyncToken := SyncToken sr |}.

Definition TotalChanges (sr : SyncResult) : Z :=
  Z.of_nat (length (Created sr)) + Z.of_nat (length (Updated sr))
  + Z.of_nat (length (Deleted sr)).

(** [Client.extractUIDFromPath] (client.go); the receiver is unused. *)
Definition extractUIDFromPath (path : string) : string :=
  let parts := strings_Split path slash in
  match last parts with
  | None => ""
  | Some filename =>
      if strings_HasSuffix filename ".ics"
      then slice filename 0 (len filename - 4)
      else filename
  end.

(** ** Queries, filters and options *)

(** Modelled from the spec: the query and filter structs
    ([CalendarCompRequest], [CalendarExpandRequest], [TextMatch],
    [ParamFilter], [PropFilter], [CompFilter], [CalendarQuery],
    [CalendarMultiGet]), declared in a file of the package that is not
    among the sources.  The fields are those the encoder of client.go
    reads, with the types its use of them fixes ([Comps] is a slice of
    struct values, [TextMatch] and [Expand] are pointers).  The request
    trees are only read. *)
Record CalendarExpandRequest : Type := mkCalendarExpandRequest {
  er_Start : Time;
  er_End : Time
}.

Inductive CalendarCompRequest : Type :=
  mkCalendarCompRequest
    (Name : string) (AllProps : bool) (Props : list string)
    (AllComps : bool) (Comps : list CalendarCompRequest)
    (Expand : option CalendarExpandRequest).

Definition cr_Expand (c : CalendarCompRequest) : option CalendarExpandRequest :=
  match c with mkCalendarCompRequest _ _ _ _ _ e => e end.

Record TextMatch : Type := mkTextMatch {
  tm_Text : string;
  tm_NegateCondition : bool
}.

Record ParamFilter : Type := mkParamFilter {
  paf_Name : string;
  paf_TextMatch : option TextMatch
}.

Record PropFilter : Type := mkPropFilter {
  pf_Name : string;
  pf_Start : Time;
  pf_End : Time;
  pf_TextMatch : option TextMatch;
  pf_ParamFilter : list ParamFilter
}.

(** A [[]CompFilter] slice value: a window on a backing array that lives
    in the heap.  Copying a struct that holds a slice copies this header
    only, so both copies see (and write) the same array. *)
Definition loc := positive.

Record Slice : Type := mkSlice {
  sl_array : loc;
  sl_off : nat;
  sl_len : nat
}.

Record CompFilter : Type := mkCompFilter {
  cf_Name : string;
  cf_Start : Time;
  cf_End : Time;
  cf_Props : list PropFilter;
  cf_Comps : option Slice    (* nil when [None] *)
}.

Record CalendarQuery : Type := mkCalendarQuery {
  CompRequest : CalendarCompRequest;
  cq_CompFilter : CompFilter
}.

(** The option structs. *)
Record QueryOptions : Type := mkQueryOptions {
  TimeRangeStart : option Time;
  TimeRangeEnd : option Time;
  qo_SyncToken : string
}.

Record PutOptions : Type := mkPutOptions {
  IfMatch : string;
  IfNoneMatch : string
}.

(** Modelled from the spec: the traversal-depth enumeration
    [internal.Depth]; its zero value is [DepthZero]. *)
Inductive Depth : Type := DepthZero | DepthOne | DepthInfinity.

Record SyncOptions : Type := mkSyncOptions {
  SyncLevel : Depth
}.

(** The backing arrays of the [[]CompFilter] slices. *)
Abbreviation Heap := (gmap loc (list CompFilter)).

(** The elements [s[0]], ..., [s[len(s)-1]] of a slice. *)
Definition slice_elems (h : Heap) (s : option Slice) : list CompFilter :=
  match s with
  | None => []
  | Some s => take (sl_len s) (drop (sl_off s) (default [] (h !! sl_array s)))
  end.

(** [s[i] = v]: a write to the backing array. *)
Definition slice_store (h : Heap) (s : option Slice) (i : nat) (v : CompFilter) : Heap :=
  match s with
  | None => h
  | Some s => alter (fun a => <[(sl_off s + i)%nat := v]> a) (sl_array s) h
  end.

(** [s[i]] *)
Definition slice_load (h : Heap) (s : option Slice) (i : nat) : option CompFilter :=
  slice_elems h s !! i.

(** Modelled from the spec: the wire form of the requests ([timeRange],
    [textMatch], [paramFilter], [propFilter], [compFilter], [comp],
    [expand], [calendarDataReq]), declared in a file of the package that
    is not among the sources; the fields are those the encoder of client.go
    fills.  A pointer to an empty struct is a flag. *)
Record timeRange : Type := mk_timeRange {
  tr_Start : Time;
  tr_End : Time
}.

Record textMatch : Type := mk_textMatch {
  xtm_Text : string;
  xtm_NegateCondition : bool
}.

Record paramFilter : Type := mk_paramFilter {
  xpaf_Name : string;
  xpaf_TextMatch : option textMatch
}.

Record propFilter : Type := mk_propFilter {
  xpf_Name : string;
  xpf_TimeRange : option timeRange;
  xpf_TextMatch : option textMatch;
  xpf_ParamFilter : list paramFilter
}.

Inductive compFilter : Type :=
  mk_compFilter
    (Name : string) (TimeRange : option timeRange)
    (PropFilters : list propFilter) (CompFilters : list compFilter).

Inductive comp : Type :=
  mk_comp
    (Name : string) (Allprop : bool) (Prop_ : list string)
    (Allcomp : bool) (Comp : list comp).

Record expand : Type := mk_expand {
  ex_Start : Time;
  ex_End : Time
}.

Record calendarDataReq : Type := mk_calendarDataReq {
  cdr_Comp : option comp;
  cdr_Expand : option expand
}.

(** ** The encoder (client.go) *)

Fixpoint encodeCalendarCompReq (c : CalendarCompRequest) : result comp :=
  match c with
  | mkCalendarCompRequest name allProps props allComps comps _ =>
      let children :=
        (fix each (l : list CalendarCompRequest) (acc : list comp) : result (list comp) :=
           match l with
           | [] => Ok acc
           | child :: l' =>
               match encodeCalendarCompReq child with
               | Failed e => Failed e
               | Ok encodedChild => each l' (acc ++ [encodedChild])
               end
           end) comps [] in
      match children with
      | Failed e => Failed e
      | Ok cs => Ok (mk_comp name allProps props allComps cs)
      end
  end.

Definition encodeExpandRequest (e : option CalendarExpandRequest) : option expand :=
  match e with
  | None => None
  | Some e => Some {| ex_Start := er_Start e; ex_End := er_End e |}
  end.

Definition encodeTextMatch (tm : option TextMatch) : option textMatch :=
  match tm with
  | None => None
  | Some tm =>
      Some {| xtm_Text := tm_Text tm; xtm_NegateCondition := tm_NegateCondition tm |}
  end.

Definition encodeParamFilter (pf : ParamFilter) : paramFilter :=
  {| xpaf_Name := paf_Name pf; xpaf_TextMatch := encodeTextMatch (paf_TextMatch pf) |}.

Definition encodePropFilter (filter : PropFilter) : propFilter :=
  {| xpf_Name := pf_Name filter;
     xpf_TimeRange :=
       if negb (Time_IsZero (pf_Start filter)) || negb (Time_IsZero (pf_End filter))
       then Some {| tr_Start := pf_Start filter; tr_End := pf_End filter |}
       else None;
     xpf_TextMatch := encodeTextMatch (pf_TextMatch filter);
     xpf_ParamFilter := map encodeParamFilter (pf_ParamFilter filter) |}.

(** [encodeCompFilter] walks the filter tree through the heap; [fuel]
    bounds the depth of the walk ([None]: the budget ran out). *)
Fixpoint encodeCompFilter (fuel : nat) (h : Heap) (filter : CompFilter) : option compFilter :=
  match fuel with
  | O => None
  | S fuel' =>
      let range :=
        if negb (Time_IsZero (cf_Start filter)) || negb (Time_IsZero (cf_End filter))
        then Some {| tr_Start := cf_Start filter; tr_End := cf_End filter |}
        else None in
      let children :=
        (fix each (l : list CompFilter) (acc : list compFilter) : option (list compFilter) :=
           match l with
           | [] => Some acc
           | child :: l' =>
               match encodeCompFilter fuel' h child with
               | None => None
               | Some encodedChild => each l' (acc ++ [encodedChild])
               end
           end) (slice_elems h (cf_Comps filter)) [] in
      match children with
      | None => None
      | Some cs =>
          Some (mk_compFilter (cf_Name filter) range
                  (map encodePropFilter (cf_Props filter)) cs)
      end
  end.

(** The time-range step of [QueryCalendar]:
    [for i := range comps { if comps[i].Name == "VEVENT" { comps[i].Start =
    *opts.TimeRangeStart; comps[i].End = *opts.TimeRangeEnd; break } }],
    where [comps] is the slice held by the copied query. [elems] are the
    elements not yet visited and [i] is the index of the first of them. *)
Definition nilDereference : string :=
  "runtime error: invalid memory address or nil pointer dereference".

Fixpoint applyTimeRange (opts : QueryOptions) (comps : option Slice)
    (elems : list CompFilter) (i : nat) (h : Heap) : Heap * outcome unit :=
  match elems with
  | [] => (h, Returns tt)
  | c :: rest =>
      if string_eqb (cf_Name c) "VEVENT" then
        match TimeRangeStart opts with
        | None => (h, Panics nilDereference)
        | Some start =>
            let c1 := {| cf_Name := cf_Name c; cf_Start := start; cf_End := cf_End c;
                         cf_Props := cf_Props c; cf_Comps := cf_Comps c |} in
            let h1 := slice_store h comps i c1 in
            match TimeRangeEnd opts with
            | None => (h1, Panics nilDereference)
            | Some end_ =>
                let c2 := {| cf_Name := cf_Name c1; cf_Start := cf_Start c1; cf_End := end_;
                             cf_Props := cf_Props c1; cf_Comps := cf_Comps c1 |} in
                (slice_store h1 comps i c2, Returns tt)
            end
        end
      else applyTimeRange opts comps rest (S i) h
  end.

(** What a caller sees when it reads its query back: the filter tree
    with every node's fields, down to [depth] levels. *)
Inductive FilterView : Type :=
  mkFilterView (name : string) (start end_ : Time) (comps : list FilterView).

Fixpoint viewCompFilter (depth : nat) (h : Heap) (c : CompFilter) : FilterView :=
  mkFilterView (cf_Name c) (cf_Start c) (cf_End c)
    (match depth with
     | O => []
     | S d => map (viewCompFilter d h) (slice_elems h (cf_Comps c))
     end).

(** ** HTTP values *)

(** [http.Header]: canonical key to the values sent under it. *)
Abbreviation Header := (gmap string (list string)).

Definition Header_Get (h : Header) (key : string) : string :=
  match h !! key with
  | Some (v :: _) => v
  | _ => ""
  end.

Definition Header_Set (h : Header) (key value : string) : Header :=
  <[key := [value]]> h.

Definition Header_Add (h : Header) (key value : string) : Header :=
  <[key := (default [] (h !! key) ++ [value])]> h.

(** [http.Request], as far as the client touches it. *)
Record Request : Type := mkRequest {
  req_Method : string;
  req_Path : string;
  req_Header : Header;
  req_Body : option bytes
}.

Definition Request_setHeader (req : Request) (key value : string) : Request :=
  {| req_Method := req_Method req; req_Path := req_Path req;
     req_Header := Header_Set (req_Header req) key value; req_Body := req_Body req |}.

Definition Request_addHeader (req : Request) (key value : string) : Request :=
  {| req_Method := req_Method req; req_Path := req_Path req;
     req_Header := Header_Add (req_Header req) key value; req_Body := req_Body req |}.

(** [http.Response]; [hr_RequestPath] is [resp.Request.URL.Path]. *)
Record HTTPResponse : Type := mkHTTPResponse {
  StatusCode : Z;
  hr_Header : Header;
  hr_Body : bytes;
  hr_RequestPath : string
}.

Definition StatusGone : Z := 410.
Definition StatusPreconditionFailed : Z := 412.

(** [ical.MIMEType] *)
Definition ical_MIMEType : string := "text/calendar".

(** ** Multistatus values (package [internal])

    The client never looks inside a multistatus entry; it calls the
    substrate's accessors on it.  An entry is therefore the record of
    what those calls answer. *)
Record Status : Type := mkStatus {
  st_Code : Z;
  st_Text : string
}.

Record PropStat : Type := mkPropStat {
  ps_Status : Status;
  ps_getETag : result string;        (* propstat.Prop.Decode(&getETag) *)
  ps_calendarData : result bytes     (* propstat.Prop.Decode(&calData) *)
}.

Record Response : Type := mkResponse {
  resp_Path : result string;               (* resp.Path() *)
  resp_Err : option error;                 (* resp.Err() *)
  resp_Status : option Status;             (* resp.Status *)
  resp_PropStats : list PropStat;          (* resp.PropStats *)
  resp_calendarData : result bytes;        (* resp.DecodeProp(&calData) *)
  resp_getLastModified : result Time;      (* resp.DecodeProp(&getLastMod) *)
  resp_getETag : result string;            (* resp.DecodeProp(&getETag) *)
  resp_getContentLength : result Z         (* resp.DecodeProp(&getContentLength) *)
}.

Record MultiStatus : Type := mkMultiStatus {
  Responses : list Response;
  ms_SyncToken : string
}.

(** The operands of [internal.EncodeProp]. *)
Inductive propValue : Type :=
| calendarDataReqValue (r : calendarDataReq)
| rawXMLElement (name : string).

Definition GetLastModifiedName : string := "getlastmodified".
Definition GetETagName : string := "getetag".

(** ** The collaborators

    Package [internal] (the WebDAV property substrate and the transport),
    the iCalendar codec, the parsers of the Go standard library and the
    clock.  [World] is the state of everything outside the process: the
    server and the wall clock. *)
Class Substrate : Type := mkSubstrate {
  World : Type;
  internalProp : Type;
  (* go-ical *)
  ical_Decode : bytes -> result Calendar;
  ical_Encode : Calendar -> result bytes;
  (* Go standard library *)
  url_Parse_Path : string -> result string;
  strconv_Unquote : string -> result string;
  strconv_ParseInt : string -> result Z;
  http_ParseTime : string -> result Time;
  mime_ParseMediaType : string -> result string;
  time_Now : World -> World * Time;
  (* package internal *)
  internal_IsNotFound : error -> bool;
  internal_EncodeProp : list propValue -> result internalProp;
  ic_NewRequest : string -> string -> option bytes -> result Request;
  ic_NewXMLRequest_calendarQuery :
    string -> string -> internalProp -> compFilter -> result Request;
  ic_NewXMLRequest_calendarMultiget :
    string -> string -> internalProp -> list string -> result Request;
  ic_Do : World -> Request -> World * result HTTPResponse;
  ic_DoMultiStatus : World -> Request -> World * result MultiStatus;
  ic_SyncCollection :
    World -> string -> string -> Depth -> internalProp -> World * result MultiStatus
}.

Context `{substrate : Substrate}.

(** ** The client and its runs *)

Record Client : Type := mkClient {
  conflictResolver : option ResolverValue
}.

Definition SetConflictResolver (c : Client) (resolver : option ResolverValue) : Client :=
  {| conflictResolver := resolver |}.

(** What a run of the client does that can be seen from outside. *)
Inductive Event : Type :=
| EvDo (req : Request)
| EvDoMultiStatus (req : Request)
| EvSyncCollection (path syncToken : string) (level : Depth)
| EvResolve (local remote : option CalendarObject).

Record State : Type := mkState {
  world : World;
  heap : Heap;
  events : list Event
}.

Definition State_emit (s : State) (w : World) (e : Event) : State :=
  {| world := w; heap := heap s; events := (events s ++ [e]) |}.

(** A method that returns [(T, error)]. *)
Definition M (A : Type) : Type := State -> State * outcome (result A).

Definition ret {A : Type} (a : A) : M A := fun s => (s, Returns (Ok a)).

Definition fail {A : Type} (e : error) : M A := fun s => (s, Returns (Failed e)).

Definition lift {A : Type} (r : result A) : M A := fun s => (s, Returns r).

(** [v, err := m; if err != nil { return nil, err }; k v] *)
Definition bind {A B : Type} (m : M A) (k : A -> M B) : M B :=
  fun s =>
    match m s with
    | (s', Returns (Ok a)) => k a s'
    | (s', Returns (Failed e)) => (s', Returns (Failed e))
    | (s', Panics why) => (s', Panics why)
    | (s', OutOfFuel) => (s', OutOfFuel)
    end.

Notation "'let*' x := m 'in' k" := (bind m (fun x => k))
  (at level 10, x name, m at level 100, k at level 200).

Definition Do (req : Request) : M HTTPResponse :=
  fun s =>
    let '(w, r) := ic_Do (world s) req in
    (State_emit s w (EvDo req), Returns r).

Definition DoMultiStatus (req : Request) : M MultiStatus :=
  fun s =>
    let '(w, r) := ic_DoMultiStatus (world s) req in
    (State_emit s w (EvDoMultiStatus req), Returns r).

Definition SyncCollection (path syncToken : string) (level : Depth)
    (prop : internalProp) : M MultiStatus :=
  fun s =>
    let '(w, r) := ic_SyncCollection (world s) path syncToken level prop in
    (State_emit s w (EvSyncCollection path syncToken level), Returns r).

Definition Now : M Time :=
  fun s =>
    let '(w, t) := time_Now (world s) in
    ({| world := w; heap := heap s; events := events s |}, Returns (Ok t)).

Definition callResolve (r : ResolverValue) (local remote : option CalendarObject)
    : M ConflictDecision :=
  fun s => (State_emit s (world s) (EvResolve local remote), Returns (Ok (r local remote))).

(** ** Reading and writing one object (client.go) *)

Definition CalendarObject_setPath (co : CalendarObject) (v : string) : CalendarObject :=
  {| Path := v; ModTime := ModTime co; ContentLength := ContentLength co;
     ETag := ETag co; Data := Data co |}.

Definition CalendarObject_setETag (co : CalendarObject) (v : string) : CalendarObject :=
  {| Path := Path co; ModTime := ModTime co; ContentLength := ContentLength co;
     ETag := v; Data := Data co |}.

Definition CalendarObject_setContentLength (co : CalendarObject) (v : Z) : CalendarObject :=
  {| Path := Path co; ModTime := ModTime co; ContentLength := v;
     ETag := ETag co; Data := Data co |}.

Definition CalendarObject_setModTime (co : CalendarObject) (v : Time) : CalendarObject :=
  {| Path := Path co; ModTime := v; ContentLength := ContentLength co;
     ETag := ETag co; Data := Data co |}.

(** [populateCalendarObject(co, h)]: the object after the call, or the
    error (the callers then drop the object). *)
Definition populateCalendarObject (co : CalendarObject) (h : Header)
    : result CalendarObject :=
  let loc := Header_Get h "Location" in
  match (if negb (string_eqb loc "")
         then match url_Parse_Path loc with
              | Failed err => Failed err
              | Ok p => Ok (CalendarObject_setPath co p)
              end
         else Ok co) with
  | Failed err => Failed err
  | Ok co =>
      let etag := Header_Get h "ETag" in
      let co :=
        if negb (string_eqb etag "")
        then match strconv_Unquote etag with
             | Failed _ => CalendarObject_setETag co etag
             | Ok unquoted => CalendarObject_setETag co unquoted
             end
        else co in
      let contentLength := Header_Get h "Content-Length" in
      match (if negb (string_eqb contentLength "")
             then match strconv_ParseInt contentLength with
                  | Failed err => Failed err
                  | Ok n => Ok (CalendarObject_setContentLength co n)
                  end
             else Ok co) with
      | Failed err => Failed err
      | Ok co =>
          let lastModified := Header_Get h "Last-Modified" in
          if negb (string_eqb lastModified "")
          then match http_ParseTime lastModified with
               | Failed err => Failed err
               | Ok t => Ok (CalendarObject_setModTime co t)
               end
          else Ok co
      end
  end.

(** [strings.EqualFold] on ASCII letters, which is all that can fold onto
    the letters of [ical.MIMEType]. *)
Definition ascii_lower (c : ascii) : ascii :=
  let n := nat_of_ascii c in
  if ((65 <=? n) && (n <=? 90))%nat then ascii_of_nat (n + 32) else c.

Fixpoint string_lower (s : string) : string :=
  match s with
  | EmptyString => EmptyString
  | String c s' => String (ascii_lower c) (string_lower s')
  end.

Definition strings_EqualFold (a b : string) : bool :=
  string_eqb (string_lower a) (string_lower b).

Definition GetCalendarObject (c : Client) (path : string) : M CalendarObject :=
  let* req := lift (ic_NewRequest "GET" path None) in
  let req := Request_setHeader req "Accept" ical_MIMEType in
  let* resp := Do req in
  let* mediaType := lift (mime_ParseMediaType (Header_Get (hr_Header resp) "Content-Type")) in
  if negb (strings_EqualFold mediaType ical_MIMEType)
  then fail (fmtError "caldav: expected Content-Type %q, got %q" [ical_MIMEType; mediaType])
  else
    let* cal := lift (ical_Decode (hr_Body resp)) in
    let co := {| Path := hr_RequestPath resp; ModTime := Time_zero; ContentLength := 0;
                 ETag := ""; Data := Some cal |} in
    lift (populateCalendarObject co (hr_Header resp)).

(** Modelled from the spec: [webdav.ConditionalMatch.IsSet] (package
    [webdav]), of which the spec says that an unset token means no
    condition; the zero token is the empty string. *)
Definition ConditionalMatch_IsSet (val : string) : bool := negb (string_eqb val "").

(** [handleConflict]; [put] is the method it calls back,
    [c.PutCalendarObject]. *)
Definition handleConflict
    (put : string -> Calendar -> option PutOptions -> M CalendarObject)
    (c : Client) (path : string) (local : Calendar) : M CalendarObject :=
  fun s =>
    match GetCalendarObject c path s with
    | (s1, Returns (Failed err)) =>
        (s1, Returns (Failed (wrapError "failed to get remote version: %w" err)))
    | (s1, Returns (Ok remote)) =>
        (let* now := Now in
         let localObj := {| Path := path; ModTime := now; ContentLength := 0;
                            ETag := ""; Data := Some local |} in
         match conflictResolver c with
         | None => fun s2 => (s2, Panics nilDereference)
         | Some resolver =>
             let* decision := callResolve resolver (Some localObj) (Some remote) in
             if decision =? UseLocal then put path local None
             else if decision =? UseRemote then ret remote
             else if decision =? Skip then fail ErrPreconditionFailed
             else if decision =? Merge then fail ErrMergeNotSupported
             else fail (fmtError "caldav: unknown conflict decision: %v"
                          [ConflictDecision_String decision])
         end) s1
    | (s1, Panics why) => (s1, Panics why)
    | (s1, OutOfFuel) => (s1, OutOfFuel)
    end.

(** The headers [PutCalendarObject] sets on the fresh request: the
    content type, then [If-Match] and [If-None-Match] when the options
    (nil options being empty options) have them set. *)
Definition putRequest (req : Request) (opts : option PutOptions) : Request :=
  let req := Request_setHeader req "Content-Type" ical_MIMEType in
  let opts := default {| IfMatch := ""; IfNoneMatch := "" |} opts in
  let req := if ConditionalMatch_IsSet (IfMatch opts)
             then Request_setHeader req "If-Match" (IfMatch opts) else req in
  let req := if ConditionalMatch_IsSet (IfNoneMatch opts)
             then Request_setHeader req "If-None-Match" (IfNoneMatch opts) else req in
  req.

(** [PutCalendarObject].  The method and [handleConflict] call each
    other; [fuel] bounds the depth of that recursion. *)
Fixpoint PutCalendarObject (fuel : nat) (c : Client) (path : string) (cal : Calendar)
    (opts : option PutOptions) : M CalendarObject :=
  match fuel with
  | O => fun s => (s, OutOfFuel)
  | S fuel' =>
      let* buf := lift (ical_Encode cal) in
      let* req := lift (ic_NewRequest "PUT" path (Some buf)) in
      let req := putRequest req opts in
      let* resp := Do req in
      if StatusCode resp =? StatusPreconditionFailed then
        match conflictResolver c with
        | Some _ => handleConflict (PutCalendarObject fuel' c) c path cal
        | None => fail ErrPreconditionFailed
        end
      else
        let co := {| Path := path; ModTime := Time_zero; ContentLength := 0;
                     ETag := ""; Data := None |} in
        lift (populateCalendarObject co (hr_Header resp))
  end.

(** ** The multistatus decoder (client.go) *)

(** [err := resp.DecodeProp(&v); err != nil && !internal.IsNotFound(err)]:
    a missing property leaves [v] at its zero value. *)
Definition decodePropOr {A : Type} (zero : A) (r : result A) : result A :=
  match r with
  | Ok v => Ok v
  | Failed err => if internal_IsNotFound err then Ok zero else Failed err
  end.

(** The loop of [decodeCalendarObjectList], with [addrs] and [errs] as
    they stand before the remaining entries. *)
Fixpoint decodeLoop (resps : list Response) (addrs : list CalendarObject)
    (errs : list error) : list CalendarObject * option error :=
  match resps with
  | [] => (addrs, errors_Join errs)
  | resp :: rest =>
      match resp_Path resp with
      | Failed err => decodeLoop rest addrs (errs ++ [err])
      | Ok path =>
          match decodePropOr "" (resp_calendarData resp) with
          | Failed err => ([], Some err)
          | Ok calData =>
              if len calData =? 0 then decodeLoop rest addrs errs
              else
                match decodePropOr Time_zero (resp_getLastModified resp) with
                | Failed err => ([], Some err)
                | Ok getLastMod =>
                    match decodePropOr "" (resp_getETag resp) with
                    | Failed err => ([], Some err)
                    | Ok getETag =>
                        match decodePropOr 0 (resp_getContentLength resp) with
                        | Failed err => ([], Some err)
                        | Ok getContentLength =>
                            match ical_Decode calData with
                            | Failed err => ([], Some err)
                            | Ok data =>
                                decodeLoop rest
                                  (addrs ++ [{| Path := path; ModTime := getLastMod;
                                                ContentLength := getContentLength;
                                                ETag := getETag; Data := Some data |}])
                                  errs
                            end
                        end
                    end
                end
          end
      end
  end.

Definition decodeCalendarObjectList (ms : MultiStatus)
    : list CalendarObject * option error :=
  decodeLoop (Responses ms) [] [].

(** ** Queries (client.go) *)

Definition encodeCalendarReq (c : CalendarCompRequest) : result internalProp :=
  match encodeCalendarCompReq c with
  | Failed err => Failed err
  | Ok compReq =>
      let expandReq := encodeExpandRequest (cr_Expand c) in
      let calDataReq := {| cdr_Comp := Some compReq; cdr_Expand := expandReq |} in
      internal_EncodeProp
        [calendarDataReqValue calDataReq;
         rawXMLElement GetLastModifiedName;
         rawXMLElement GetETagName]
  end.

(** The block of [QueryCalendar] guarded by
    [opts.TimeRangeStart != nil || opts.TimeRangeEnd != nil]. *)
Definition applyQueryOptions (modifiedQuery : CalendarQuery) (opts : QueryOptions)
    (h : Heap) : Heap * outcome unit :=
  let comps := cf_Comps (cq_CompFilter modifiedQuery) in
  if bool_decide (TimeRangeStart opts <> None) || bool_decide (TimeRangeEnd opts <> None)
  then applyTimeRange opts comps (slice_elems h comps) 0 h
  else (h, Returns tt).

(** A method that returns [([]CalendarObject, error)], both halves
    possibly set. *)
Definition ListM : Type :=
  State -> State * outcome (list CalendarObject * option error).

(** The tail shared by [QueryCalendar] and [MultiGetCalendar]: add the
    Depth header, run the request, decode the multistatus. *)
Definition reportAndDecode (req : result Request) : ListM :=
  fun s =>
    match req with
    | Failed err => (s, Returns ([], Some err))
    | Ok req =>
        let req := Request_addHeader req "Depth" "1" in
        match DoMultiStatus req s with
        | (s', Returns (Ok ms)) => (s', Returns (decodeCalendarObjectList ms))
        | (s', Returns (Failed err)) => (s', Returns ([], Some err))
        | (s', Panics why) => (s', Panics why)
        | (s', OutOfFuel) => (s', OutOfFuel)
        end
    end.

(** [QueryCalendar(ctx, calendar, query, opts)].  [query] is the struct
    the caller's pointer designates; [modifiedQuery := *query] copies it,
    slice headers included.  [fuel] bounds the depth of the filter walk. *)
Definition QueryCalendar (fuel : nat) (c : Client) (calendar : string)
    (query : CalendarQuery) (opts : option QueryOptions) : ListM :=
  fun s =>
    let modifiedQuery := query in
    let opts := default {| TimeRangeStart := None; TimeRangeEnd := None;
                           qo_SyncToken := "" |} opts in
    let '(h1, ranged) := applyQueryOptions modifiedQuery opts (heap s) in
    let s1 := {| world := world s; heap := h1; events := events s |} in
    match ranged with
    | Panics why => (s1, Panics why)
    | OutOfFuel => (s1, OutOfFuel)
    | Returns _ =>
        match encodeCalendarReq (CompRequest modifiedQuery) with
        | Failed err => (s1, Returns ([], Some err))
        | Ok propReq =>
            match encodeCompFilter fuel h1 (cq_CompFilter modifiedQuery) with
            | None => (s1, OutOfFuel)
            | Some filter =>
                reportAndDecode
                  (ic_NewXMLRequest_calendarQuery "REPORT" calendar propReq filter) s1
            end
        end
    end.

Record CalendarMultiGet : Type := mkCalendarMultiGet {
  mg_Paths : list string;
  mg_CompRequest : CalendarCompRequest
}.

Definition MultiGetCalendar (c : Client) (path : string) (multiGet : CalendarMultiGet)
    : ListM :=
  fun s =>
    match encodeCalendarReq (mg_CompRequest multiGet) with
    | Failed err => (s, Returns ([], Some err))
    | Ok propReq =>
        let hrefs := match mg_Paths multiGet with
                     | [] => [path]
                     | paths => paths
                     end in
        reportAndDecode (ic_NewXMLRequest_calendarMultiget "REPORT" path propReq hrefs) s
    end.

(** ** Incremental sync (client.go) *)

(** The propstat loop of [SyncCalendar], with [status], [etag] and
    [calendarData] as they stand before the remaining propstats. *)
Fixpoint propstatLoop (resp : Response) (propstats : list PropStat)
    (status etag : string) (calendarData : bytes) : string * string * bytes :=
  match propstats with
  | [] => (status, etag, calendarData)
  | propstat :: rest =>
      match resp_Err resp with
      | Some _ => propstatLoop resp rest status etag calendarData
      | None =>
          let etag := match ps_getETag propstat with
                      | Ok e => e
                      | Failed _ => etag
                      end in
          let calendarData := match ps_calendarData propstat with
                              | Ok d => d
                              | Failed _ => calendarData
                              end in
          let status := if string_eqb status "" then st_Text (ps_Status propstat)
                        else status in
          propstatLoop resp rest status etag calendarData
      end
  end.

(** The status text, ETag and document payload [SyncCalendar] works out
    for one entry. *)
Definition entryProps (resp : Response) : string * string * bytes :=
  let status := match resp_Status resp with
                | Some st => st_Text st
                | None => ""
                end in
  propstatLoop resp (resp_PropStats resp) status "" "".

(** One turn of the response loop of [SyncCalendar]. *)
Definition syncEntry (calendar : string) (resp : Response) (result : SyncResult)
    : State -> State * SyncResult :=
  fun s =>
    match resp_Path resp with
    | Failed _ => (s, result)
    | Ok path =>
        if string_eqb path calendar then (s, result)
        else
          let '(status, etag, calendarData) := entryProps resp in
          if strings_Contains status "404" then
            let uid := extractUIDFromPath path in
            (s, AddDeleted result path uid)
          else if strings_Contains status "200" && (0 <? len calendarData) then
            match ical_Decode calendarData with
            | Failed _ => (s, result)
            | Ok cal =>
                let '(w, now) := time_Now (world s) in
                let s' := {| world := w; heap := heap s; events := events s |} in
                let obj := {| Path := path; ModTime := now; ContentLength := 0;
                              ETag := etag; Data := Some cal |} in
                if strings_Contains status "201" then (s', AddCreated result obj)
                else (s', AddUpdated result obj)
            end
          else if strings_Contains status "200" then
            let obj := {| Path := path; ModTime := Time_zero; ContentLength := 0;
                          ETag := etag; Data := None |} in
            (s, AddUpdated result obj)
          else (s, result)
    end.

Fixpoint syncLoop (calendar : string) (resps : list Response) (result : SyncResult)
    : State -> State * SyncResult :=
  fun s =>
    match resps with
    | [] => (s, result)
    | resp :: rest =>
        let '(s', result') := syncEntry calendar resp result s in
        syncLoop calendar rest result' s'
    end.

(** [syncLevel := internal.DepthOne; if opts != nil && opts.SyncLevel != 0
    { syncLevel = opts.SyncLevel }]; [DepthZero] is the zero [Depth]. *)
Definition syncLevelFor (opts : option SyncOptions) : Depth :=
  match opts with
  | Some o => match SyncLevel o with
              | DepthZero => DepthOne
              | level => level
              end
  | None => DepthOne
  end.

(** The properties [SyncCalendar] asks for: calendar-data and the ETag. *)
Definition syncPropOperands : list propValue :=
  [calendarDataReqValue
     {| cdr_Comp := Some (mk_comp "VCALENDAR" false [] false []); cdr_Expand := None |};
   rawXMLElement GetETagName].

Definition SyncCalendar (c : Client) (calendar syncToken : string)
    (opts : option SyncOptions) : M SyncResult :=
  let syncLevel := syncLevelFor opts in
  let* prop := lift (internal_EncodeProp syncPropOperands) in
  fun s =>
    match SyncCollection calendar syncToken syncLevel prop s with
    | (s1, Returns (Failed err)) =>
        if bool_decide (errors_As_HTTPError err = Some StatusGone)
        then (s1, Returns (Failed ErrSyncTokenExpired))
        else (s1, Returns (Failed err))
    | (s1, Returns (Ok ms)) =>
        let result := NewSyncResult (ms_SyncToken ms) in
        let '(s2, result) := syncLoop calendar (Responses ms) result s1 in
        (s2, Returns (Ok result))
    | (s1, Panics why) => (s1, Panics why)
    | (s1, OutOfFuel) => (s1, OutOfFuel)
    end.

(** ** Entry-wise reading of the decoder

    What one multistatus entry contributes to
    [decodeCalendarObjectList], stated entry by entry: the path error it
    records, the error with which it aborts the call, or the object built
    from it. *)
Definition entryPathError (resp : Response) : list error :=
  match resp_Path resp with
  | Failed err => [err]
  | Ok _ => []
  end.

Definition entryAbort (resp : Response) : option error :=
  match resp_Path resp with
  | Failed _ => None
  | Ok _ =>
      match decodePropOr "" (resp_calendarData resp) with
      | Failed err => Some err
      | Ok calData =>
          if len calData =? 0 then None
          else match decodePropOr Time_zero (resp_getLastModified resp),
                     decodePropOr "" (resp_getETag resp),
                     decodePropOr 0 (resp_getContentLength resp),
                     ical_Decode calData with
               | Failed err, _, _, _ => Some err
               | Ok _, Failed err, _, _ => Some err
               | Ok _, Ok _, Failed err, _ => Some err
               | Ok _, Ok _, Ok _, Failed err => Some err
               | Ok _, Ok _, Ok _, Ok _ => None
               end
      end
  end.

Definition entryObject (resp : Response) : list CalendarObject :=
  match resp_Path resp, decodePropOr "" (resp_calendarData resp) with
  | Ok path, Ok calData =>
      if len calData =? 0 then []
      else match decodePropOr Time_zero (resp_getLastModified resp),
                 decodePropOr "" (resp_getETag resp),
                 decodePropOr 0 (resp_getContentLength resp),
                 ical_Decode calData with
           | Ok lastMod, Ok etag, Ok length, Ok data =>
               [{| Path := path; ModTime := lastMod; ContentLength := length;
                   ETag := etag; Data := Some data |}]
           | _, _, _, _ => []
           end
  | _, _ => []
  end.

(** * Properties *)

(** ** Conflict resolvers *)

Lemma Time_After_irrefl (t : Time) : Time_After t t = false.
Proof. unfold Time_After. apply Z.ltb_irrefl. Qed.

Lemma LastModifiedWins_later_wins (r : LastModifiedWinsResolver) (l rm : CalendarObject) :
  Resolve r (Some l) (Some rm)
  = if Time_After (ModTime rm) (ModTime l) then UseRemote else UseLocal.
Proof.
  unfold Resolve, LastModifiedWins_ConflictResolver, LastModifiedWinsResolver_Resolve.
  unfold Time_After.
  destruct (ModTime rm <? ModTime l) eqn:Hl; destruct (ModTime l <? ModTime rm) eqn:Hr;
    try reflexivity.
  apply Z.ltb_lt in Hl. apply Z.ltb_lt in Hr. lia.
Qed.

(** C1 (as amended).  With exactly one argument nil, each of the three
    built-in resolvers answers [UseRemote] for a nil local and [UseLocal]
    for a nil remote.  With both arguments nil, [LastModifiedWinsResolver]
    answers [Skip], [AlwaysUseLocalResolver] answers [UseRemote] (it looks
    at the local argument only) and [AlwaysUseRemoteResolver] answers
    [UseLocal] (it looks at the remote argument only). *)
Theorem builtin_resolvers_nil_arguments (l rm : CalendarObject) :
  (Resolve LastModifiedWinsResolver_value None (Some rm) = UseRemote
   /\ Resolve LastModifiedWinsResolver_value (Some l) None = UseLocal
   /\ Resolve LastModifiedWinsResolver_value None None = Skip)
  /\ (Resolve AlwaysUseLocalResolver_value None (Some rm) = UseRemote
      /\ Resolve AlwaysUseLocalResolver_value (Some l) None = UseLocal
      /\ Resolve AlwaysUseLocalResolver_value None None = UseRemote)
  /\ (Resolve AlwaysUseRemoteResolver_value None (Some rm) = UseRemote
      /\ Resolve AlwaysUseRemoteResolver_value (Some l) None = UseLocal
      /\ Resolve AlwaysUseRemoteResolver_value None None = UseLocal).
Proof. repeat split. Qed.

(** ** Deleted items *)

Lemma ExtractUID_explicit (path uid : string) :
  uid <> "" -> ExtractUID {| sdi_Path := path; sdi_UID := uid |} = uid.
Proof.
  intros Hne. unfold ExtractUID, string_eqb. simpl.
  rewrite bool_decide_eq_false_2 by assumption. reflexivity.
Qed.

Lemma ExtractUID_both_empty :
  ExtractUID {| sdi_Path := ""; sdi_UID := "" |} = "".
Proof. reflexivity. Qed.

Lemma substring_all (s : string) : String.substring 0 (String.length s) s = s.
Proof. induction s as [|c s IH]; simpl; [reflexivity|]. rewrite IH. reflexivity. Qed.

Lemma byte_at_cons (c : ascii) (s : string) (i : nat) :
  byte_at (String c s) (Z.of_nat (S i)) = byte_at s (Z.of_nat i).
Proof.
  unfold byte_at.
  destruct (Z.of_nat (S i) <? 0) eqn:H1; [apply Z.ltb_lt in H1; lia|].
  destruct (Z.of_nat i <? 0) eqn:H2; [apply Z.ltb_lt in H2; lia|].
  rewrite !Nat2Z.id. reflexivity.
Qed.

Lemma scanLastSlash_bounds (s : string) (n : nat) :
  -1 <= scanLastSlash s n < Z.of_nat n.
Proof.
  induction n as [|n IH]; simpl; [lia|].
  destruct (bool_decide _); lia.
Qed.

Lemma scanLastSlash_cons (c : ascii) (s : string) (n : nat) :
  scanLastSlash (String c s) (S n)
  = if scanLastSlash s n <? 0
    then (if bool_decide (c = slash) then 0 else -1)
    else scanLastSlash s n + 1.
Proof.
  induction n as [|n IH].
  - simpl. unfold byte_at. simpl.
    destruct (decide (c = slash)) as [->|Hne].
    + rewrite !bool_decide_eq_true_2 by reflexivity. reflexivity.
    + rewrite !bool_decide_eq_false_2 by congruence. reflexivity.
  - change (scanLastSlash (String c s) (S (S n)))
      with (if bool_decide (byte_at (String c s) (Z.of_nat (S n)) = Some slash)
            then Z.of_nat (S n) else scanLastSlash (String c s) (S n)).
    rewrite byte_at_cons.
    change (scanLastSlash s (S n))
      with (if bool_decide (byte_at s (Z.of_nat n) = Some slash)
            then Z.of_nat n else scanLastSlash s n).
    destruct (bool_decide (byte_at s (Z.of_nat n) = Some slash)).
    + destruct (Z.of_nat n <? 0) eqn:Hn; [apply Z.ltb_lt in Hn; lia|]. lia.
    + exact IH.
Qed.

(** The file name [ExtractUID] cuts out of a path. *)
Definition fileName (path : string) : string :=
  slice path (scanLastSlash path (String.length path) + 1) (len path).

Lemma fileName_no_slash (s : string) :
  scanLastSlash s (String.length s) < 0 -> fileName s = s.
Proof.
  intros Hk. pose proof (scanLastSlash_bounds s (String.length s)) as Hb.
  unfold fileName, slice, len.
  replace (scanLastSlash s (String.length s)) with (-1) by lia.
  simpl. rewrite Z.sub_0_r, Nat2Z.id. apply substring_all.
Qed.

Lemma fileName_cons (c : ascii) (s : string) :
  fileName (String c s)
  = if scanLastSlash s (String.length s) <? 0
    then (if bool_decide (c = slash) then s else String c s)
    else fileName s.
Proof.
  pose proof (scanLastSlash_bounds s (String.length s)) as Hb.
  unfold fileName at 1. simpl String.length. rewrite scanLastSlash_cons.
  unfold slice, len. simpl String.length.
  destruct (scanLastSlash s (String.length s) <? 0) eqn:Hk.
  - apply Z.ltb_lt in Hk. destruct (bool_decide (c = slash)).
    + replace (Z.to_nat (0 + 1)) with 1%nat by lia.
      replace (Z.to_nat (Z.of_nat (S (String.length s)) - (0 + 1))) with (String.length s) by lia.
      simpl. apply substring_all.
    + replace (Z.to_nat (-1 + 1)) with 0%nat by lia.
      replace (Z.to_nat (Z.of_nat (S (String.length s)) - (-1 + 1)))
        with (S (String.length s)) by lia.
      simpl. rewrite substring_all. reflexivity.
  - apply Z.ltb_ge in Hk. unfold fileName, slice, len.
    set (k := scanLastSlash s (String.length s)) in *.
    replace (Z.to_nat (k + 1 + 1)) with (S (Z.to_nat (k + 1))) by lia.
    replace (Z.to_nat (Z.of_nat (S (String.length s)) - (k + 1 + 1)))
      with (Z.to_nat (Z.of_nat (String.length s) - (k + 1))) by lia.
    reflexivity.
Qed.

Lemma strings_Split_fileName (s : string) :
  last (strings_Split s slash) = Some (fileName s)
  /\ (scanLastSlash s (String.length s) < 0 -> strings_Split s slash = [s])
  /\ (0 <= scanLastSlash s (String.length s) ->
      exists piece rest, strings_Split s slash = piece :: rest /\ rest <> []).
Proof.
  induction s as [|c s (IHlast & IHnone & IHsome)].
  - split; [reflexivity|]. split; [reflexivity|]. simpl. lia.
  - pose proof (scanLastSlash_bounds s (String.length s)) as Hb.
    rewrite fileName_cons. simpl String.length. rewrite scanLastSlash_cons. simpl strings_Split.
    destruct (scanLastSlash s (String.length s) <? 0) eqn:Hk.
    + apply Z.ltb_lt in Hk. rewrite (IHnone Hk).
      destruct (bool_decide (c = slash)).
      * split; [reflexivity|]. split; [lia|]. intros _. exists "", [s]. split; [reflexivity|discriminate].
      * split; [reflexivity|]. split; [reflexivity|]. lia.
    + apply Z.ltb_ge in Hk. destruct (IHsome Hk) as (piece & rest & Hsplit & Hrest).
      rewrite Hsplit in *.
      destruct (bool_decide (c = slash)).
      * split; [|split; [lia|]].
        -- rewrite last_cons, IHlast. reflexivity.
        -- intros _. exists "", (piece :: rest). split; [reflexivity|discriminate].
      * split; [|split; [lia|]].
        -- rewrite last_cons in IHlast |- *.
           destruct (last rest) eqn:Hlast; [exact IHlast|].
           apply last_None in Hlast. contradiction.
        -- intros _. exists (String c piece), rest. split; [reflexivity|assumption].
Qed.

(** Apart from a last segment that is exactly [.ics], [ExtractUID] on an
    item without a UID computes what [extractUIDFromPath] computes. *)
Lemma ExtractUID_path_derived (path : string) :
  ExtractUID {| sdi_Path := path; sdi_UID := "" |}
  = if string_eqb (fileName path) ".ics" then ".ics" else extractUIDFromPath path.
Proof.
  unfold ExtractUID, extractUIDFromPath. simpl sdi_UID. simpl sdi_Path.
  destruct (strings_Split_fileName path) as (Hlast & _ & _). rewrite Hlast.
  fold (fileName path).
  destruct (string_eqb path "") eqn:Hempty.
  { unfold string_eqb in Hempty. apply bool_decide_eq_true_1 in Hempty. subst path.
    reflexivity. }
  simpl negb. cbv iota.
  set (f := fileName path).
  unfold strings_HasSuffix. change (len ".ics") with 4.
  destruct (string_eqb f ".ics") eqn:Hf.
  - unfold string_eqb in Hf. apply bool_decide_eq_true_1 in Hf. rewrite Hf. reflexivity.
  - destruct (Z.eq_dec (len f) 4) as [H4|H4].
    + rewrite H4. simpl (4 <? 4). simpl (4 <=? 4). cbv iota. simpl andb.
      replace (slice f (4 - 4) 4) with f.
      * rewrite Hf. reflexivity.
      * unfold slice. unfold len in H4.
        replace (Z.to_nat (4 - 4)) with 0%nat by lia.
        replace (Z.to_nat (4 - (4 - 4))) with (String.length f) by lia.
        symmetry. apply substring_all.
    + replace (4 <=? len f) with (4 <? len f); [reflexivity|].
      destruct (4 <? len f) eqn:Hlt; symmetry.
      * apply Z.ltb_lt in Hlt. apply Z.leb_le. lia.
      * apply Z.ltb_ge in Hlt. apply Z.leb_gt. lia.
Qed.

Lemma ExtractUID_agrees_with_extractUIDFromPath (path : string) :
  last (strings_Split path slash) <> Some ".ics" ->
  ExtractUID {| sdi_Path := path; sdi_UID := "" |} = extractUIDFromPath path.
Proof.
  intros Hne. rewrite ExtractUID_path_derived.
  destruct (strings_Split_fileName path) as (Hlast & _ & _). rewrite Hlast in Hne.
  unfold string_eqb. rewrite bool_decide_eq_false_2; [reflexivity|].
  intros Heq. apply Hne. rewrite Heq. reflexivity.
Qed.

(** C8.  On a deleted item without a UID whose path ends in a segment
    that is exactly [.ics], [ExtractUID] returns that segment unstripped,
    while [extractUIDFromPath], whose logic it is documented to share,
    strips it to the empty string. *)
Theorem ExtractUID_bare_ics_segment :
  ExtractUID {| sdi_Path := "/cal/.ics"; sdi_UID := "" |} = ".ics"
  /\ extractUIDFromPath "/cal/.ics" = "".
Proof. split; vm_compute; reflexivity. Qed.

(** ** Query options and the caller's filter tree *)

Definition defaultQueryOptions : QueryOptions :=
  {| TimeRangeStart := None; TimeRangeEnd := None; qo_SyncToken := "" |}.

Lemma reportAndDecode_heap (req : result Request) (s : State) :
  heap (reportAndDecode req s).1 = heap s.
Proof.
  unfold reportAndDecode. destruct req as [req|err]; [|reflexivity].
  unfold DoMultiStatus.
  destruct (ic_DoMultiStatus (world s) (Request_addHeader req "Depth" "1")) as [w [ms|err]];
    reflexivity.
Qed.

(** The only writes [QueryCalendar] makes to the heap are those of its
    time-range block. *)
Lemma QueryCalendar_heap (fuel : nat) (c : Client) (calendar : string)
    (query : CalendarQuery) (opts : option QueryOptions) (s : State) :
  heap (QueryCalendar fuel c calendar query opts s).1
  = (applyQueryOptions query (default defaultQueryOptions opts) (heap s)).1.
Proof.
  unfold QueryCalendar, defaultQueryOptions.
  destruct (applyQueryOptions query _ (heap s)) as [h1 ranged].
  destruct ranged as [[]|why|]; try reflexivity.
  destruct (encodeCalendarReq (CompRequest query)); [|reflexivity].
  destruct (encodeCompFilter fuel h1 (cq_CompFilter query)); [|reflexivity].
  rewrite reportAndDecode_heap. reflexivity.
Qed.

Lemma applyTimeRange_no_VEVENT (opts : QueryOptions) (comps : option Slice)
    (elems : list CompFilter) (i : nat) (h : Heap) :
  Forall (fun c => cf_Name c <> "VEVENT") elems ->
  applyTimeRange opts comps elems i h = (h, Returns tt).
Proof.
  intros Hall. revert i. induction Hall as [|c rest Hc _ IH]; intros i; simpl.
  - reflexivity.
  - unfold string_eqb. rewrite bool_decide_eq_false_2 by assumption. apply IH.
Qed.

(** Without a time range, or without a direct child named VEVENT, the
    heap is left as it was. *)
Lemma QueryCalendar_heap_untouched (fuel : nat) (c : Client) (calendar : string)
    (query : CalendarQuery) (opts : option QueryOptions) (s : State) :
  (TimeRangeStart (default defaultQueryOptions opts) = None
   /\ TimeRangeEnd (default defaultQueryOptions opts) = None)
  \/ Forall (fun c => cf_Name c <> "VEVENT")
       (slice_elems (heap s) (cf_Comps (cq_CompFilter query))) ->
  heap (QueryCalendar fuel c calendar query opts s).1 = heap s.
Proof.
  intros Hcase. rewrite QueryCalendar_heap. unfold applyQueryOptions.
  destruct Hcase as [[Hs He]|Hno].
  - rewrite Hs, He. reflexivity.
  - destruct (_ || _); [|reflexivity].
    rewrite applyTimeRange_no_VEVENT by assumption. reflexivity.
Qed.

(** The query of the README: a VCALENDAR filter whose [Comps] slice holds
    one VEVENT filter, the slice's backing array being at [l]. *)
Definition veventFilter : CompFilter :=
  {| cf_Name := "VEVENT"; cf_Start := Time_zero; cf_End := Time_zero;
     cf_Props := []; cf_Comps := None |}.

Definition readmeQuery (l : loc) : CalendarQuery :=
  {| CompRequest :=
       mkCalendarCompRequest "VCALENDAR" false [] false
         [mkCalendarCompRequest "VEVENT" false [] false [] None] None;
     cq_CompFilter :=
       {| cf_Name := "VCALENDAR"; cf_Start := Time_zero; cf_End := Time_zero;
          cf_Props := [];
          cf_Comps := Some {| sl_array := l; sl_off := 0; sl_len := 1 |} |} |}.

Definition readmeState (w : World) (l : loc) : State :=
  {| world := w; heap := {[ l := [veventFilter] ]}; events := [] |}.

(** C4.  After [QueryCalendar] has run on the README query with a time
    range, the caller's own query reads back with the range written into
    its VEVENT child: the copy shares the [Comps] backing array with the
    original. *)
Theorem QueryCalendar_writes_through_shared_slice
    (fuel : nat) (c : Client) (calendar : string) (w : World) (l : loc)
    (start end_ : Time) :
  let query := readmeQuery l in
  let opts := {| TimeRangeStart := Some start; TimeRangeEnd := Some end_;
                 qo_SyncToken := "" |} in
  let s := readmeState w l in
  viewCompFilter 1 (heap s) (cq_CompFilter query)
  = mkFilterView "VCALENDAR" Time_zero Time_zero
      [mkFilterView "VEVENT" Time_zero Time_zero []]
  /\ viewCompFilter 1 (heap (QueryCalendar fuel c calendar query (Some opts) s).1)
       (cq_CompFilter query)
     = mkFilterView "VCALENDAR" Time_zero Time_zero
         [mkFilterView "VEVENT" start end_ []].
Proof.
  intros query opts s. split.
  - unfold s, readmeState, query, readmeQuery. simpl.
    rewrite lookup_singleton_eq. reflexivity.
  - rewrite QueryCalendar_heap.
    unfold s, readmeState, query, readmeQuery, applyQueryOptions, opts. simpl.
    rewrite lookup_singleton_eq. simpl.
    rewrite !alter_singleton_eq. simpl.
    rewrite lookup_singleton_eq. reflexivity.
Qed.

(** C9.  With [TimeRangeEnd] set, [TimeRangeStart] nil and a VEVENT child
    in the filter, [QueryCalendar] panics on the dereference of
    [opts.TimeRangeStart]; with the roles exchanged it panics on
    [opts.TimeRangeEnd], after it has written the start. *)
Theorem QueryCalendar_one_sided_range_panics
    (fuel : nat) (c : Client) (calendar : string) (w : World) (l : loc) (t : Time) :
  (QueryCalendar fuel c calendar (readmeQuery l)
     (Some {| TimeRangeStart := None; TimeRangeEnd := Some t; qo_SyncToken := "" |})
     (readmeState w l)).2
  = Panics nilDereference
  /\ (QueryCalendar fuel c calendar (readmeQuery l)
        (Some {| TimeRangeStart := Some t; TimeRangeEnd := None; qo_SyncToken := "" |})
        (readmeState w l)).2
     = Panics nilDereference.
Proof.
  split; unfold QueryCalendar, applyQueryOptions, readmeState, readmeQuery; simpl;
    rewrite lookup_singleton_eq; reflexivity.
Qed.

(** ** The multistatus decoder *)

(** One turn of the loop, read through the entry-wise functions. *)
Lemma decodeLoop_cons (resp : Response) (rest : list Response)
    (addrs : list CalendarObject) (errs : list error) :
  decodeLoop (resp :: rest) addrs errs
  = match entryAbort resp with
    | Some err => ([], Some err)
    | None => decodeLoop rest (addrs ++ entryObject resp) (errs ++ entryPathError resp)
    end.
Proof.
  simpl. unfold entryAbort, entryObject, entryPathError.
  destruct (resp_Path resp) as [path|err]; [|rewrite app_nil_r; reflexivity].
  destruct (decodePropOr "" (resp_calendarData resp)) as [calData|err]; [|reflexivity].
  destruct (len calData =? 0); [rewrite !app_nil_r; reflexivity|].
  destruct (decodePropOr Time_zero (resp_getLastModified resp)); [|reflexivity].
  destruct (decodePropOr "" (resp_getETag resp)); [|reflexivity].
  destruct (decodePropOr 0 (resp_getContentLength resp)); [|reflexivity].
  destruct (ical_Decode calData); [|reflexivity].
  rewrite app_nil_r. reflexivity.
Qed.

Lemma decodeLoop_clean (resps : list Response) :
  Forall (fun resp => entryAbort resp = None) resps ->
  forall addrs errs,
    decodeLoop resps addrs errs
    = (addrs ++ flat_map entryObject resps,
       errors_Join (errs ++ flat_map entryPathError resps)).
Proof.
  induction 1 as [|resp rest Hresp _ IH]; intros addrs errs.
  - simpl. rewrite !app_nil_r. reflexivity.
  - rewrite decodeLoop_cons, Hresp, IH. simpl. rewrite <- !app_assoc. reflexivity.
Qed.

Lemma decodeLoop_app_clean (pre rest : list Response) :
  Forall (fun resp => entryAbort resp = None) pre ->
  forall addrs errs,
    decodeLoop (pre ++ rest) addrs errs
    = decodeLoop rest (addrs ++ flat_map entryObject pre)
        (errs ++ flat_map entryPathError pre).
Proof.
  induction 1 as [|resp pre' Hresp _ IH]; intros addrs errs.
  - simpl. rewrite !app_nil_r. reflexivity.
  - rewrite <- app_comm_cons, decodeLoop_cons, Hresp, IH. simpl.
    rewrite <- !app_assoc. reflexivity.
Qed.

(** Replacing the tail of the entry list by one the loop treats alike
    does not change the result, whatever came before. *)
Lemma decodeLoop_app_congr (pre l1 l2 : list Response) :
  (forall addrs errs, decodeLoop l1 addrs errs = decodeLoop l2 addrs errs) ->
  forall addrs errs, decodeLoop (pre ++ l1) addrs errs = decodeLoop (pre ++ l2) addrs errs.
Proof.
  intros Hsame. induction pre as [|resp pre IH]; intros addrs errs.
  - apply Hsame.
  - rewrite <- !app_comm_cons, !decodeLoop_cons.
    destruct (entryAbort resp); [reflexivity|apply IH].
Qed.

(** C6.  (a) When no entry aborts the call, the decoder returns the
    objects built from the entries, in order, together with the join of
    the path errors met on the way, in order: a path failure is recorded
    and the walk goes on.  (b) An entry whose calendar document fails to
    decode ends the call with that error and no object, whatever was
    built before it and whatever follows.  (c) An entry without
    calendar-data contributes nothing. *)
Theorem decodeCalendarObjectList_failure_asymmetry :
  (forall ms : MultiStatus,
      Forall (fun resp => entryAbort resp = None) (Responses ms) ->
      decodeCalendarObjectList ms
      = (flat_map entryObject (Responses ms),
         errors_Join (flat_map entryPathError (Responses ms))))
  /\ (forall (pre post : list Response) (resp : Response) (token path : string)
             (calData : bytes) (lastMod : Time) (etag : string) (length : Z) (err : error),
         Forall (fun resp => entryAbort resp = None) pre ->
         resp_Path resp = Ok path ->
         decodePropOr "" (resp_calendarData resp) = Ok calData ->
         len calData <> 0 ->
         decodePropOr Time_zero (resp_getLastModified resp) = Ok lastMod ->
         decodePropOr "" (resp_getETag resp) = Ok etag ->
         decodePropOr 0 (resp_getContentLength resp) = Ok length ->
         ical_Decode calData = Failed err ->
         decodeCalendarObjectList
           {| Responses := pre ++ resp :: post; ms_SyncToken := token |}
         = ([], Some err))
  /\ (forall (pre post : list Response) (resp : Response) (token path : string),
         resp_Path resp = Ok path ->
         decodePropOr "" (resp_calendarData resp) = Ok "" ->
         decodeCalendarObjectList
           {| Responses := pre ++ resp :: post; ms_SyncToken := token |}
         = decodeCalendarObjectList
             {| Responses := pre ++ post; ms_SyncToken := token |}).
Proof.
  split; [|split].
  - intros ms Hclean. unfold decodeCalendarObjectList.
    rewrite decodeLoop_clean by assumption. reflexivity.
  - intros pre post resp token path calData lastMod etag length err
      Hpre Hpath Hdata Hlen Hmod Hetag Hlength Hical.
    unfold decodeCalendarObjectList. simpl.
    rewrite decodeLoop_app_clean by assumption.
    rewrite decodeLoop_cons. unfold entryAbort.
    rewrite Hpath, Hdata, Hmod, Hetag, Hlength, Hical.
    destruct (len calData =? 0) eqn:Hz; [apply Z.eqb_eq in Hz; contradiction|].
    reflexivity.
  - intros pre post resp token path Hpath Hdata.
    unfold decodeCalendarObjectList. simpl.
    apply decodeLoop_app_congr. intros addrs errs.
    rewrite decodeLoop_cons. unfold entryAbort, entryObject, entryPathError.
    rewrite Hpath, Hdata. simpl. rewrite !app_nil_r. reflexivity.
Qed.

(** ** Incremental sync *)

(** [r'] holds everything [r] holds, in the same order, and possibly
    more at the end; the token is the same. *)
Definition extends (r r' : SyncResult) : Prop :=
  (exists cs, Created r' = Created r ++ cs)
  /\ (exists us, Updated r' = Updated r ++ us)
  /\ (exists ds, Deleted r' = Deleted r ++ ds)
  /\ SyncToken r' = SyncToken r.

Lemma extends_refl (r : SyncResult) : extends r r.
Proof. repeat split; try (exists []; rewrite app_nil_r; reflexivity). Qed.

Lemma extends_trans (r1 r2 r3 : SyncResult) :
  extends r1 r2 -> extends r2 r3 -> extends r1 r3.
Proof.
  intros ([c1 H1] & [u1 H2] & [d1 H3] & H4) ([c2 H5] & [u2 H6] & [d2 H7] & H8).
  repeat split.
  - exists (c1 ++ c2). rewrite H5, H1, app_assoc. reflexivity.
  - exists (u1 ++ u2). rewrite H6, H2, app_assoc. reflexivity.
  - exists (d1 ++ d2). rewrite H7, H3, app_assoc. reflexivity.
  - congruence.
Qed.

Lemma extends_AddCreated (r : SyncResult) (obj : CalendarObject) :
  extends r (AddCreated r obj).
Proof.
  repeat split; simpl; try (exists []; rewrite app_nil_r; reflexivity).
  exists [obj]. reflexivity.
Qed.

Lemma extends_AddUpdated (r : SyncResult) (obj : CalendarObject) :
  extends r (AddUpdated r obj).
Proof.
  repeat split; simpl; try (exists []; rewrite app_nil_r; reflexivity).
  exists [obj]. reflexivity.
Qed.

Lemma extends_AddDeleted (r : SyncResult) (path uid : string) :
  extends r (AddDeleted r path uid).
Proof.
  repeat split; simpl; try (exists []; rewrite app_nil_r; reflexivity).
  exists [{| sdi_Path := path; sdi_UID := uid |}]. reflexivity.
Qed.

Lemma syncEntry_extends (calendar : string) (resp : Response) (r : SyncResult) (s : State) :
  extends r (syncEntry calendar resp r s).2
  /\ events (syncEntry calendar resp r s).1 = events s
  /\ heap (syncEntry calendar resp r s).1 = heap s.
Proof.
  unfold syncEntry.
  destruct (resp_Path resp) as [path|err]; [|split; [apply extends_refl|split; reflexivity]].
  destruct (string_eqb path calendar); [split; [apply extends_refl|split; reflexivity]|].
  destruct (entryProps resp) as [[status etag] calendarData].
  destruct (strings_Contains status "404");
    [split; [apply extends_AddDeleted|split; reflexivity]|].
  destruct (strings_Contains status "200" && (0 <? len calendarData)).
  - destruct (ical_Decode calendarData) as [cal|err];
      [|split; [apply extends_refl|split; reflexivity]].
    destruct (time_Now (world s)) as [w now].
    destruct (strings_Contains status "201");
      (split; [first [apply extends_AddCreated|apply extends_AddUpdated]|split; reflexivity]).
  - destruct (strings_Contains status "200");
      [split; [apply extends_AddUpdated|split; reflexivity]
      |split; [apply extends_refl|split; reflexivity]].
Qed.

Lemma syncLoop_extends (calendar : string) (resps : list Response) :
  forall (r : SyncResult) (s : State),
    extends r (syncLoop calendar resps r s).2
    /\ events (syncLoop calendar resps r s).1 = events s
    /\ heap (syncLoop calendar resps r s).1 = heap s.
Proof.
  induction resps as [|resp rest IH]; intros r s; simpl.
  - split; [apply extends_refl|split; reflexivity].
  - destruct (syncEntry_extends calendar resp r s) as (He & Hev & Hh).
    destruct (syncEntry calendar resp r s) as [s' r']. simpl in *.
    destruct (IH r' s') as (He' & Hev' & Hh').
    split; [eapply extends_trans; eassumption|split; congruence].
Qed.

Lemma syncLoop_app (calendar : string) (pre rest : list Response) :
  forall (r : SyncResult) (s : State),
    syncLoop calendar (pre ++ rest) r s
    = syncLoop calendar rest (syncLoop calendar pre r s).2 (syncLoop calendar pre r s).1.
Proof.
  induction pre as [|resp pre IH]; intros r s; simpl.
  - reflexivity.
  - destruct (syncEntry calendar resp r s) as [s' r']. apply IH.
Qed.

Lemma extends_In_Created (r r' : SyncResult) (obj : CalendarObject) :
  extends r r' -> In obj (Created r) -> In obj (Created r').
Proof. intros ([cs ->] & _) Hin. apply in_or_app. left. assumption. Qed.

Lemma extends_In_Updated (r r' : SyncResult) (obj : CalendarObject) :
  extends r r' -> In obj (Updated r) -> In obj (Updated r').
Proof. intros (_ & [us ->] & _) Hin. apply in_or_app. left. assumption. Qed.

Lemma extends_In_Deleted (r r' : SyncResult) (item : SyncDeletedItem) :
  extends r r' -> In item (Deleted r) -> In item (Deleted r').
Proof. intros (_ & _ & [ds ->] & _) Hin. apply in_or_app. left. assumption. Qed.

(** What one turn of the loop adds, case by case. *)
Lemma syncEntry_deleted (calendar : string) (resp : Response) (r : SyncResult) (s : State)
    (path status etag : string) (calendarData : bytes) :
  resp_Path resp = Ok path -> path <> calendar ->
  entryProps resp = (status, etag, calendarData) ->
  strings_Contains status "404" = true ->
  syncEntry calendar resp r s = (s, AddDeleted r path (extractUIDFromPath path)).
Proof.
  intros Hpath Hne Hprops H404. unfold syncEntry, string_eqb.
  rewrite Hpath, bool_decide_eq_false_2, Hprops, H404 by assumption. reflexivity.
Qed.

Lemma syncEntry_with_document (calendar : string) (resp : Response) (r : SyncResult)
    (s : State) (path status etag : string) (calendarData : bytes) (cal : Calendar) :
  resp_Path resp = Ok path -> path <> calendar ->
  entryProps resp = (status, etag, calendarData) ->
  strings_Contains status "404" = false ->
  strings_Contains status "200" = true ->
  0 < len calendarData ->
  ical_Decode calendarData = Ok cal ->
  let obj := {| Path := path; ModTime := (time_Now (world s)).2; ContentLength := 0;
                ETag := etag; Data := Some cal |} in
  (syncEntry calendar resp r s).2
  = if strings_Contains status "201" then AddCreated r obj else AddUpdated r obj.
Proof.
  intros Hpath Hne Hprops H404 H200 Hlen Hcal obj. unfold syncEntry, string_eqb.
  rewrite Hpath, bool_decide_eq_false_2, Hprops, H404, H200 by assumption.
  apply Z.ltb_lt in Hlen. rewrite Hlen, Hcal. simpl.
  subst obj. destruct (time_Now (world s)) as [w now]. simpl.
  destruct (strings_Contains status "201"); reflexivity.
Qed.

Lemma syncEntry_metadata_only (calendar : string) (resp : Response) (r : SyncResult)
    (s : State) (path status etag : string) (calendarData : bytes) :
  resp_Path resp = Ok path -> path <> calendar ->
  entryProps resp = (status, etag, calendarData) ->
  strings_Contains status "404" = false ->
  strings_Contains status "200" = true ->
  len calendarData = 0 ->
  syncEntry calendar resp r s
  = (s, AddUpdated r {| Path := path; ModTime := Time_zero; ContentLength := 0;
                        ETag := etag; Data := None |}).
Proof.
  intros Hpath Hne Hprops H404 H200 Hlen. unfold syncEntry, string_eqb.
  rewrite Hpath, bool_decide_eq_false_2, Hprops, H404, H200, Hlen by assumption.
  reflexivity.
Qed.

(** The entries the loop passes over. *)
Definition skippedEntry (calendar : string) (resp : Response) : Prop :=
  match resp_Path resp with
  | Failed _ => True
  | Ok path =>
      path = calendar
      \/ (let '(status, _, calendarData) := entryProps resp in
          strings_Contains status "404" = false
          /\ (strings_Contains status "200" = false
              \/ (0 < len calendarData
                  /\ exists err, ical_Decode calendarData = Failed err)))
  end.

Lemma syncEntry_skipped (calendar : string) (resp : Response) (r : SyncResult) (s : State) :
  skippedEntry calendar resp -> syncEntry calendar resp r s = (s, r).
Proof.
  unfold skippedEntry, syncEntry, string_eqb.
  destruct (resp_Path resp) as [path|err]; [|reflexivity].
  intros [Heq|Hrest].
  - rewrite bool_decide_eq_true_2 by assumption. reflexivity.
  - destruct (bool_decide (path = calendar)); [reflexivity|].
    destruct (entryProps resp) as [[status etag] calendarData].
    destruct Hrest as [H404 [H200|[Hlen [err Herr]]]].
    + rewrite H404, H200. reflexivity.
    + rewrite H404. apply Z.ltb_lt in Hlen. rewrite Hlen, Herr.
      destruct (strings_Contains status "200"); reflexivity.
Qed.

Lemma syncLoop_skipped (calendar : string) (pre post : list Response) (resp : Response)
    (r : SyncResult) (s : State) :
  skippedEntry calendar resp ->
  syncLoop calendar (pre ++ resp :: post) r s = syncLoop calendar (pre ++ post) r s.
Proof.
  intros Hskip. rewrite !(syncLoop_app calendar pre). simpl.
  rewrite syncEntry_skipped by assumption. reflexivity.
Qed.

Lemma syncLoop_cons_result (calendar : string) (resp : Response) (post : list Response)
    (r : SyncResult) (s : State) :
  extends (syncEntry calendar resp r s).2 (syncLoop calendar (resp :: post) r s).2.
Proof.
  simpl. destruct (syncEntry calendar resp r s) as [s' r']. simpl.
  apply syncLoop_extends.
Qed.

(** Whatever the turn for an entry adds is still there at the end. *)
Lemma syncLoop_keeps (calendar : string) (resps : list Response) (resp : Response)
    (r : SyncResult) (s : State) :
  In resp resps ->
  exists (r0 : SyncResult) (s0 : State),
    extends (syncEntry calendar resp r0 s0).2 (syncLoop calendar resps r s).2.
Proof.
  intros Hin. apply in_split in Hin as (pre & post & ->).
  rewrite syncLoop_app.
  exists (syncLoop calendar pre r s).2, (syncLoop calendar pre r s).1.
  apply syncLoop_cons_result.
Qed.

(** The exchange [SyncCalendar] makes and what it does with the answer. *)
Lemma SyncCalendar_unfold (c : Client) (calendar syncToken : string)
    (opts : option SyncOptions) (s : State) (prop : internalProp) :
  internal_EncodeProp syncPropOperands = Ok prop ->
  SyncCalendar c calendar syncToken opts s
  = let '(w, r) := ic_SyncCollection (world s) calendar syncToken (syncLevelFor opts) prop in
    let s1 := State_emit s w (EvSyncCollection calendar syncToken (syncLevelFor opts)) in
    match r with
    | Failed err =>
        (s1, Returns (Failed (if bool_decide (errors_As_HTTPError err = Some StatusGone)
                              then ErrSyncTokenExpired else err)))
    | Ok ms =>
        ((syncLoop calendar (Responses ms) (NewSyncResult (ms_SyncToken ms)) s1).1,
         Returns (Ok (syncLoop calendar (Responses ms) (NewSyncResult (ms_SyncToken ms)) s1).2))
    end.
Proof.
  intros Hprop. unfold SyncCalendar, bind, lift, SyncCollection. rewrite Hprop.
  destruct (ic_SyncCollection (world s) calendar syncToken (syncLevelFor opts) prop)
    as [w [ms|err]].
  - destruct (syncLoop calendar (Responses ms) (NewSyncResult (ms_SyncToken ms)) _).
    reflexivity.
  - destruct (bool_decide _); reflexivity.
Qed.

(** C3 (as amended).  After a successful exchange, for every returned
    entry that has a path other than the collection root, with the status
    text, ETag and payload the client works out for it: a status text
    containing 404 yields a Deleted item whose UID is derived from the
    path; otherwise a status text containing 200 with a non-empty payload
    that decodes yields an object with that document, in Created when the
    text contains 201 and in Updated when not; otherwise a status text
    containing 200 with an empty payload yields an Updated object with
    the ETag and no document.  An entry that is passed over (no path, the
    root, a payload that fails to decode, a status text with neither 404
    nor 200) leaves the result as if it had not been sent. *)
Theorem SyncCalendar_entry_classification
    (c : Client) (calendar syncToken : string) (opts : option SyncOptions) (s : State)
    (prop : internalProp) (w : World) (ms : MultiStatus) :
  internal_EncodeProp syncPropOperands = Ok prop ->
  ic_SyncCollection (world s) calendar syncToken (syncLevelFor opts) prop = (w, Ok ms) ->
  exists (s' : State) (result : SyncResult),
    SyncCalendar c calendar syncToken opts s = (s', Returns (Ok result))
    /\ (forall (resp : Response) (path status etag : string) (calendarData : bytes),
           In resp (Responses ms) ->
           resp_Path resp = Ok path -> path <> calendar ->
           entryProps resp = (status, etag, calendarData) ->
           (strings_Contains status "404" = true ->
            In {| sdi_Path := path; sdi_UID := extractUIDFromPath path |} (Deleted result))
           /\ (strings_Contains status "404" = false ->
               strings_Contains status "200" = true ->
               0 < len calendarData ->
               forall cal : Calendar, ical_Decode calendarData = Ok cal ->
               exists now : Time,
                 In {| Path := path; ModTime := now; ContentLength := 0;
                       ETag := etag; Data := Some cal |}
                    (if strings_Contains status "201" then Created result
                     else Updated result))
           /\ (strings_Contains status "404" = false ->
               strings_Contains status "200" = true ->
               len calendarData = 0 ->
               In {| Path := path; ModTime := Time_zero; ContentLength := 0;
                     ETag := etag; Data := None |} (Updated result)))
    /\ (forall (pre post : list Response) (resp : Response),
           Responses ms = pre ++ resp :: post ->
           skippedEntry calendar resp ->
           result
           = (syncLoop calendar (pre ++ post) (NewSyncResult (ms_SyncToken ms))
                (State_emit s w (EvSyncCollection calendar syncToken (syncLevelFor opts)))).2).
Proof.
  intros Hprop Hsync.
  rewrite (SyncCalendar_unfold c calendar syncToken opts s prop Hprop), Hsync.
  eexists _, _. split; [reflexivity|]. split.
  - intros resp path status etag calendarData Hin Hpath Hne Hprops.
    set (s1 := State_emit s w _).
    destruct (syncLoop_keeps calendar (Responses ms) resp
                (NewSyncResult (ms_SyncToken ms)) s1 Hin) as (r0 & s0 & Hext).
    split; [|split].
    + intros H404.
      rewrite (syncEntry_deleted calendar resp r0 s0 path status etag calendarData)
        in Hext by assumption.
      eapply extends_In_Deleted; [exact Hext|]. simpl.
      apply in_or_app. right. left. reflexivity.
    + intros H404 H200 Hlen cal Hcal.
      rewrite (syncEntry_with_document calendar resp r0 s0 path status etag calendarData cal)
        in Hext by assumption.
      exists (time_Now (world s0)).2.
      destruct (strings_Contains status "201").
      * eapply extends_In_Created; [exact Hext|]. simpl.
        apply in_or_app. right. left. reflexivity.
      * eapply extends_In_Updated; [exact Hext|]. simpl.
        apply in_or_app. right. left. reflexivity.
    + intros H404 H200 Hlen.
      rewrite (syncEntry_metadata_only calendar resp r0 s0 path status etag calendarData)
        in Hext by assumption.
      eapply extends_In_Updated; [exact Hext|]. simpl.
      apply in_or_app. right. left. reflexivity.
  - intros pre post resp Hresps Hskip. rewrite Hresps.
    rewrite syncLoop_skipped by assumption. reflexivity.
Qed.

(** What a returned object shows of its entry: path, ETag and document.
    (The modification time of an object with a document is the reading
    of the clock at that turn of the loop.) *)
Definition objectView (obj : CalendarObject) : string * string * option Calendar :=
  (Path obj, ETag obj, Data obj).

(** The entries of a sync answer by the list they end up in. *)
Definition entryCreated (calendar : string) (resp : Response)
    : list (string * string * option Calendar) :=
  match resp_Path resp with
  | Failed _ => []
  | Ok path =>
      if string_eqb path calendar then []
      else
        let '(status, etag, calendarData) := entryProps resp in
        if strings_Contains status "404" then []
        else if strings_Contains status "200" && (0 <? len calendarData) then
          match ical_Decode calendarData with
          | Failed _ => []
          | Ok cal => if strings_Contains status "201" then [(path, etag, Some cal)] else []
          end
        else []
  end.

Definition entryUpdated (calendar : string) (resp : Response)
    : list (string * string * option Calendar) :=
  match resp_Path resp with
  | Failed _ => []
  | Ok path =>
      if string_eqb path calendar then []
      else
        let '(status, etag, calendarData) := entryProps resp in
        if strings_Contains status "404" then []
        else if strings_Contains status "200" && (0 <? len calendarData) then
          match ical_Decode calendarData with
          | Failed _ => []
          | Ok cal => if strings_Contains status "201" then [] else [(path, etag, Some cal)]
          end
        else if strings_Contains status "200" then [(path, etag, None)]
        else []
  end.

Definition entryDeleted (calendar : string) (resp : Response) : list SyncDeletedItem :=
  match resp_Path resp with
  | Failed _ => []
  | Ok path =>
      if string_eqb path calendar then []
      else if strings_Contains (entryProps resp).1.1 "404"
           then [{| sdi_Path := path; sdi_UID := extractUIDFromPath path |}]
           else []
  end.

Lemma syncEntry_lists (calendar : string) (resp : Response) (r : SyncResult) (s : State) :
  map objectView (Created (syncEntry calendar resp r s).2)
  = map objectView (Created r) ++ entryCreated calendar resp
  /\ map objectView (Updated (syncEntry calendar resp r s).2)
     = map objectView (Updated r) ++ entryUpdated calendar resp
  /\ Deleted (syncEntry calendar resp r s).2 = Deleted r ++ entryDeleted calendar resp.
Proof.
  unfold syncEntry, entryCreated, entryUpdated, entryDeleted.
  destruct (resp_Path resp) as [path|err]; [|simpl; rewrite !app_nil_r; repeat split].
  destruct (string_eqb path calendar); [simpl; rewrite !app_nil_r; repeat split|].
  destruct (entryProps resp) as [[status etag] calendarData]. cbn [fst snd].
  destruct (strings_Contains status "404");
    [simpl; rewrite !app_nil_r; repeat split|].
  destruct (strings_Contains status "200"); cbn [andb];
    [|simpl; rewrite !app_nil_r; repeat split].
  destruct (0 <? len calendarData).
  - destruct (ical_Decode calendarData) as [cal|err];
      [|simpl; rewrite !app_nil_r; repeat split].
    destruct (time_Now (world s)) as [w now].
    destruct (strings_Contains status "201"); simpl;
      rewrite ?map_app, ?app_nil_r; repeat split.
  - simpl. rewrite ?map_app, ?app_nil_r. repeat split.
Qed.

Lemma syncLoop_lists (calendar : string) (resps : list Response) :
  forall (r : SyncResult) (s : State),
    map objectView (Created (syncLoop calendar resps r s).2)
    = map objectView (Created r) ++ flat_map (entryCreated calendar) resps
    /\ map objectView (Updated (syncLoop calendar resps r s).2)
       = map objectView (Updated r) ++ flat_map (entryUpdated calendar) resps
    /\ Deleted (syncLoop calendar resps r s).2
       = Deleted r ++ flat_map (entryDeleted calendar) resps.
Proof.
  induction resps as [|resp rest IH]; intros r s.
  - simpl. rewrite !app_nil_r. repeat split.
  - cbn [syncLoop flat_map].
    destruct (syncEntry_lists calendar resp r s) as (Hc & Hu & Hd).
    destruct (syncEntry calendar resp r s) as [s' r']. cbn [snd] in Hc, Hu, Hd.
    destruct (IH r' s') as (Hc' & Hu' & Hd').
    rewrite Hc', Hu', Hd', Hc, Hu, Hd, <- !app_assoc. repeat split.
Qed.

(** C7.  [SyncCalendar] makes one sync-collection exchange, with the
    caller's token.  If the exchange fails with an HTTP 410 error the
    call returns [ErrSyncTokenExpired] and no result, and nothing further
    is sent; if the exchange succeeds the call returns a result that
    carries the token of the answer and is populated from its entries:
    the created, updated and deleted items are those the entries of the
    answer stand for, entry by entry and in the order of the answer. *)
Theorem SyncCalendar_terminal_outcomes
    (c : Client) (calendar syncToken : string) (opts : option SyncOptions) (s : State)
    (prop : internalProp) (w : World) (answer : result MultiStatus) :
  internal_EncodeProp syncPropOperands = Ok prop ->
  ic_SyncCollection (world s) calendar syncToken (syncLevelFor opts) prop = (w, answer) ->
  let s1 := State_emit s w (EvSyncCollection calendar syncToken (syncLevelFor opts)) in
  (forall err : error,
      answer = Failed err ->
      errors_As_HTTPError err = Some StatusGone ->
      SyncCalendar c calendar syncToken opts s = (s1, Returns (Failed ErrSyncTokenExpired)))
  /\ (forall ms : MultiStatus,
         answer = Ok ms ->
         exists (s2 : State) (result : SyncResult),
           SyncCalendar c calendar syncToken opts s = (s2, Returns (Ok result))
           /\ SyncToken result = ms_SyncToken ms
           /\ events s2 = events s1
           /\ map objectView (Created result)
              = flat_map (entryCreated calendar) (Responses ms)
           /\ map objectView (Updated result)
              = flat_map (entryUpdated calendar) (Responses ms)
           /\ Deleted result = flat_map (entryDeleted calendar) (Responses ms))
  /\ events (SyncCalendar c calendar syncToken opts s).1
     = events s ++ [EvSyncCollection calendar syncToken (syncLevelFor opts)].
Proof.
  intros Hprop Hsync s1.
  rewrite (SyncCalendar_unfold c calendar syncToken opts s prop Hprop), Hsync.
  fold s1. split; [|split].
  - intros err -> Hgone. rewrite bool_decide_eq_true_2 by assumption. reflexivity.
  - intros ms ->. eexists _, _. split; [reflexivity|].
    destruct (syncLoop_extends calendar (Responses ms) (NewSyncResult (ms_SyncToken ms)) s1)
      as ((_ & _ & _ & Htoken) & Hev & _).
    destruct (syncLoop_lists calendar (Responses ms) (NewSyncResult (ms_SyncToken ms)) s1)
      as (Hcreated & Hupdated & Hdeleted).
    split; [exact Htoken|]. split; [exact Hev|].
    split; [exact Hcreated|]. split; [exact Hupdated|exact Hdeleted].
  - destruct answer as [ms|err]; simpl.
    + destruct (syncLoop_extends calendar (Responses ms) (NewSyncResult (ms_SyncToken ms)) s1)
        as (_ & Hev & _).
      rewrite Hev. reflexivity.
    + reflexivity.
Qed.

(** ** ETags *)

Lemma populateCalendarObject_ETag (co co' : CalendarObject) (h : Header) :
  populateCalendarObject co h = Ok co' ->
  ETag co'
  = (let etag := Header_Get h "ETag" in
     if string_eqb etag "" then ETag co
     else match strconv_Unquote etag with
          | Ok unquoted => unquoted
          | Failed _ => etag
          end).
Proof.
  unfold populateCalendarObject. cbv zeta.
  destruct (negb (string_eqb (Header_Get h "Location") "")) eqn:Hloc.
  2: clear Hloc.
  1: destruct (url_Parse_Path (Header_Get h "Location")) as [p|err]; [|discriminate].
  all: destruct (string_eqb (Header_Get h "ETag") "") eqn:Hetag; simpl.
  all: try destruct (strconv_Unquote (Header_Get h "ETag")) as [unquoted|err].
  all: destruct (negb (string_eqb (Header_Get h "Content-Length") "")).
  all: try (destruct (strconv_ParseInt (Header_Get h "Content-Length")) as [n|err'];
            [|discriminate]).
  all: destruct (negb (string_eqb (Header_Get h "Last-Modified") "")).
  all: try (destruct (http_ParseTime (Header_Get h "Last-Modified")) as [t|err''];
            [|discriminate]).
  all: intros [= <-]; reflexivity.
Qed.

Lemma entryObject_ETag (resp : Response) (obj : CalendarObject) :
  In obj (entryObject resp) ->
  resp_Path resp = Ok (Path obj)
  /\ decodePropOr "" (resp_getETag resp) = Ok (ETag obj).
Proof.
  unfold entryObject.
  destruct (resp_Path resp) as [path|err]; [|intros []].
  destruct (decodePropOr "" (resp_calendarData resp)) as [calData|err]; [|intros []].
  destruct (len calData =? 0); [intros []|].
  destruct (decodePropOr Time_zero (resp_getLastModified resp)); [|intros []].
  destruct (decodePropOr "" (resp_getETag resp)) as [etag|err]; [|intros []].
  destruct (decodePropOr 0 (resp_getContentLength resp)); [|intros []].
  destruct (ical_Decode calData); [|intros []].
  intros [<-|[]]. split; reflexivity.
Qed.

Lemma decodeLoop_objects (resps : list Response) :
  forall (addrs : list CalendarObject) (errs : list error) (obj : CalendarObject),
    In obj (decodeLoop resps addrs errs).1 ->
    In obj addrs \/ exists resp, In resp resps /\ In obj (entryObject resp).
Proof.
  induction resps as [|resp rest IH]; intros addrs errs obj.
  - simpl. intros Hin. left. assumption.
  - rewrite decodeLoop_cons. destruct (entryAbort resp); [intros []|].
    intros Hin. apply IH in Hin as [Hin|(resp' & Hin' & Hobj)].
    + apply in_app_or in Hin as [Hin|Hin]; [left; assumption|].
      right. exists resp. split; [left; reflexivity|assumption].
    + right. exists resp'. split; [right; assumption|assumption].
Qed.

(** The ETag the propstat loop ends with is the one it started with or
    the decoded value of some propstat. *)
Lemma propstatLoop_etag (resp : Response) (propstats : list PropStat) :
  forall (status etag : string) (calendarData : bytes),
    (propstatLoop resp propstats status etag calendarData).1.2 = etag
    \/ exists propstat,
         In propstat propstats
         /\ ps_getETag propstat
            = Ok (propstatLoop resp propstats status etag calendarData).1.2.
Proof.
  induction propstats as [|propstat rest IH]; intros status etag calendarData; simpl.
  - left. reflexivity.
  - destruct (resp_Err resp).
    + destruct (IH status etag calendarData) as [Heq|(ps & Hin & Hps)];
        [left; assumption|right; exists ps; split; [right; assumption|assumption]].
    + match goal with
      | |- context [propstatLoop resp rest ?st ?e ?d] =>
          destruct (IH st e d) as [Heq|(ps & Hin & Hps)]
      end.
      * rewrite Heq. destruct (ps_getETag propstat) as [e|err] eqn:Hps.
        -- right. exists propstat. split; [left; reflexivity|assumption].
        -- left. reflexivity.
      * right. exists ps. split; [right; assumption|assumption].
Qed.

Lemma syncEntry_objects (calendar : string) (resp : Response) (r : SyncResult) (s : State)
    (obj : CalendarObject) :
  In obj (Created (syncEntry calendar resp r s).2 ++ Updated (syncEntry calendar resp r s).2) ->
  In obj (Created r ++ Updated r)
  \/ (resp_Path resp = Ok (Path obj) /\ ETag obj = (entryProps resp).1.2).
Proof.
  unfold syncEntry.
  destruct (resp_Path resp) as [path|err]; [|intros Hin; left; assumption].
  destruct (string_eqb path calendar); [intros Hin; left; assumption|].
  destruct (entryProps resp) as [[status etag] calendarData]. simpl.
  destruct (strings_Contains status "404"); [intros Hin; left; assumption|].
  destruct (strings_Contains status "200" && (0 <? len calendarData)).
  - destruct (ical_Decode calendarData) as [cal|err]; [|intros Hin; left; assumption].
    destruct (time_Now (world s)) as [w now].
    destruct (strings_Contains status "201"); simpl; intros Hin.
    + apply in_app_or in Hin as [Hin|Hin].
      * apply in_app_or in Hin as [Hin|[<-|[]]].
        -- left. apply in_or_app. left. assumption.
        -- right. split; reflexivity.
      * left. apply in_or_app. right. assumption.
    + apply in_app_or in Hin as [Hin|Hin].
      * left. apply in_or_app. left. assumption.
      * apply in_app_or in Hin as [Hin|[<-|[]]].
        -- left. apply in_or_app. right. assumption.
        -- right. split; reflexivity.
  - destruct (strings_Contains status "200"); simpl; intros Hin; [|left; assumption].
    apply in_app_or in Hin as [Hin|Hin].
    + left. apply in_or_app. left. assumption.
    + apply in_app_or in Hin as [Hin|[<-|[]]].
      * left. apply in_or_app. right. assumption.
      * right. split; reflexivity.
Qed.

Lemma syncLoop_objects (calendar : string) (resps : list Response) :
  forall (r : SyncResult) (s : State) (obj : CalendarObject),
    In obj (Created (syncLoop calendar resps r s).2 ++ Updated (syncLoop calendar resps r s).2) ->
    In obj (Created r ++ Updated r)
    \/ exists resp,
         In resp resps /\ resp_Path resp = Ok (Path obj)
         /\ ETag obj = (entryProps resp).1.2.
Proof.
  induction resps as [|resp rest IH]; intros r s obj; simpl.
  - intros Hin. left. assumption.
  - pose proof (syncEntry_objects calendar resp r s obj) as Hentry.
    destruct (syncEntry calendar resp r s) as [s' r']. simpl in Hentry.
    intros Hin. apply IH in Hin as [Hin|(resp' & Hin' & Hobj)].
    + apply Hentry in Hin as [Hin|Hobj]; [left; assumption|].
      right. exists resp. split; [left; reflexivity|assumption].
    + right. exists resp'. split; [right; assumption|assumption].
Qed.

(** C5 (as amended).  An object filled from response headers stores the
    ETag header as [strconv.Unquote] returns it when the header is a
    quoted literal, and verbatim when it is not (an absent header leaves
    the field alone).  An object built from a multistatus entry, by the
    decoder or by the sync loop, stores the decoded getetag property as
    it is. *)
Theorem ETag_as_stored :
  (forall (co co' : CalendarObject) (h : Header),
      populateCalendarObject co h = Ok co' ->
      ETag co'
      = (let etag := Header_Get h "ETag" in
         if string_eqb etag "" then ETag co
         else match strconv_Unquote etag with
              | Ok unquoted => unquoted
              | Failed _ => etag
              end))
  /\ (forall (ms : MultiStatus) (obj : CalendarObject),
         In obj (decodeCalendarObjectList ms).1 ->
         exists resp,
           In resp (Responses ms) /\ resp_Path resp = Ok (Path obj)
           /\ decodePropOr "" (resp_getETag resp) = Ok (ETag obj))
  /\ (forall (calendar token : string) (resps : list Response) (s : State)
             (obj : CalendarObject),
         let result := (syncLoop calendar resps (NewSyncResult token) s).2 in
         In obj (Created result ++ Updated result) ->
         exists resp,
           In resp resps /\ resp_Path resp = Ok (Path obj)
           /\ (ETag obj = ""
               \/ exists propstat,
                    In propstat (resp_PropStats resp)
                    /\ ps_getETag propstat = Ok (ETag obj))).
Proof.
  split; [|split].
  - intros co co' h. apply populateCalendarObject_ETag.
  - intros ms obj Hin. unfold decodeCalendarObjectList in Hin.
    apply decodeLoop_objects in Hin as [[]|(resp & Hin & Hobj)].
    exists resp. split; [assumption|]. apply entryObject_ETag. assumption.
  - intros calendar token resps s obj result Hin.
    apply syncLoop_objects in Hin as [[]|(resp & Hin & Hpath & Hetag)].
    exists resp. split; [assumption|]. split; [assumption|].
    rewrite Hetag. unfold entryProps. apply propstatLoop_etag.
Qed.

(** ** Conditional writes and conflict resolution *)

(** A run only ever adds to the record of events, and what it adds
    satisfies [P]. *)
Definition emits {A : Type} (P : Event -> Prop) (m : State -> State * A) : Prop :=
  forall s, exists l, events (m s).1 = events s ++ l /\ Forall P l.

Lemma emits_nothing {A : Type} (P : Event -> Prop) (m : State -> State * A) :
  (forall s, events (m s).1 = events s) -> emits P m.
Proof.
  intros Hsame s. exists []. rewrite app_nil_r. split; [apply Hsame|constructor].
Qed.

Lemma emits_lift {A : Type} (P : Event -> Prop) (r : result A) : emits P (lift r).
Proof. apply emits_nothing. reflexivity. Qed.

Lemma emits_fail {A : Type} (P : Event -> Prop) (e : error) : emits P (@fail A e).
Proof. apply emits_nothing. reflexivity. Qed.

Lemma emits_ret {A : Type} (P : Event -> Prop) (a : A) : emits P (ret a).
Proof. apply emits_nothing. reflexivity. Qed.

Lemma emits_bind {A B : Type} (P : Event -> Prop) (m : M A) (k : A -> M B) :
  emits P m -> (forall a, emits P (k a)) -> emits P (bind m k).
Proof.
  intros Hm Hk s. unfold bind. destruct (Hm s) as (l & Hl & HP).
  destruct (m s) as [s' [[a|e]|why|]]; simpl in *; try (exists l; split; assumption).
  destruct (Hk a s') as (l' & Hl' & HP'). exists (l ++ l'). split.
  - rewrite Hl', Hl, app_assoc. reflexivity.
  - apply Forall_app. split; assumption.
Qed.

Lemma emits_Do (P : Event -> Prop) (req : Request) : P (EvDo req) -> emits P (Do req).
Proof.
  intros HP s. unfold Do. destruct (ic_Do (world s) req) as [w r]. exists [EvDo req].
  split; [reflexivity|]. constructor; [assumption|constructor].
Qed.

Lemma emits_Now (P : Event -> Prop) : emits P Now.
Proof.
  apply emits_nothing. intros s. unfold Now. destruct (time_Now (world s)). reflexivity.
Qed.

Lemma emits_callResolve (P : Event -> Prop) (r : ResolverValue)
    (local remote : option CalendarObject) :
  P (EvResolve local remote) -> emits P (callResolve r local remote).
Proof.
  intros HP s. exists [EvResolve local remote].
  split; [reflexivity|]. constructor; [assumption|constructor].
Qed.

Lemma emits_GetCalendarObject (P : Event -> Prop) (c : Client) (path : string) :
  (forall req, P (EvDo req)) -> emits P (GetCalendarObject c path).
Proof.
  intros HP. unfold GetCalendarObject.
  apply emits_bind; [apply emits_lift|intros req].
  apply emits_bind; [apply emits_Do, HP|intros resp].
  apply emits_bind; [apply emits_lift|intros mediaType].
  destruct (negb _); [apply emits_fail|].
  apply emits_bind; [apply emits_lift|intros cal]. apply emits_lift.
Qed.

(** The object [handleConflict] hands to the resolver as the local
    side, built when the clock reads [now]. *)
Definition localObject (path : string) (local : Calendar) (now : Time) : CalendarObject :=
  {| Path := path; ModTime := now; ContentLength := 0; ETag := ""; Data := Some local |}.

(** An event of a write of [local] to [path]: any request, or a call of
    the resolver whose local side is the object built from [path] and
    [local] at some reading of the clock. *)
Definition writeEvent (path : string) (local : Calendar) (e : Event) : Prop :=
  match e with
  | EvResolve l r =>
      exists (now : Time) (remote : CalendarObject),
        l = Some (localObject path local now) /\ r = Some remote
  | _ => True
  end.

Lemma emits_handleConflict
    (put : string -> Calendar -> option PutOptions -> M CalendarObject)
    (c : Client) (path : string) (local : Calendar) :
  (forall o, emits (writeEvent path local) (put path local o)) ->
  emits (writeEvent path local) (handleConflict put c path local).
Proof.
  intros Hput s. unfold handleConflict.
  destruct (emits_GetCalendarObject (writeEvent path local) c path (fun _ => I) s)
    as (l & Hl & HP).
  destruct (GetCalendarObject c path s) as [s1 [[remote|err]|why|]]; simpl in *;
    try (exists l; split; assumption).
  match goal with
  | |- context [bind Now ?k s1] =>
      assert (Hk : emits (writeEvent path local) (bind Now k))
  end.
  { apply emits_bind; [apply emits_Now|intros now].
    destruct (conflictResolver c) as [resolver|].
    - apply emits_bind; [|intros decision].
      + apply emits_callResolve. exists now, remote. split; reflexivity.
      + destruct (decision =? UseLocal); [apply Hput|].
        destruct (decision =? UseRemote); [apply emits_ret|].
        destruct (decision =? Skip); [apply emits_fail|].
        destruct (decision =? Merge); apply emits_fail.
    - apply emits_nothing. reflexivity. }
  destruct (Hk s1) as (l' & Hl' & HP'). exists (l ++ l'). split.
  - rewrite Hl', Hl, app_assoc. reflexivity.
  - apply Forall_app. split; assumption.
Qed.

Lemma emits_PutCalendarObject (fuel : nat) (c : Client) (path : string) (cal : Calendar) :
  forall opts : option PutOptions,
    emits (writeEvent path cal) (PutCalendarObject fuel c path cal opts).
Proof.
  induction fuel as [|fuel IH]; intros opts.
  - apply emits_nothing. reflexivity.
  - simpl.
    apply emits_bind; [apply emits_lift|intros buf].
    apply emits_bind; [apply emits_lift|intros req].
    apply emits_bind; [apply emits_Do; exact I|intros resp].
    destruct (StatusCode resp =? StatusPreconditionFailed).
    + destruct (conflictResolver c); [|apply emits_fail].
      apply emits_handleConflict. exact IH.
    + apply emits_lift.
Qed.

(** The first thing a write does on the wire, once the document is
    encoded and the request built, is to send that request. *)
Lemma PutCalendarObject_first_event (fuel : nat) (c : Client) (path : string)
    (cal : Calendar) (opts : option PutOptions) (s : State) (buf : bytes) (req0 : Request) :
  ical_Encode cal = Ok buf ->
  ic_NewRequest "PUT" path (Some buf) = Ok req0 ->
  exists rest,
    events (PutCalendarObject (S fuel) c path cal opts s).1
    = events s ++ EvDo (putRequest req0 opts) :: rest.
Proof.
  intros Hbuf Hreq. simpl. unfold bind at 1, lift at 1. rewrite Hbuf.
  unfold bind at 1, lift at 1. rewrite Hreq.
  match goal with
  | |- context [bind (Do ?r) ?k s] =>
      assert (Hk : forall resp, emits (writeEvent path cal) (k resp))
  end.
  { intros resp. destruct (StatusCode resp =? StatusPreconditionFailed).
    - destruct (conflictResolver c); [|apply emits_fail].
      apply emits_handleConflict. apply emits_PutCalendarObject.
    - apply emits_lift. }
  unfold bind, Do.
  destruct (ic_Do (world s) (putRequest req0 opts)) as [w [resp|err]].
  - destruct (Hk resp (State_emit s w (EvDo (putRequest req0 opts)))) as (l & Hl & _).
    exists l. rewrite Hl. simpl. rewrite <- app_assoc. reflexivity.
  - exists []. reflexivity.
Qed.

(** The state in which the resolver has answered: the clock has been
    read once and the call is on record. *)
Definition resolvedState (s : State) (path : string) (local : Calendar)
    (remote : CalendarObject) : State :=
  {| world := (time_Now (world s)).1;
     heap := heap s;
     events := events s
               ++ [EvResolve (Some (localObject path local (time_Now (world s)).2))
                     (Some remote)] |}.

(** A write that meets a 412 hands over to [handleConflict] when a
    resolver is configured and fails otherwise. *)
Lemma PutCalendarObject_412 (fuel : nat) (c : Client) (path : string) (cal : Calendar)
    (opts : option PutOptions) (s : State) (buf : bytes) (req0 : Request)
    (w1 : World) (resp : HTTPResponse) :
  ical_Encode cal = Ok buf ->
  ic_NewRequest "PUT" path (Some buf) = Ok req0 ->
  ic_Do (world s) (putRequest req0 opts) = (w1, Ok resp) ->
  StatusCode resp = StatusPreconditionFailed ->
  PutCalendarObject (S fuel) c path cal opts s
  = match conflictResolver c with
    | Some _ =>
        handleConflict (PutCalendarObject fuel c) c path cal
          (State_emit s w1 (EvDo (putRequest req0 opts)))
    | None =>
        (State_emit s w1 (EvDo (putRequest req0 opts)), Returns (Failed ErrPreconditionFailed))
    end.
Proof.
  intros Hbuf Hreq Hdo Hstatus. simpl.
  unfold bind at 1, lift at 1. rewrite Hbuf.
  unfold bind at 1, lift at 1. rewrite Hreq.
  unfold bind at 1, Do at 1. rewrite Hdo, Hstatus. simpl.
  destruct (conflictResolver c); reflexivity.
Qed.

(** Once the remote object is fetched, [handleConflict] asks the
    resolver and carries the answer out. *)
Lemma handleConflict_resolved
    (put : string -> Calendar -> option PutOptions -> M CalendarObject)
    (c : Client) (path : string) (local : Calendar) (s s2 : State)
    (resolver : ResolverValue) (remote : CalendarObject) :
  conflictResolver c = Some resolver ->
  GetCalendarObject c path s = (s2, Returns (Ok remote)) ->
  handleConflict put c path local s
  = let decision :=
      resolver (Some (localObject path local (time_Now (world s2)).2)) (Some remote) in
    let s3 := resolvedState s2 path local remote in
    if decision =? UseLocal then put path local None s3
    else if decision =? UseRemote then (s3, Returns (Ok remote))
    else if decision =? Skip then (s3, Returns (Failed ErrPreconditionFailed))
    else if decision =? Merge then (s3, Returns (Failed ErrMergeNotSupported))
    else (s3, Returns (Failed (fmtError "caldav: unknown conflict decision: %v"
                                 [ConflictDecision_String decision]))).
Proof.
  intros Hres Hget. unfold handleConflict. rewrite Hget, Hres.
  unfold bind, Now, callResolve, resolvedState, localObject, State_emit.
  destruct (time_Now (world s2)) as [w now]. simpl.
  destruct (_ =? UseLocal); [reflexivity|].
  destruct (_ =? UseRemote); [reflexivity|].
  destruct (_ =? Skip); [reflexivity|].
  destruct (_ =? Merge); reflexivity.
Qed.

(** When the remote object cannot be fetched, the resolver is not asked
    and the error of the fetch is returned wrapped. *)
Lemma handleConflict_fetch_failed
    (put : string -> Calendar -> option PutOptions -> M CalendarObject)
    (c : Client) (path : string) (local : Calendar) (s s1 : State) (err : error) :
  GetCalendarObject c path s = (s1, Returns (Failed err)) ->
  handleConflict put c path local s
  = (s1, Returns (Failed (wrapError "failed to get remote version: %w" err))).
Proof. intros Hget. unfold handleConflict. rewrite Hget. reflexivity. Qed.

Lemma putRequest_nil_no_If_Match (req0 : Request) :
  req_Header req0 !! "If-Match" = None ->
  req_Header (putRequest req0 None) !! "If-Match" = None.
Proof.
  intros Hfresh. unfold putRequest. simpl. unfold Header_Set.
  rewrite lookup_insert_ne by discriminate. exact Hfresh.
Qed.

(** A read that returns an object has sent one request and nothing
    else: the GET of the path, with [Accept: text/calendar], which the
    server answered. *)
Lemma GetCalendarObject_request (c : Client) (path : string) (s s' : State)
    (co : CalendarObject) :
  GetCalendarObject c path s = (s', Returns (Ok co)) ->
  exists (getReq : Request) (resp : HTTPResponse),
    ic_NewRequest "GET" path None = Ok getReq
    /\ ic_Do (world s) (Request_setHeader getReq "Accept" ical_MIMEType)
       = (world s', Ok resp)
    /\ events s' = events s ++ [EvDo (Request_setHeader getReq "Accept" ical_MIMEType)]
    /\ heap s' = heap s.
Proof.
  unfold GetCalendarObject, bind, lift, Do.
  destruct (ic_NewRequest "GET" path None) as [req|err]; [|discriminate].
  destruct (ic_Do (world s) (Request_setHeader req "Accept" ical_MIMEType))
    as [w [resp|err]] eqn:Hdo; [|discriminate].
  destruct (mime_ParseMediaType _) as [mediaType|err]; [|discriminate].
  destruct (negb _); [discriminate|].
  destruct (ical_Decode (hr_Body resp)) as [cal|err]; [|discriminate].
  destruct (populateCalendarObject _ (hr_Header resp)) as [co'|err]; [|discriminate].
  intros [= <- <-]. exists req, resp.
  split; [reflexivity|]. split; [simpl; first [exact Hdo|reflexivity]|].
  split; reflexivity.
Qed.

(** C2.  A write that is answered with 412 fails with
    [ErrPreconditionFailed] when no resolver is configured.  With a
    resolver the object is fetched again: one GET of the same path goes
    out right after the refused write, and when it fails the call fails
    with its error, wrapped.  Once the remote object is fetched, the
    resolver's decision is carried out: [UseLocal] runs the write again
    with nil options, and the request that write sends first carries no
    If-Match header; [UseRemote] returns the fetched object, and the
    whole call has sent the refused write and the GET and nothing more;
    [Skip] fails with [ErrPreconditionFailed]; [Merge] fails with
    [ErrMergeNotSupported]. *)
Theorem PutCalendarObject_precondition_failed
    (fuel : nat) (c : Client) (path : string) (cal : Calendar)
    (opts : option PutOptions) (s : State) (buf : bytes) (req0 : Request)
    (w1 : World) (resp : HTTPResponse) :
  ical_Encode cal = Ok buf ->
  ic_NewRequest "PUT" path (Some buf) = Ok req0 ->
  req_Header req0 !! "If-Match" = None ->
  ic_Do (world s) (putRequest req0 opts) = (w1, Ok resp) ->
  StatusCode resp = StatusPreconditionFailed ->
  let s1 := State_emit s w1 (EvDo (putRequest req0 opts)) in
  let run := PutCalendarObject (S (S fuel)) c path cal opts s in
  (conflictResolver c = None -> run = (s1, Returns (Failed ErrPreconditionFailed)))
  /\ (forall (resolver : ResolverValue) (s2 : State) (remote : CalendarObject),
         conflictResolver c = Some resolver ->
         GetCalendarObject c path s1 = (s2, Returns (Ok remote)) ->
         let decision :=
           resolver (Some (localObject path cal (time_Now (world s2)).2)) (Some remote) in
         let s3 := resolvedState s2 path cal remote in
         (exists (getReq : Request) (fetched : HTTPResponse),
             ic_NewRequest "GET" path None = Ok getReq
             /\ ic_Do w1 (Request_setHeader getReq "Accept" ical_MIMEType)
                = (world s2, Ok fetched)
             /\ events s2
                = events s ++ [EvDo (putRequest req0 opts);
                               EvDo (Request_setHeader getReq "Accept" ical_MIMEType)])
         /\ (decision = UseLocal ->
             run = PutCalendarObject (S fuel) c path cal None s3
             /\ req_Header (putRequest req0 None) !! "If-Match" = None
             /\ exists rest,
                  events run.1 = events s3 ++ EvDo (putRequest req0 None) :: rest)
         /\ (decision = UseRemote ->
             run = (s3, Returns (Ok remote))
             /\ events run.1
                = events s2
                  ++ [EvResolve (Some (localObject path cal (time_Now (world s2)).2))
                        (Some remote)]
             /\ exists getReq : Request,
                  ic_NewRequest "GET" path None = Ok getReq
                  /\ events run.1
                     = events s
                       ++ [EvDo (putRequest req0 opts);
                           EvDo (Request_setHeader getReq "Accept" ical_MIMEType);
                           EvResolve (Some (localObject path cal (time_Now (world s2)).2))
                             (Some remote)])
         /\ (decision = Skip -> run = (s3, Returns (Failed ErrPreconditionFailed)))
         /\ (decision = Merge -> run = (s3, Returns (Failed ErrMergeNotSupported))))
  /\ (forall (resolver : ResolverValue) (s2 : State) (err : error),
         conflictResolver c = Some resolver ->
         GetCalendarObject c path s1 = (s2, Returns (Failed err)) ->
         run = (s2, Returns (Failed (wrapError "failed to get remote version: %w" err)))).
Proof.
  intros Hbuf Hreq Hfresh Hdo Hstatus s1 run.
  assert (Hrun : run = match conflictResolver c with
                       | Some _ => handleConflict (PutCalendarObject (S fuel) c) c path cal s1
                       | None => (s1, Returns (Failed ErrPreconditionFailed))
                       end).
  { unfold run, s1. eapply PutCalendarObject_412; eassumption. }
  split; [|split].
  - intros Hnone. rewrite Hrun, Hnone. reflexivity.
  - intros resolver s2 remote Hres Hget decision s3.
    rewrite Hres in Hrun.
    rewrite (handleConflict_resolved _ c path cal s1 s2 resolver remote Hres Hget) in Hrun.
    fold decision s3 in Hrun. cbv zeta in Hrun.
    destruct (GetCalendarObject_request c path s1 s2 remote Hget)
      as (getReq & fetched & HgetReq & Hfetched & Hevents & _).
    assert (Htrace : events s2
                     = events s ++ [EvDo (putRequest req0 opts);
                                    EvDo (Request_setHeader getReq "Accept" ical_MIMEType)]).
    { rewrite Hevents. unfold s1, State_emit. simpl. rewrite <- app_assoc. reflexivity. }
    split; [exists getReq, fetched; repeat split; assumption|].
    split; [|split; [|split]]; intros Hd; rewrite Hd in Hrun; simpl in Hrun.
    + split; [exact Hrun|].
      split; [apply putRequest_nil_no_If_Match; assumption|].
      rewrite Hrun.
      apply PutCalendarObject_first_event with (buf := buf); assumption.
    + split; [exact Hrun|]. split; [rewrite Hrun; reflexivity|].
      exists getReq. split; [assumption|].
      rewrite Hrun. unfold s3, resolvedState. simpl. rewrite Htrace, <- app_assoc.
      reflexivity.
    + exact Hrun.
    + exact Hrun.
  - intros resolver s2 err Hres Hget. rewrite Hrun, Hres.
    apply handleConflict_fetch_failed. exact Hget.
Qed.

(** C10.  When [handleConflict] has fetched the remote object and calls
    the configured resolver, the local argument is the object with the
    caller's path and calendar, the reading of the clock at that moment
    as [ModTime], and zero [ETag] and [ContentLength]; every call of the
    resolver during a write has a local argument of that shape; and with
    [LastModifiedWinsResolver] the outcome is decided by that clock
    reading against the remote [ModTime], whatever the calendar holds. *)
Theorem handleConflict_local_argument
    (fuel : nat) (c : Client) (path : string) (cal : Calendar) (s s2 : State)
    (resolver : ResolverValue) (remote : CalendarObject) :
  conflictResolver c = Some resolver ->
  GetCalendarObject c path s = (s2, Returns (Ok remote)) ->
  let now := (time_Now (world s2)).2 in
  let localObj := {| Path := path; ModTime := now; ContentLength := 0;
                     ETag := ""; Data := Some cal |} in
  let run := handleConflict (PutCalendarObject fuel c) c path cal s in
  (exists rest, events run.1 = events s2 ++ EvResolve (Some localObj) (Some remote) :: rest)
  /\ (forall (opts : option PutOptions) (s0 : State),
         exists l,
           events (PutCalendarObject (S fuel) c path cal opts s0).1 = events s0 ++ l
           /\ Forall (writeEvent path cal) l)
  /\ (resolver = asResolver LastModifiedWinsResolver_value ->
      run = if Time_After (ModTime remote) now
            then (resolvedState s2 path cal remote, Returns (Ok remote))
            else PutCalendarObject fuel c path cal None (resolvedState s2 path cal remote)).
Proof.
  intros Hres Hget now localObj run.
  pose proof (handleConflict_resolved (PutCalendarObject fuel c) c path cal s s2
                resolver remote Hres Hget) as Hrun.
  fold run in Hrun. cbv zeta in Hrun. fold now in Hrun.
  change (localObject path cal now) with localObj in Hrun.
  split; [|split].
  - rewrite Hrun.
    assert (Hs3 : events (resolvedState s2 path cal remote)
                  = events s2 ++ [EvResolve (Some localObj) (Some remote)]) by reflexivity.
    destruct (_ =? UseLocal).
    + destruct (emits_PutCalendarObject fuel c path cal None
                  (resolvedState s2 path cal remote)) as (l & Hl & _).
      exists l. rewrite Hl, Hs3, <- app_assoc. reflexivity.
    + exists [].
      destruct (_ =? UseRemote); [exact Hs3|].
      destruct (_ =? Skip); [exact Hs3|].
      destruct (_ =? Merge); exact Hs3.
  - intros opts s0. apply emits_PutCalendarObject.
  - intros ->. rewrite Hrun.
    unfold asResolver. rewrite LastModifiedWins_later_wins. simpl ModTime.
    destruct (Time_After (ModTime remote) now); reflexivity.
Qed.

End Caldav.

Arguments CalendarObject : clear implicits.
Arguments SyncResult : clear implicits.
Arguments ResolverValue : clear implicits.

Arguments Substrate : clear implicits.
Arguments Client : clear implicits.


(** * More of the package

    Further properties of the code embedded above, and the functions of
    client.go it left out. *)

Section Identifiers.

(** ** Path-derived identifiers *)

(** The byte [c] occurs in [s]. *)
Fixpoint occurs (c : ascii) (s : string) : bool :=
  match s with
  | EmptyString => false
  | String d s' => bool_decide (d = c) || occurs c s'
  end.

Lemma substring_0_0 (s : string) : String.substring 0 0 s = "".
Proof. destruct s; reflexivity. Qed.

Lemma strings_Contains_byte (c : ascii) (s : string) :
  strings_Contains s (String c "") = occurs c s.
Proof.
  induction s as [|d s IH]; [reflexivity|].
  simpl. rewrite IH. f_equal.
  unfold strings_HasPrefix, len, slice. simpl String.length.
  replace (Z.of_nat 1 <=? Z.of_nat (S (String.length s))) with true
    by (symmetry; apply Z.leb_le; lia).
  simpl. rewrite substring_0_0. unfold string_eqb.
  destruct (decide (d = c)) as [->|Hne].
  - rewrite !bool_decide_eq_true_2 by reflexivity. reflexivity.
  - rewrite !bool_decide_eq_false_2 by congruence. reflexivity.
Qed.

Lemma occurs_substring (c : ascii) (s : string) :
  occurs c s = false -> forall n m, occurs c (String.substring n m s) = false.
Proof.
  induction s as [|d s IH]; intros Hs n m.
  - destruct n, m; reflexivity.
  - simpl in Hs. apply orb_false_iff in Hs as [Hd Hs].
    destruct n as [|n]; destruct m as [|m]; simpl; try reflexivity.
    + rewrite Hd. simpl. apply IH. assumption.
    + apply IH. assumption.
    + apply IH. assumption.
Qed.

Lemma occurs_append (c : ascii) (a b : string) :
  occurs c (a +:+ b) = occurs c a || occurs c b.
Proof.
  induction a as [|d a IH]; simpl; [reflexivity|].
  rewrite IH, orb_assoc. reflexivity.
Qed.

Lemma strings_Split_nonempty (s : string) (sep : ascii) : strings_Split s sep <> [].
Proof.
  destruct s as [|c s]; simpl; [discriminate|].
  destruct (bool_decide (c = sep)); [discriminate|].
  destruct (strings_Split s sep); discriminate.
Qed.

Lemma strings_Split_pieces (sep : ascii) (s : string) :
  Forall (fun piece => occurs sep piece = false) (strings_Split s sep).
Proof.
  induction s as [|c s IH]; simpl.
  - repeat constructor.
  - destruct (bool_decide (c = sep)) eqn:Hc.
    + constructor; [reflexivity|assumption].
    + destruct (strings_Split s sep) as [|piece rest]; [repeat constructor; simpl|].
      * rewrite Hc. reflexivity.
      * inversion IH as [|? ? Hpiece Hrest]; subst.
        constructor; [|assumption]. simpl. rewrite Hc, Hpiece. reflexivity.
Qed.

Lemma strings_Split_no_sep (sep : ascii) (s : string) :
  occurs sep s = false -> strings_Split s sep = [s].
Proof.
  induction s as [|c s IH]; simpl; [reflexivity|].
  intros Hs. apply orb_false_iff in Hs as [Hc Hs].
  rewrite Hc, (IH Hs). reflexivity.
Qed.

Lemma strings_Split_append (sep : ascii) (a b : string) :
  strings_Split (a +:+ String sep b) sep = strings_Split a sep ++ strings_Split b sep.
Proof.
  induction a as [|c a IH]; simpl.
  - rewrite bool_decide_eq_true_2 by reflexivity. reflexivity.
  - rewrite IH. destruct (bool_decide (c = sep)); [reflexivity|].
    pose proof (strings_Split_nonempty a sep) as Hne.
    destruct (strings_Split a sep) as [|piece rest]; [contradiction|reflexivity].
Qed.

Lemma fileName_no_slash_in_it (path : string) : occurs slash (fileName path) = false.
Proof.
  destruct (strings_Split_fileName path) as (Hlast & _ & _).
  apply last_Some in Hlast as [pieces Hpieces].
  pose proof (strings_Split_pieces slash path) as Hall. rewrite Hpieces in Hall.
  apply Forall_app in Hall as [_ Hlast]. inversion Hlast. assumption.
Qed.

(** X1.  The identifier [extractUIDFromPath] derives from a path holds
    no slash, and neither does what [ExtractUID] derives from the path of
    an item without a UID. *)
Theorem path_derived_UID_has_no_slash (path : string) :
  strings_Contains (extractUIDFromPath path) "/" = false
  /\ strings_Contains (ExtractUID {| sdi_Path := path; sdi_UID := "" |}) "/" = false.
Proof.
  assert (Hx : occurs slash (extractUIDFromPath path) = false).
  { unfold extractUIDFromPath.
    destruct (strings_Split_fileName path) as (Hlast & _ & _). rewrite Hlast.
    pose proof (fileName_no_slash_in_it path) as Hfile.
    destruct (strings_HasSuffix (fileName path) ".ics"); [|assumption].
    apply occurs_substring. assumption. }
  split.
  - change "/" with (String slash ""). rewrite strings_Contains_byte. exact Hx.
  - change "/" with (String slash ""). rewrite strings_Contains_byte.
    rewrite ExtractUID_path_derived.
    destruct (string_eqb (fileName path) ".ics"); [reflexivity|exact Hx].
Qed.

Lemma substring_append_left (a b : string) :
  String.substring 0 (String.length a) (a +:+ b) = a.
Proof. induction a as [|c a IH]; simpl; [apply substring_0_0|]. rewrite IH. reflexivity. Qed.

Lemma substring_append_right (a b : string) :
  String.substring (String.length a) (String.length b) (a +:+ b) = b.
Proof.
  induction a as [|c a IH]; simpl; [apply substring_all|exact IH].
Qed.

Lemma length_append (a b : string) :
  String.length (a +:+ b) = (String.length a + String.length b)%nat.
Proof. induction a as [|c a IH]; simpl; [reflexivity|]. rewrite IH. reflexivity. Qed.

Lemma strip_ics (uid : string) :
  strings_HasSuffix (uid +:+ ".ics") ".ics" = true
  /\ slice (uid +:+ ".ics") 0 (len (uid +:+ ".ics") - 4) = uid.
Proof.
  unfold strings_HasSuffix, slice, len. rewrite length_append. simpl String.length.
  split.
  - apply andb_true_iff. split; [apply Z.leb_le; lia|].
    replace (Z.to_nat (Z.of_nat (String.length uid + 4) - Z.of_nat 4))
      with (String.length uid) by lia.
    replace (Z.to_nat (Z.of_nat (String.length uid + 4)
                       - (Z.of_nat (String.length uid + 4) - Z.of_nat 4)))
      with (String.length ".ics") by (simpl; lia).
    rewrite substring_append_right. unfold string_eqb.
    apply bool_decide_eq_true_2. reflexivity.
  - replace (Z.to_nat 0) with 0%nat by lia.
    replace (Z.to_nat (Z.of_nat (String.length uid + 4) - 4 - 0))
      with (String.length uid) by lia.
    apply substring_append_left.
Qed.

(** X2.  Round trip: for a UID without a slash, the path made of a
    directory, a slash, the UID and the [.ics] extension gives the UID
    back through [extractUIDFromPath], and, when the UID is not empty,
    through [ExtractUID] on an item that carries no UID of its own. *)
Theorem UID_of_event_path (dir uid : string) :
  strings_Contains uid "/" = false ->
  extractUIDFromPath (dir +:+ "/" +:+ uid +:+ ".ics") = uid
  /\ (uid <> "" ->
      ExtractUID {| sdi_Path := dir +:+ "/" +:+ uid +:+ ".ics"; sdi_UID := "" |} = uid).
Proof.
  change "/" with (String slash ""). rewrite strings_Contains_byte. intros Huid.
  assert (Hfile : occurs slash (uid +:+ ".ics") = false).
  { rewrite occurs_append, Huid. reflexivity. }
  assert (Hlast : last (strings_Split (dir +:+ String slash "" +:+ uid +:+ ".ics") slash)
                  = Some (uid +:+ ".ics")).
  { change (dir +:+ String slash "" +:+ uid +:+ ".ics")
      with (dir +:+ String slash (uid +:+ ".ics")).
    rewrite strings_Split_append, (strings_Split_no_sep slash _ Hfile).
    apply last_snoc. }
  destruct (strip_ics uid) as [Hsuffix Hstrip].
  assert (Hx : extractUIDFromPath (dir +:+ String slash "" +:+ uid +:+ ".ics") = uid).
  { unfold extractUIDFromPath. rewrite Hlast, Hsuffix. exact Hstrip. }
  split; [exact Hx|].
  intros Hne. rewrite ExtractUID_agrees_with_extractUIDFromPath; [exact Hx|].
  rewrite Hlast. intros [= Heq].
  destruct uid as [|c uid]; [contradiction|].
  apply (f_equal String.length) in Heq. rewrite length_append in Heq. simpl in Heq. lia.
Qed.

End Identifiers.


Section MoreOfCaldav.

Context {Calendar : Type} `{substrate : Substrate Calendar}.

Notation "'let*' x := m 'in' k" := (bind m (fun x => k))
  (at level 10, x name, m at level 100, k at level 200).

(** ** Decisions and the built-in resolvers *)

(** X3.  [ConflictDecision.String] names the four decisions apart and
    prints every other value as unknown. *)
Theorem ConflictDecision_String_names (a b : ConflictDecision) :
  (ConflictDecision_String a = "unknown" <-> a < UseLocal \/ Skip < a)
  /\ (ConflictDecision_String a = ConflictDecision_String b ->
      ConflictDecision_String a <> "unknown" -> a = b).
Proof.
  unfold ConflictDecision_String, UseLocal, UseRemote, Merge, Skip.
  split.
  - destruct (a =? 0) eqn:E0; [apply Z.eqb_eq in E0; split; [discriminate|lia]|].
    destruct (a =? 1) eqn:E1; [apply Z.eqb_eq in E1; split; [discriminate|lia]|].
    destruct (a =? 2) eqn:E2; [apply Z.eqb_eq in E2; split; [discriminate|lia]|].
    destruct (a =? 3) eqn:E3; [apply Z.eqb_eq in E3; split; [discriminate|lia]|].
    apply Z.eqb_neq in E0, E1, E2, E3. split; [lia|reflexivity].
  - destruct (a =? 0) eqn:A0; destruct (a =? 1) eqn:A1; destruct (a =? 2) eqn:A2;
      destruct (a =? 3) eqn:A3;
      destruct (b =? 0) eqn:B0; destruct (b =? 1) eqn:B1; destruct (b =? 2) eqn:B2;
      destruct (b =? 3) eqn:B3;
      intros Heq Hknown; try discriminate; try contradiction;
      repeat match goal with
             | H : (_ =? _) = true |- _ => apply Z.eqb_eq in H
             | H : (_ =? _) = false |- _ => clear H
             end; lia.
Qed.

(** X4.  No built-in resolver ever answers [Merge]; the only [Skip] is
    that of [LastModifiedWinsResolver] on two nil arguments; in every
    other case the answer is [UseLocal] or [UseRemote], and
    [LastModifiedWinsResolver] answers [UseRemote] on two objects exactly
    when the remote one is strictly later. *)
Theorem builtin_resolvers_answers (local remote : option (CalendarObject Calendar)) :
  (Resolve LastModifiedWinsResolver_value local remote
   = match local, remote with
     | None, None => Skip
     | None, Some _ => UseRemote
     | Some _, None => UseLocal
     | Some l, Some r => if ModTime r >? ModTime l then UseRemote else UseLocal
     end)
  /\ (Resolve AlwaysUseLocalResolver_value local remote = UseLocal
      \/ Resolve AlwaysUseLocalResolver_value local remote = UseRemote)
  /\ (Resolve AlwaysUseRemoteResolver_value local remote = UseLocal
      \/ Resolve AlwaysUseRemoteResolver_value local remote = UseRemote)
  /\ Resolve LastModifiedWinsResolver_value local remote <> Merge
  /\ Resolve AlwaysUseLocalResolver_value local remote <> Merge
  /\ Resolve AlwaysUseRemoteResolver_value local remote <> Merge.
Proof.
  assert (Hlmw : Resolve LastModifiedWinsResolver_value local remote
                 = match local, remote with
                   | None, None => Skip
                   | None, Some _ => UseRemote
                   | Some _, None => UseLocal
                   | Some l, Some r => if ModTime r >? ModTime l then UseRemote else UseLocal
                   end).
  { destruct local as [l|], remote as [r|]; try reflexivity.
    rewrite LastModifiedWins_later_wins. unfold Time_After.
    rewrite Z.gtb_ltb. reflexivity. }
  split; [exact Hlmw|].
  split; [destruct local; [left|right]; reflexivity|].
  split; [destruct remote; [right|left]; reflexivity|].
  split; [|split].
  - rewrite Hlmw. destruct local as [l|], remote as [r|]; try discriminate.
    destruct (ModTime r >? ModTime l); discriminate.
  - destruct local; discriminate.
  - destruct remote; discriminate.
Qed.

(** ** The sync loop *)

(** What an entry adds to the Deleted list. *)
Definition deletedOf (calendar : string) (resp : Response) : list SyncDeletedItem :=
  match resp_Path resp with
  | Ok path =>
      if negb (string_eqb path calendar)
         && strings_Contains (entryProps resp).1.1 "404"
      then [{| sdi_Path := path; sdi_UID := extractUIDFromPath path |}]
      else []
  | Failed _ => []
  end.

Lemma syncEntry_Deleted (calendar : string) (resp : Response)
    (r : SyncResult Calendar) (s : State) :
  Deleted (syncEntry calendar resp r s).2 = Deleted r ++ deletedOf calendar resp.
Proof.
  unfold syncEntry, deletedOf.
  destruct (resp_Path resp) as [path|err]; [|rewrite app_nil_r; reflexivity].
  destruct (string_eqb path calendar); [rewrite app_nil_r; reflexivity|].
  destruct (entryProps resp) as [[status etag] calendarData]. simpl.
  destruct (strings_Contains status "404"); [reflexivity|].
  rewrite app_nil_r.
  destruct (strings_Contains status "200" && (0 <? len calendarData)).
  - destruct (ical_Decode calendarData); [|reflexivity].
    destruct (time_Now (world s)). destruct (strings_Contains status "201"); reflexivity.
  - destruct (strings_Contains status "200"); reflexivity.
Qed.

Lemma syncLoop_Deleted (calendar : string) (resps : list Response) :
  forall (r : SyncResult Calendar) (s : State),
    Deleted (syncLoop calendar resps r s).2 = Deleted r ++ flat_map (deletedOf calendar) resps.
Proof.
  induction resps as [|resp rest IH]; intros r s; simpl.
  - rewrite app_nil_r. reflexivity.
  - pose proof (syncEntry_Deleted calendar resp r s) as Hentry.
    destruct (syncEntry calendar resp r s) as [s' r']. simpl in Hentry.
    rewrite IH, Hentry, app_assoc. reflexivity.
Qed.

(** X5.  After a successful exchange, the Deleted list of [SyncCalendar]
    is exactly the entries with a path other than the root whose status
    text contains 404, in the order of the answer, each named after its
    path; neither the codec nor the clock has a say in it. *)
Theorem SyncCalendar_Deleted_in_answer_order
    (c : Client Calendar) (calendar syncToken : string) (opts : option SyncOptions)
    (s : State) (prop : internalProp) (w : World) (ms : MultiStatus) :
  internal_EncodeProp syncPropOperands = Ok prop ->
  ic_SyncCollection (world s) calendar syncToken (syncLevelFor opts) prop = (w, Ok ms) ->
  exists (s' : State) (result : SyncResult Calendar),
    SyncCalendar c calendar syncToken opts s = (s', Returns (Ok result))
    /\ Deleted result = flat_map (deletedOf calendar) (Responses ms).
Proof.
  intros Hprop Hsync.
  rewrite (SyncCalendar_unfold c calendar syncToken opts s prop Hprop), Hsync.
  eexists _, _. split; [reflexivity|]. simpl. rewrite syncLoop_Deleted. reflexivity.
Qed.

(** No item of [r] is at the path [calendar]. *)
Definition rootFree (calendar : string) (r : SyncResult Calendar) : Prop :=
  Forall (fun obj => Path obj <> calendar) (Created r)
  /\ Forall (fun obj => Path obj <> calendar) (Updated r)
  /\ Forall (fun item => sdi_Path item <> calendar) (Deleted r).

Lemma syncEntry_rootFree (calendar : string) (resp : Response)
    (r : SyncResult Calendar) (s : State) :
  rootFree calendar r -> rootFree calendar (syncEntry calendar resp r s).2.
Proof.
  intros (Hc & Hu & Hd). unfold syncEntry.
  destruct (resp_Path resp) as [path|err]; [|repeat split; assumption].
  unfold string_eqb. destruct (bool_decide (path = calendar)) eqn:Hroot;
    [repeat split; assumption|].
  apply bool_decide_eq_false_1 in Hroot.
  destruct (entryProps resp) as [[status etag] calendarData].
  destruct (strings_Contains status "404").
  { repeat split; simpl; try assumption.
    apply Forall_app. split; [assumption|]. repeat constructor. assumption. }
  destruct (strings_Contains status "200" && (0 <? len calendarData)).
  - destruct (ical_Decode calendarData); [|repeat split; assumption].
    destruct (time_Now (world s)).
    destruct (strings_Contains status "201"); repeat split; simpl; try assumption;
      (apply Forall_app; split; [assumption|]; repeat constructor; assumption).
  - destruct (strings_Contains status "200"); [|repeat split; assumption].
    repeat split; simpl; try assumption.
    apply Forall_app. split; [assumption|]. repeat constructor. assumption.
Qed.

Lemma syncLoop_rootFree (calendar : string) (resps : list Response) :
  forall (r : SyncResult Calendar) (s : State),
    rootFree calendar r -> rootFree calendar (syncLoop calendar resps r s).2.
Proof.
  induction resps as [|resp rest IH]; intros r s Hr; simpl; [assumption|].
  pose proof (syncEntry_rootFree calendar resp r s Hr) as Hentry.
  destruct (syncEntry calendar resp r s) as [s' r']. apply IH. assumption.
Qed.

(** X6.  Whatever the server answers, no Created, Updated or Deleted
    item that [SyncCalendar] returns is at the path of the collection
    being synced. *)
Theorem SyncCalendar_never_reports_the_root
    (c : Client Calendar) (calendar syncToken : string) (opts : option SyncOptions)
    (s s' : State) (result : SyncResult Calendar) :
  SyncCalendar c calendar syncToken opts s = (s', Returns (Ok result)) ->
  Forall (fun obj => Path obj <> calendar) (Created result)
  /\ Forall (fun obj => Path obj <> calendar) (Updated result)
  /\ Forall (fun item => sdi_Path item <> calendar) (Deleted result).
Proof.
  unfold SyncCalendar, bind, lift.
  destruct (internal_EncodeProp syncPropOperands) as [prop|err]; [|discriminate].
  unfold SyncCollection.
  destruct (ic_SyncCollection (world s) calendar syncToken (syncLevelFor opts) prop)
    as [w [ms|err]].
  - pose proof (syncLoop_rootFree calendar (Responses ms) (NewSyncResult (ms_SyncToken ms))
                  (State_emit s w (EvSyncCollection calendar syncToken (syncLevelFor opts))))
      as Hfree.
    destruct (syncLoop calendar (Responses ms) _ _) as [s2 r2].
    intros [= _ <-]. apply Hfree. repeat split; constructor.
  - destruct (bool_decide _); discriminate.
Qed.

Lemma syncEntry_TotalChanges (calendar : string) (resp : Response)
    (r : SyncResult Calendar) (s : State) :
  TotalChanges r <= TotalChanges (syncEntry calendar resp r s).2 <= TotalChanges r + 1.
Proof.
  unfold syncEntry.
  destruct (resp_Path resp) as [path|err]; [|simpl; lia].
  destruct (string_eqb path calendar); [simpl; lia|].
  destruct (entryProps resp) as [[status etag] calendarData].
  destruct (strings_Contains status "404");
    [unfold TotalChanges; simpl; rewrite length_app; simpl; lia|].
  destruct (strings_Contains status "200" && (0 <? len calendarData)).
  - destruct (ical_Decode calendarData); [|simpl; lia].
    destruct (time_Now (world s)).
    destruct (strings_Contains status "201");
      unfold TotalChanges; simpl; rewrite length_app; simpl; lia.
  - destruct (strings_Contains status "200"); [|simpl; lia].
    unfold TotalChanges; simpl; rewrite length_app; simpl; lia.
Qed.

Lemma syncLoop_TotalChanges (calendar : string) (resps : list Response) :
  forall (r : SyncResult Calendar) (s : State),
    TotalChanges (syncLoop calendar resps r s).2 <= TotalChanges r + Z.of_nat (length resps).
Proof.
  induction resps as [|resp rest IH]; intros r s; cbn [syncLoop length].
  - cbn [snd]. lia.
  - pose proof (syncEntry_TotalChanges calendar resp r s) as Hentry.
    destruct (syncEntry calendar resp r s) as [s' r']. simpl in Hentry.
    specialize (IH r' s'). lia.
Qed.

(** X7.  After a successful exchange, [TotalChanges] of the result is
    at most the number of entries in the answer, and strictly less when
    the answer holds an entry for the collection root: every entry
    accounts for at most one change and the root for none. *)
Theorem SyncCalendar_at_most_one_change_per_entry
    (c : Client Calendar) (calendar syncToken : string) (opts : option SyncOptions)
    (s : State) (prop : internalProp) (w : World) (ms : MultiStatus) :
  internal_EncodeProp syncPropOperands = Ok prop ->
  ic_SyncCollection (world s) calendar syncToken (syncLevelFor opts) prop = (w, Ok ms) ->
  exists (s' : State) (result : SyncResult Calendar),
    SyncCalendar c calendar syncToken opts s = (s', Returns (Ok result))
    /\ TotalChanges result <= Z.of_nat (length (Responses ms))
    /\ (forall resp, In resp (Responses ms) -> resp_Path resp = Ok calendar ->
        TotalChanges result < Z.of_nat (length (Responses ms))).
Proof.
  intros Hprop Hsync.
  rewrite (SyncCalendar_unfold c calendar syncToken opts s prop Hprop), Hsync.
  eexists _, _. split; [reflexivity|]. simpl.
  set (s1 := State_emit s w _). set (r0 := NewSyncResult (ms_SyncToken ms)).
  split.
  - pose proof (syncLoop_TotalChanges calendar (Responses ms) r0 s1) as Hle.
    change (TotalChanges r0) with 0 in Hle. lia.
  - intros resp Hin Hroot. apply in_split in Hin as (pre & post & ->).
    rewrite syncLoop_skipped.
    + pose proof (syncLoop_TotalChanges calendar (pre ++ post) r0 s1) as Hle.
      change (TotalChanges r0) with 0 in Hle.
      rewrite !length_app in *. simpl length. lia.
    + unfold skippedEntry. rewrite Hroot. left. reflexivity.
Qed.

(** What [SyncCalendar] puts on the wire. *)
(** The one exchange of a sync: with the caller's collection and
    token, at depth one when the options are nil or their [SyncLevel]
    is zero, and at the [SyncLevel] of the options otherwise. *)
Definition syncExchange (calendar syncToken : string) (opts : option SyncOptions)
    : @Event Calendar :=
  EvSyncCollection calendar syncToken
    match opts with
    | None => DepthOne
    | Some o => match SyncLevel o with
                | DepthZero => DepthOne
                | DepthOne => DepthOne
                | DepthInfinity => DepthInfinity
                end
    end.

(** X8.  [SyncCalendar] sends at most one sync-collection exchange and
    no other request, and exactly one when the request properties can
    be encoded.  The exchange names the caller's collection and token;
    its depth is the [SyncLevel] of the options, except that nil
    options and a [SyncLevel] of zero both give depth one. *)
Theorem SyncCalendar_sends_one_exchange
    (c : Client Calendar) (calendar syncToken : string) (opts : option SyncOptions)
    (s : State) :
  exists l,
    events (SyncCalendar c calendar syncToken opts s).1 = events s ++ l
    /\ (l = [] \/ l = [syncExchange calendar syncToken opts])
    /\ (forall prop, internal_EncodeProp syncPropOperands = Ok prop ->
        l = [syncExchange calendar syncToken opts]).
Proof.
  assert (Hlevel : EvSyncCollection calendar syncToken (syncLevelFor opts)
                   = syncExchange calendar syncToken opts).
  { unfold syncExchange, syncLevelFor. destruct opts as [[[]]|]; reflexivity. }
  unfold SyncCalendar, bind, lift.
  destruct (internal_EncodeProp syncPropOperands) as [prop|err].
  - exists [syncExchange calendar syncToken opts].
    split; [|split; [right; reflexivity|intros; reflexivity]].
    rewrite <- Hlevel. unfold SyncCollection.
    destruct (ic_SyncCollection (world s) calendar syncToken (syncLevelFor opts) prop)
      as [w [ms|err]].
    + pose proof (syncLoop_extends calendar (Responses ms) (NewSyncResult (ms_SyncToken ms))
                    (State_emit s w (EvSyncCollection calendar syncToken (syncLevelFor opts))))
        as (_ & Hev & _).
      destruct (syncLoop calendar (Responses ms) _ _) as [s2 r2]. exact Hev.
    + destruct (bool_decide _); reflexivity.
  - exists []. split; [simpl; rewrite app_nil_r; reflexivity|].
    split; [left; reflexivity|discriminate].
Qed.

(** X9.  A failure of the exchange that is not an HTTP 410 reaches the
    caller as it is, with no result; and when the request properties
    cannot be encoded the call fails with that error before anything is
    sent. *)
Theorem SyncCalendar_other_failures
    (c : Client Calendar) (calendar syncToken : string) (opts : option SyncOptions)
    (s : State) :
  (forall err,
      internal_EncodeProp syncPropOperands = Failed err ->
      SyncCalendar c calendar syncToken opts s = (s, Returns (Failed err)))
  /\ (forall prop w err,
         internal_EncodeProp syncPropOperands = Ok prop ->
         ic_SyncCollection (world s) calendar syncToken (syncLevelFor opts) prop
         = (w, Failed err) ->
         errors_As_HTTPError err <> Some StatusGone ->
         SyncCalendar c calendar syncToken opts s
         = (State_emit s w (EvSyncCollection calendar syncToken (syncLevelFor opts)),
            Returns (Failed err))).
Proof.
  split.
  - intros err Hprop. unfold SyncCalendar, bind, lift. rewrite Hprop. reflexivity.
  - intros prop w err Hprop Hsync Hother.
    rewrite (SyncCalendar_unfold c calendar syncToken opts s prop Hprop), Hsync.
    rewrite bool_decide_eq_false_2 by assumption. reflexivity.
Qed.

Lemma propstatLoop_with_error (resp : Response) (err : error) (propstats : list PropStat)
    (status etag : string) (calendarData : bytes) :
  resp_Err resp = Some err ->
  propstatLoop resp propstats status etag calendarData = (status, etag, calendarData).
Proof.
  intros Herr. induction propstats as [|propstat rest IH]; simpl; [reflexivity|].
  rewrite Herr. exact IH.
Qed.

(** An object without a document and without an ETag. *)
Definition bare (obj : CalendarObject Calendar) : Prop :=
  Data obj = None /\ ETag obj = "".

Lemma syncEntry_with_error (calendar : string) (resp : Response) (err : error)
    (r : SyncResult Calendar) (s : State) :
  resp_Err resp = Some err ->
  Created (syncEntry calendar resp r s).2 = Created r
  /\ exists us, Updated (syncEntry calendar resp r s).2 = Updated r ++ us /\ Forall bare us.
Proof.
  intros Herr. unfold syncEntry.
  destruct (resp_Path resp) as [path|e];
    [|split; [reflexivity|exists []; rewrite app_nil_r; split; [reflexivity|constructor]]].
  destruct (string_eqb path calendar);
    [split; [reflexivity|exists []; rewrite app_nil_r; split; [reflexivity|constructor]]|].
  unfold entryProps. rewrite (propstatLoop_with_error resp err) by assumption.
  destruct (strings_Contains _ "404");
    [split; [reflexivity|exists []; rewrite app_nil_r; split; [reflexivity|constructor]]|].
  replace (0 <? len "") with false by reflexivity. rewrite andb_false_r.
  destruct (strings_Contains _ "200").
  - split; [reflexivity|]. eexists. split; [reflexivity|].
    repeat constructor.
  - split; [reflexivity|exists []; rewrite app_nil_r; split; [reflexivity|constructor]].
Qed.

(** An entry with its propstats taken away. *)
Definition withoutPropStats (resp : Response) : Response :=
  {| resp_Path := resp_Path resp; resp_Err := resp_Err resp;
     resp_Status := resp_Status resp; resp_PropStats := [];
     resp_calendarData := resp_calendarData resp;
     resp_getLastModified := resp_getLastModified resp;
     resp_getETag := resp_getETag resp;
     resp_getContentLength := resp_getContentLength resp |}.

Lemma syncEntry_without_propstats (calendar : string) (resp : Response) (err : error)
    (r : SyncResult Calendar) (s : State) :
  resp_Err resp = Some err ->
  syncEntry calendar resp r s = syncEntry calendar (withoutPropStats resp) r s.
Proof.
  intros Herr. unfold syncEntry, entryProps.
  rewrite (propstatLoop_with_error resp err) by assumption. reflexivity.
Qed.

(** X10.  When every entry of an answer reports an error of its own
    ([resp.Err()] is not nil), the propstats are never read: the sync
    loop runs as it does on the same entries without their propstats,
    so each entry is classified by its own status line alone; the loop
    creates nothing, and whatever it records as updated has neither a
    document nor an ETag. *)
Theorem syncLoop_entries_with_errors (calendar token : string) (resps : list Response)
    (s : State) :
  Forall (fun resp => resp_Err resp <> None) resps ->
  syncLoop calendar resps (NewSyncResult token) s
  = syncLoop calendar (map withoutPropStats resps) (NewSyncResult token) s
  /\ Created (syncLoop calendar resps (NewSyncResult token) s).2 = []
  /\ Forall bare (Updated (syncLoop calendar resps (NewSyncResult token) s).2).
Proof.
  intros Hall.
  assert (Hgen : forall (r : SyncResult Calendar) (s0 : State),
             syncLoop calendar resps r s0 = syncLoop calendar (map withoutPropStats resps) r s0
             /\ Created (syncLoop calendar resps r s0).2 = Created r
             /\ exists us, Updated (syncLoop calendar resps r s0).2 = Updated r ++ us
                           /\ Forall bare us).
  { induction Hall as [|resp rest Hresp _ IH]; intros r s0; simpl.
    - split; [reflexivity|].
      split; [reflexivity|exists []; rewrite app_nil_r; split; [reflexivity|constructor]].
    - destruct (resp_Err resp) as [err|] eqn:Herr; [|contradiction].
      destruct (syncEntry_with_error calendar resp err r s0 Herr) as (Hc & us & Hu & Hbare).
      rewrite <- (syncEntry_without_propstats calendar resp err r s0 Herr).
      destruct (syncEntry calendar resp r s0) as [s' r']. simpl in Hc, Hu.
      destruct (IH r' s') as (Hsame & Hc' & us' & Hu' & Hbare').
      split; [exact Hsame|].
      split; [congruence|]. exists (us ++ us'). split.
      + rewrite Hu', Hu, app_assoc. reflexivity.
      + apply Forall_app. split; assumption. }
  destruct (Hgen (NewSyncResult token) s) as (Hsame & Hc & us & Hu & Hbare).
  split; [exact Hsame|]. split; [exact Hc|]. rewrite Hu. exact Hbare.
Qed.

(** ** Deleting *)

Definition StatusNotFound : Z := 404.

(** [DeleteCalendarObject]; a nil error is [Ok tt].  The status class is
    taken with Go's integer division, which truncates. *)
Definition DeleteCalendarObject (c : Client Calendar) (path : string) : M unit :=
  let* req := lift (ic_NewRequest "DELETE" path None) in
  let* resp := Do req in
  if StatusCode resp =? StatusNotFound then ret tt
  else if Z.quot (StatusCode resp) 100 =? 2 then ret tt
  else fail (HTTPError (StatusCode resp) None).

Lemma status_class_2 (code : Z) : Z.quot code 100 = 2 <-> 200 <= code <= 299.
Proof.
  split.
  - intros Hq. destruct (Z_lt_le_dec code 0) as [Hneg|Hpos].
    + pose proof (Z.quot_opp_l code 100 ltac:(lia)) as Hopp.
      pose proof (Z.quot_pos (- code) 100 ltac:(lia) ltac:(lia)). lia.
    + rewrite Z.quot_div_nonneg in Hq by lia.
      pose proof (Z.div_mod code 100 ltac:(lia)).
      pose proof (Z.mod_pos_bound code 100 ltac:(lia)). lia.
  - intros Hrange. rewrite Z.quot_div_nonneg by lia.
    symmetry. apply (Z.div_unique code 100 2 (code - 200)); lia.
Qed.

(** X11.  Once the request is built and answered, [DeleteCalendarObject]
    succeeds exactly when the status is 404 or in the 200 to 299 range,
    and otherwise fails with an [HTTPError] carrying the status; either
    way it has sent that one request and nothing else. *)
Theorem DeleteCalendarObject_outcome
    (c : Client Calendar) (path : string) (s : State) (req : Request) (w : World)
    (resp : HTTPResponse) :
  ic_NewRequest "DELETE" path None = Ok req ->
  ic_Do (world s) req = (w, Ok resp) ->
  DeleteCalendarObject c path s
  = (State_emit s w (EvDo req),
     Returns (if (StatusCode resp =? 404)
                 || (200 <=? StatusCode resp) && (StatusCode resp <=? 299)
              then Ok tt
              else Failed (HTTPError (StatusCode resp) None))).
Proof.
  intros Hreq Hdo. unfold DeleteCalendarObject, bind, lift, Do. rewrite Hreq, Hdo.
  unfold StatusNotFound.
  destruct (StatusCode resp =? 404); [reflexivity|]. simpl orb.
  destruct (Z.quot (StatusCode resp) 100 =? 2) eqn:Hq.
  - apply Z.eqb_eq, status_class_2 in Hq.
    replace (200 <=? StatusCode resp) with true by (symmetry; apply Z.leb_le; lia).
    replace (StatusCode resp <=? 299) with true by (symmetry; apply Z.leb_le; lia).
    reflexivity.
  - apply Z.eqb_neq in Hq.
    destruct ((200 <=? StatusCode resp) && (StatusCode resp <=? 299)) eqn:Hrange;
      [|reflexivity].
    apply andb_true_iff in Hrange as [H1 H2]. apply Z.leb_le in H1, H2.
    exfalso. apply Hq, status_class_2. lia.
Qed.

(** ** Writing and reading one object *)

(** A run that does not panic, wherever it starts. *)
Definition neverPanics {A : Type} (m : M A) : Prop :=
  forall s why, (m s).2 <> Panics why.

Lemma neverPanics_lift {A : Type} (r : result A) : neverPanics (lift r).
Proof. intros s why. discriminate. Qed.

Lemma neverPanics_bind {A B : Type} (m : M A) (k : A -> M B) :
  neverPanics m -> (forall a, neverPanics (k a)) -> neverPanics (bind m k).
Proof.
  intros Hm Hk s why. unfold bind. specialize (Hm s).
  destruct (m s) as [s' [[a|e]|why'|]]; simpl in *.
  - apply Hk.
  - discriminate.
  - intros _. apply (Hm why'). reflexivity.
  - discriminate.
Qed.

Lemma neverPanics_Do (req : Request) : neverPanics (Do req).
Proof. intros s why. unfold Do. destruct (ic_Do (world s) req). discriminate. Qed.

Lemma neverPanics_GetCalendarObject (c : Client Calendar) (path : string) :
  neverPanics (GetCalendarObject c path).
Proof.
  unfold GetCalendarObject.
  apply neverPanics_bind; [apply neverPanics_lift|intros req].
  apply neverPanics_bind; [apply neverPanics_Do|intros resp].
  apply neverPanics_bind; [apply neverPanics_lift|intros mediaType].
  destruct (negb _); [intros s why; discriminate|].
  apply neverPanics_bind; [apply neverPanics_lift|intros cal]. apply neverPanics_lift.
Qed.

Lemma neverPanics_handleConflict
    (put : string -> Calendar -> option PutOptions -> M (CalendarObject Calendar))
    (c : Client Calendar) (path : string) (local : Calendar) :
  conflictResolver c <> None ->
  (forall o, neverPanics (put path local o)) ->
  neverPanics (handleConflict put c path local).
Proof.
  intros Hres Hput s why. unfold handleConflict.
  pose proof (neverPanics_GetCalendarObject c path s) as Hget.
  destruct (GetCalendarObject c path s) as [s1 [[remote|err]|why'|]]; simpl in *;
    try discriminate.
  - destruct (conflictResolver c) as [resolver|]; [|contradiction].
    unfold bind, Now, callResolve. destruct (time_Now (world s1)) as [w now]. simpl.
    destruct (_ =? UseLocal); [apply Hput|].
    destruct (_ =? UseRemote); [discriminate|].
    destruct (_ =? Skip); [discriminate|].
    destruct (_ =? Merge); discriminate.
  - intros _. apply (Hget why'). reflexivity.
Qed.

Lemma neverPanics_PutCalendarObject (fuel : nat) (c : Client Calendar) (path : string)
    (cal : Calendar) :
  forall opts, neverPanics (PutCalendarObject fuel c path cal opts).
Proof.
  induction fuel as [|fuel IH]; intros opts.
  - intros s why. discriminate.
  - simpl.
    apply neverPanics_bind; [apply neverPanics_lift|intros buf].
    apply neverPanics_bind; [apply neverPanics_lift|intros req].
    apply neverPanics_bind; [apply neverPanics_Do|intros resp].
    destruct (StatusCode resp =? StatusPreconditionFailed); [|apply neverPanics_lift].
    destruct (conflictResolver c) as [resolver|] eqn:Hres; [|intros s why; discriminate].
    apply neverPanics_handleConflict; [rewrite Hres; discriminate|exact IH].
Qed.

(** X12.  [PutCalendarObject] never panics, whatever the server answers
    and whatever the resolver decides: the call of the resolver in
    [handleConflict], which does panic on a nil resolver once the remote
    object is fetched, is only reached with a resolver configured. *)
Theorem PutCalendarObject_never_panics
    (fuel : nat) (c : Client Calendar) (path : string) (cal : Calendar)
    (opts : option PutOptions) (s : State) :
  (forall why, (PutCalendarObject fuel c path cal opts s).2 <> Panics why)
  /\ (forall put s1 remote,
         conflictResolver c = None ->
         GetCalendarObject c path s = (s1, Returns (Ok remote)) ->
         (handleConflict put c path cal s).2 = Panics nilDereference).
Proof.
  split.
  - intros why. apply neverPanics_PutCalendarObject.
  - intros put s1 remote Hnone Hget. unfold handleConflict. rewrite Hget, Hnone.
    unfold bind, Now. destruct (time_Now (world s1)). reflexivity.
Qed.

(** The requests among the events. *)
Definition requests (l : list (@Event Calendar)) : list Request :=
  flat_map (fun e => match e with EvDo req => [req] | _ => [] end) l.

(** X13.  Without a resolver a write sends at most one request, never
    reads the object back and never asks for a decision; one level of
    the recursion is all it uses. *)
Theorem PutCalendarObject_without_resolver
    (fuel : nat) (c : Client Calendar) (path : string) (cal : Calendar)
    (opts : option PutOptions) (s : State) :
  conflictResolver c = None ->
  PutCalendarObject (S fuel) c path cal opts s = PutCalendarObject 1 c path cal opts s
  /\ exists l,
       events (PutCalendarObject (S fuel) c path cal opts s).1 = events s ++ l
       /\ (length l <= 1)%nat
       /\ Forall (fun e => exists req, e = EvDo req) l.
Proof.
  intros Hnone.
  assert (Hone : PutCalendarObject (S fuel) c path cal opts s
                 = PutCalendarObject 1 c path cal opts s).
  { simpl. unfold bind, lift, Do.
    destruct (ical_Encode cal) as [buf|err]; [|reflexivity].
    destruct (ic_NewRequest "PUT" path (Some buf)) as [req|err]; [|reflexivity].
    destruct (ic_Do (world s) (putRequest req opts)) as [w [resp|err]]; [|reflexivity].
    destruct (StatusCode resp =? StatusPreconditionFailed); [|reflexivity].
    rewrite Hnone. reflexivity. }
  split; [exact Hone|]. rewrite Hone. simpl. unfold bind, lift, Do.
  destruct (ical_Encode cal) as [buf|err];
    [|exists []; simpl; rewrite app_nil_r; repeat split; [lia|constructor]].
  destruct (ic_NewRequest "PUT" path (Some buf)) as [req|err];
    [|exists []; simpl; rewrite app_nil_r; repeat split; [lia|constructor]].
  exists [EvDo (putRequest req opts)].
  destruct (ic_Do (world s) (putRequest req opts)) as [w [resp|err]].
  - destruct (StatusCode resp =? StatusPreconditionFailed).
    + rewrite Hnone. simpl. repeat split; [lia|]. repeat constructor. eexists. reflexivity.
    + simpl. repeat split; [lia|]. repeat constructor. eexists. reflexivity.
  - simpl. repeat split; [lia|]. repeat constructor. eexists. reflexivity.
Qed.

(** X14.  With [AlwaysUseRemoteResolver] a write is never sent twice: the
    whole call sends at most two requests (the write and, after a 412,
    the read), and ends within one level of the recursion. *)
Theorem PutCalendarObject_AlwaysUseRemote_writes_once
    (fuel : nat) (c : Client Calendar) (path : string) (cal : Calendar)
    (opts : option PutOptions) (s : State) :
  conflictResolver c = Some (asResolver AlwaysUseRemoteResolver_value) ->
  PutCalendarObject (S fuel) c path cal opts s = PutCalendarObject 1 c path cal opts s
  /\ (PutCalendarObject (S fuel) c path cal opts s).2 <> OutOfFuel
  /\ exists l,
       events (PutCalendarObject (S fuel) c path cal opts s).1 = events s ++ l
       /\ (length (requests l) <= 2)%nat.
Proof.
  intros Hres.
  assert (Hhc : forall put s1,
             handleConflict put c path cal s1
             = handleConflict (PutCalendarObject 0 c) c path cal s1
             /\ (handleConflict put c path cal s1).2 <> OutOfFuel
             /\ exists l, events (handleConflict put c path cal s1).1 = events s1 ++ l
                          /\ (length (requests l) <= 1)%nat).
  { intros put s1. unfold handleConflict.
    assert (Hget : exists l,
               events (GetCalendarObject c path s1).1 = events s1 ++ l
               /\ (length (requests l) <= 1)%nat
               /\ (GetCalendarObject c path s1).2 <> OutOfFuel).
    { unfold GetCalendarObject, bind, lift, Do.
      destruct (ic_NewRequest "GET" path None) as [req|err];
        [|exists []; simpl; rewrite app_nil_r; repeat split; [lia|discriminate]].
      exists [EvDo (Request_setHeader req "Accept" ical_MIMEType)].
      destruct (ic_Do (world s1) _) as [w [resp|err]];
        [|simpl; repeat split; [lia|discriminate]].
      destruct (mime_ParseMediaType _); [|simpl; repeat split; [lia|discriminate]].
      destruct (negb _); [simpl; repeat split; [lia|discriminate]|].
      destruct (ical_Decode _); simpl; repeat split; try lia; discriminate. }
    destruct Hget as (l & Hl & Hlen & Hfuel).
    destruct (GetCalendarObject c path s1) as [s2 [[remote|err]|why|]]; simpl in *.
    - rewrite Hres. unfold bind, Now, callResolve, asResolver.
      destruct (time_Now (world s2)) as [w now]. simpl.
      split; [reflexivity|]. split; [discriminate|].
      exists (l ++ [EvResolve (Some {| Path := path; ModTime := now; ContentLength := 0;
                                       ETag := ""; Data := Some cal |}) (Some remote)]).
      split; [rewrite Hl, app_assoc; reflexivity|].
      unfold requests in *. rewrite flat_map_app, length_app. simpl. lia.
    - split; [reflexivity|]. split; [discriminate|]. exists l. split; assumption.
    - split; [reflexivity|]. split; [discriminate|]. exists l. split; assumption.
    - contradiction. }
  assert (Hone : PutCalendarObject (S fuel) c path cal opts s
                 = PutCalendarObject 1 c path cal opts s).
  { simpl. unfold bind, lift, Do.
    destruct (ical_Encode cal) as [buf|err]; [|reflexivity].
    destruct (ic_NewRequest "PUT" path (Some buf)) as [req|err]; [|reflexivity].
    destruct (ic_Do (world s) (putRequest req opts)) as [w [resp|err]]; [|reflexivity].
    destruct (StatusCode resp =? StatusPreconditionFailed); [|reflexivity].
    rewrite Hres. exact (proj1 (Hhc _ _)). }
  split; [exact Hone|]. rewrite Hone. simpl. unfold bind, lift, Do.
  destruct (ical_Encode cal) as [buf|err];
    [|split; [discriminate|exists []; simpl; rewrite app_nil_r; split; [reflexivity|lia]]].
  destruct (ic_NewRequest "PUT" path (Some buf)) as [req|err];
    [|split; [discriminate|exists []; simpl; rewrite app_nil_r; split; [reflexivity|lia]]].
  destruct (ic_Do (world s) (putRequest req opts)) as [w [resp|err]];
    [|split; [discriminate|exists [EvDo (putRequest req opts)]; simpl; split;
                            [reflexivity|lia]]].
  destruct (StatusCode resp =? StatusPreconditionFailed).
  - rewrite Hres.
    match goal with
    | |- context [handleConflict ?put c path cal ?st] =>
        destruct (Hhc put st) as (_ & Hfuel & l & Hl & Hlen)
    end.
    split; [exact Hfuel|].
    exists (EvDo (putRequest req opts) :: l). split.
    + rewrite Hl. simpl. rewrite <- app_assoc. reflexivity.
    + simpl. lia.
  - split; [discriminate|]. exists [EvDo (putRequest req opts)]. simpl.
    split; [reflexivity|lia].
Qed.

Lemma populateCalendarObject_keeps (co co' : CalendarObject Calendar)
    (h : gmap string (list string)) :
  populateCalendarObject co h = Ok co' ->
  Data co' = Data co
  /\ (Header_Get h "Location" = "" -> Path co' = Path co)
  /\ (Header_Get h "ETag" = "" -> ETag co' = ETag co)
  /\ (Header_Get h "Content-Length" = "" -> ContentLength co' = ContentLength co)
  /\ (Header_Get h "Last-Modified" = "" -> ModTime co' = ModTime co).
Proof.
  unfold populateCalendarObject. cbv zeta. unfold string_eqb.
  destruct (decide (Header_Get h "Location" = "")) as [Hloc|Hloc];
    [rewrite (bool_decide_eq_true_2 _ Hloc)|rewrite (bool_decide_eq_false_2 _ Hloc)];
    simpl negb; cbv iota.
  2: destruct (url_Parse_Path (Header_Get h "Location")) as [p|err]; [|discriminate].
  all: destruct (decide (Header_Get h "ETag" = "")) as [Hetag|Hetag];
    [rewrite (bool_decide_eq_true_2 _ Hetag)|rewrite (bool_decide_eq_false_2 _ Hetag)];
    simpl negb; cbv iota.
  all: try destruct (strconv_Unquote (Header_Get h "ETag")) as [unquoted|err].
  all: destruct (decide (Header_Get h "Content-Length" = "")) as [Hlen|Hlen];
    [rewrite (bool_decide_eq_true_2 _ Hlen)|rewrite (bool_decide_eq_false_2 _ Hlen)];
    simpl negb; cbv iota.
  all: try (destruct (strconv_ParseInt (Header_Get h "Content-Length")) as [n|err'];
            [|discriminate]).
  all: destruct (decide (Header_Get h "Last-Modified" = "")) as [Hmod|Hmod];
    [rewrite (bool_decide_eq_true_2 _ Hmod)|rewrite (bool_decide_eq_false_2 _ Hmod)];
    simpl negb; cbv iota.
  all: try (destruct (http_ParseTime (Header_Get h "Last-Modified")) as [t|err''];
            [|discriminate]).
  all: intros [= <-]; simpl; repeat split; intros; try reflexivity; contradiction.
Qed.

(** X15.  [populateCalendarObject] touches a field only when the header
    it is read from is present, and never the document: without a
    Location header the path stays, without an ETag header the ETag
    stays, and likewise for Content-Length and Last-Modified; with none
    of the four headers the object comes back as it was. *)
Theorem populateCalendarObject_frame (co : CalendarObject Calendar)
    (h : gmap string (list string)) :
  (forall co',
      populateCalendarObject co h = Ok co' ->
      Data co' = Data co
      /\ (Header_Get h "Location" = "" -> Path co' = Path co)
      /\ (Header_Get h "ETag" = "" -> ETag co' = ETag co)
      /\ (Header_Get h "Content-Length" = "" -> ContentLength co' = ContentLength co)
      /\ (Header_Get h "Last-Modified" = "" -> ModTime co' = ModTime co))
  /\ (Header_Get h "Location" = "" -> Header_Get h "ETag" = "" ->
      Header_Get h "Content-Length" = "" -> Header_Get h "Last-Modified" = "" ->
      populateCalendarObject co h = Ok co).
Proof.
  split.
  - intros co'. apply populateCalendarObject_keeps.
  - intros Hloc Hetag Hlen Hmod. unfold populateCalendarObject. cbv zeta.
    rewrite Hloc, Hetag, Hlen, Hmod. reflexivity.
Qed.

(** X16.  A read that succeeds has sent exactly one request, with
    [Accept: text/calendar], and returns an object that carries a
    document. *)
Theorem GetCalendarObject_success
    (c : Client Calendar) (path : string) (s s' : State) (co : CalendarObject Calendar) :
  GetCalendarObject c path s = (s', Returns (Ok co)) ->
  (exists cal, Data co = Some cal)
  /\ exists req,
       events s' = events s ++ [EvDo req]
       /\ Header_Get (req_Header req) "Accept" = "text/calendar".
Proof.
  unfold GetCalendarObject, bind, lift, Do.
  destruct (ic_NewRequest "GET" path None) as [req|err]; [|discriminate].
  destruct (ic_Do (world s) (Request_setHeader req "Accept" ical_MIMEType))
    as [w [resp|err]]; [|discriminate].
  destruct (mime_ParseMediaType _) as [mediaType|err]; [|discriminate].
  destruct (negb _); [discriminate|].
  destruct (ical_Decode (hr_Body resp)) as [cal|err]; [|discriminate].
  destruct (populateCalendarObject _ (hr_Header resp)) as [co'|err] eqn:Hpop;
    [|discriminate].
  intros [= <- <-].
  match type of Hpop with
  | populateCalendarObject ?co0 _ = _ =>
      pose proof (fun co' => populateCalendarObject_keeps co0 co' (hr_Header resp)) as Hframe
  end.
  destruct (Hframe co' Hpop) as (Hdata & _).
  split; [exists cal; exact Hdata|].
  exists (Request_setHeader req "Accept" ical_MIMEType). split; [reflexivity|].
  simpl. unfold Header_Get, Header_Set. rewrite lookup_insert_eq. reflexivity.
Qed.

(** X17.  The conditional tokens go out as the caller gave them:
    [If-Match] and [If-None-Match] carry the option values verbatim when
    these are set and are left as the fresh request had them when not;
    the content type is always [text/calendar]; no other header and no
    other part of the request is touched. *)
Theorem putRequest_headers (req : Request) (opts : option PutOptions) :
  let o := default {| IfMatch := ""; IfNoneMatch := "" |} opts in
  let sent := putRequest req opts in
  Header_Get (req_Header sent) "Content-Type" = "text/calendar"
  /\ Header_Get (req_Header sent) "If-Match"
     = (if string_eqb (IfMatch o) "" then Header_Get (req_Header req) "If-Match"
        else IfMatch o)
  /\ Header_Get (req_Header sent) "If-None-Match"
     = (if string_eqb (IfNoneMatch o) "" then Header_Get (req_Header req) "If-None-Match"
        else IfNoneMatch o)
  /\ (forall key, key <> "Content-Type" -> key <> "If-Match" -> key <> "If-None-Match" ->
      req_Header sent !! key = req_Header req !! key)
  /\ req_Method sent = req_Method req
  /\ req_Path sent = req_Path req
  /\ req_Body sent = req_Body req.
Proof.
  intros o sent. subst sent. unfold putRequest. fold o.
  unfold ConditionalMatch_IsSet.
  destruct (string_eqb (IfMatch o) ""); destruct (string_eqb (IfNoneMatch o) "");
    simpl; unfold Header_Get, Header_Set;
    repeat split; intros;
    repeat (first [rewrite lookup_insert_eq | rewrite lookup_insert_ne by congruence]);
    reflexivity.
Qed.

(** X18.  A write answered with any status other than 412 is taken as
    done: the result is the object with the caller's path filled from
    the response headers, or the error of a malformed header; when it is
    an object it carries no document. *)
Theorem PutCalendarObject_accepted
    (fuel : nat) (c : Client Calendar) (path : string) (cal : Calendar)
    (opts : option PutOptions) (s : State) (buf : bytes) (req0 : Request)
    (w : World) (resp : HTTPResponse) :
  ical_Encode cal = Ok buf ->
  ic_NewRequest "PUT" path (Some buf) = Ok req0 ->
  ic_Do (world s) (putRequest req0 opts) = (w, Ok resp) ->
  StatusCode resp <> StatusPreconditionFailed ->
  let filled :=
    populateCalendarObject
      {| Path := path; ModTime := Time_zero; ContentLength := 0; ETag := ""; Data := None |}
      (hr_Header resp) in
  PutCalendarObject (S fuel) c path cal opts s
  = (State_emit s w (EvDo (putRequest req0 opts)), Returns filled)
  /\ (forall co, filled = Ok co ->
      Data co = None /\ (Header_Get (hr_Header resp) "Location" = "" -> Path co = path)).
Proof.
  intros Hbuf Hreq Hdo Hstatus filled. split.
  - simpl. unfold bind, lift, Do. rewrite Hbuf, Hreq, Hdo.
    apply Z.eqb_neq in Hstatus. rewrite Hstatus. reflexivity.
  - intros co Hco.
    destruct (populateCalendarObject_keeps _ co (hr_Header resp) Hco)
      as (Hdata & Hpath & _).
    split; assumption.
Qed.

(** ** Query options and the filter tree *)

Lemma slice_elems_store (h : gmap loc (list CompFilter)) (sl : Slice) (i : nat)
    (v : CompFilter) :
  (i < length (slice_elems h (Some sl)))%nat ->
  slice_elems (slice_store h (Some sl) i v) (Some sl) = <[i := v]> (slice_elems h (Some sl)).
Proof.
  unfold slice_elems, slice_store. rewrite lookup_alter_eq.
  destruct (h !! sl_array sl) as [a|]; simpl;
    [|rewrite drop_nil, take_nil; simpl; intros Hi; lia].
  rewrite length_take, length_drop. intros Hi.
  rewrite drop_insert_ge by lia.
  replace (sl_off sl + i - sl_off sl)%nat with i by lia.
  apply take_insert_lt. lia.
Qed.

Lemma slice_store_other (h : gmap loc (list CompFilter)) (comps : option Slice) (i : nat)
    (v : CompFilter) (l : loc) :
  (forall sl, comps = Some sl -> sl_array sl <> l) ->
  slice_store h comps i v !! l = h !! l.
Proof.
  intros Hother. destruct comps as [sl|]; [|reflexivity]. simpl.
  apply lookup_alter_ne. apply Hother. reflexivity.
Qed.

(** The filter [c] with the range [start], [end_] written into it. *)
Definition withRange (c : CompFilter) (start end_ : Time) : CompFilter :=
  {| cf_Name := cf_Name c; cf_Start := start; cf_End := end_;
     cf_Props := cf_Props c; cf_Comps := cf_Comps c |}.

Lemma applyTimeRange_first (start end_ : Time) (token : string) (sl : Slice)
    (pre post : list CompFilter) (c : CompFilter) :
  Forall (fun c0 => cf_Name c0 <> "VEVENT") pre ->
  cf_Name c = "VEVENT" ->
  forall (i : nat) (h : gmap loc (list CompFilter)),
    applyTimeRange {| TimeRangeStart := Some start; TimeRangeEnd := Some end_;
                      qo_SyncToken := token |}
      (Some sl) (pre ++ c :: post) i h
    = (slice_store
         (slice_store h (Some sl) (i + length pre)
            {| cf_Name := cf_Name c; cf_Start := start; cf_End := cf_End c;
               cf_Props := cf_Props c; cf_Comps := cf_Comps c |})
         (Some sl) (i + length pre) (withRange c start end_),
       Returns tt).
Proof.
  intros Hpre Hc. induction Hpre as [|c0 pre Hc0 _ IH]; intros i h.
  - simpl app. simpl length. rewrite Nat.add_0_r. simpl.
    unfold string_eqb. rewrite bool_decide_eq_true_2 by assumption. reflexivity.
  - simpl app. simpl length. simpl applyTimeRange.
    unfold string_eqb. rewrite bool_decide_eq_false_2 by assumption.
    rewrite IH. replace (S i + length pre)%nat with (i + S (length pre))%nat by lia.
    reflexivity.
Qed.

Lemma QueryCalendar_range_elems
    (fuel : nat) (c : Client Calendar) (calendar token : string) (query : CalendarQuery)
    (start end_ : Time) (s : State) (pre post : list CompFilter) (child : CompFilter) :
  slice_elems (heap s) (cf_Comps (cq_CompFilter query)) = pre ++ child :: post ->
  Forall (fun c0 => cf_Name c0 <> "VEVENT") pre ->
  cf_Name child = "VEVENT" ->
  let opts := {| TimeRangeStart := Some start; TimeRangeEnd := Some end_;
                 qo_SyncToken := token |} in
  let after := heap (QueryCalendar fuel c calendar query (Some opts) s).1 in
  slice_elems after (cf_Comps (cq_CompFilter query))
  = pre ++ withRange child start end_ :: post.
Proof.
  intros Helems Hpre Hchild opts after. subst after.
  rewrite QueryCalendar_heap. simpl default. unfold applyQueryOptions. simpl orb. cbv iota.
  rewrite Helems.
  destruct (cf_Comps (cq_CompFilter query)) as [sl|] eqn:Hcomps;
    [|destruct pre; discriminate].
  rewrite (applyTimeRange_first start end_ token sl pre post child Hpre Hchild).
  cbn [fst]. change (0 + length pre)%nat with (length pre).
  assert (Hlen : (length pre < length (slice_elems (heap s) (Some sl)))%nat).
  { rewrite Helems, length_app. simpl. lia. }
  rewrite slice_elems_store.
  - rewrite slice_elems_store by assumption.
    rewrite list_insert_insert_eq, Helems.
    replace (length pre) with (length pre + 0)%nat at 1 by lia.
    rewrite insert_app_r. reflexivity.
  - rewrite slice_elems_store by assumption. rewrite length_insert. assumption.
Qed.

(** X19.  A time range with both ends set is written into the first
    direct child named VEVENT and nowhere else: the other children,
    later VEVENT children among them, and every other array of the heap
    are as before. *)
Theorem QueryCalendar_range_goes_to_first_VEVENT
    (fuel : nat) (c : Client Calendar) (calendar token : string) (query : CalendarQuery)
    (start end_ : Time) (s : State) (pre post : list CompFilter) (child : CompFilter) :
  slice_elems (heap s) (cf_Comps (cq_CompFilter query)) = pre ++ child :: post ->
  Forall (fun c0 => cf_Name c0 <> "VEVENT") pre ->
  cf_Name child = "VEVENT" ->
  let opts := {| TimeRangeStart := Some start; TimeRangeEnd := Some end_;
                 qo_SyncToken := token |} in
  let after := heap (QueryCalendar fuel c calendar query (Some opts) s).1 in
  slice_elems after (cf_Comps (cq_CompFilter query))
  = pre ++ withRange child start end_ :: post
  /\ (forall l, (forall sl, cf_Comps (cq_CompFilter query) = Some sl -> sl_array sl <> l) ->
      after !! l = heap s !! l).
Proof.
  intros Helems Hpre Hchild opts after.
  split; [exact (QueryCalendar_range_elems fuel c calendar token query start end_ s
                   pre post child Helems Hpre Hchild)|].
  subst after.
  rewrite QueryCalendar_heap. simpl default. unfold applyQueryOptions. simpl orb. cbv iota.
  rewrite Helems.
  destruct (cf_Comps (cq_CompFilter query)) as [sl|] eqn:Hcomps;
    [|destruct pre; discriminate].
  rewrite (applyTimeRange_first start end_ token sl pre post child Hpre Hchild).
  cbn [fst].
  intros l Hother. rewrite !slice_store_other by assumption.
  reflexivity.
Qed.

Lemma applyTimeRange_outcome (opts : QueryOptions) (comps : option Slice)
    (elems : list CompFilter) :
  forall (i : nat) (h : gmap loc (list CompFilter)),
    (applyTimeRange opts comps elems i h).2
    = if bool_decide (Exists (fun c0 => cf_Name c0 = "VEVENT") elems)
         && (bool_decide (TimeRangeStart opts = None)
             || bool_decide (TimeRangeEnd opts = None))
      then Panics nilDereference
      else Returns tt.
Proof.
  induction elems as [|c0 rest IH]; intros i h.
  - cbn [applyTimeRange snd].
    rewrite bool_decide_eq_false_2; [reflexivity|]. intros Hex. inversion Hex.
  - cbn [applyTimeRange]. unfold string_eqb.
    destruct (decide (cf_Name c0 = "VEVENT")) as [Hname|Hname].
    + rewrite (bool_decide_eq_true_2 (cf_Name c0 = "VEVENT")) by assumption.
      rewrite (bool_decide_eq_true_2 (Exists _ _)) by (left; assumption).
      destruct (TimeRangeStart opts); [|reflexivity].
      destruct (TimeRangeEnd opts); reflexivity.
    + rewrite (bool_decide_eq_false_2 (cf_Name c0 = "VEVENT")) by assumption.
      rewrite IH.
      replace (bool_decide (Exists (fun c1 => cf_Name c1 = "VEVENT") (c0 :: rest)))
        with (bool_decide (Exists (fun c1 => cf_Name c1 = "VEVENT") rest));
        [reflexivity|].
      apply bool_decide_ext. rewrite Exists_cons. tauto.
Qed.

(** The panics of [QueryCalendar] once [query] is dereferenced. *)
Lemma QueryCalendar_deref_panics_iff
    (fuel : nat) (c : Client Calendar) (calendar : string) (query : CalendarQuery)
    (opts : option QueryOptions) (s : State) (why : string) :
  (QueryCalendar fuel c calendar query opts s).2 = Panics why
  <-> why = nilDereference
      /\ Exists (fun c0 => cf_Name c0 = "VEVENT")
           (slice_elems (heap s) (cf_Comps (cq_CompFilter query)))
      /\ exists o, opts = Some o
           /\ ((TimeRangeStart o = None /\ TimeRangeEnd o <> None)
               \/ (TimeRangeStart o <> None /\ TimeRangeEnd o = None)).
Proof.
  unfold QueryCalendar.
  set (o := default _ opts).
  pose proof (applyTimeRange_outcome o (cf_Comps (cq_CompFilter query))
                (slice_elems (heap s) (cf_Comps (cq_CompFilter query))) 0 (heap s)) as Hout.
  unfold applyQueryOptions.
  destruct (bool_decide (TimeRangeStart o <> None) || bool_decide (TimeRangeEnd o <> None))
    eqn:Hguard.
  - destruct (applyTimeRange o _ _ 0 (heap s)) as [h1 ranged]. simpl in Hout. subst ranged.
    destruct (bool_decide (Exists _ _)) eqn:Hex; simpl andb.
    + apply bool_decide_eq_true_1 in Hex.
      destruct opts as [o'|]; [|discriminate]. simpl in o. subst o.
      destruct (TimeRangeStart o') as [t1|] eqn:Hs; destruct (TimeRangeEnd o') as [t2|] eqn:He;
        simpl in Hguard |- *; try discriminate.
      * split; [|intros (_ & _ & o2 & [= <-] & [[H1 _]|[_ H2]]);
                  [rewrite Hs in H1|rewrite He in H2]; discriminate].
        destruct (encodeCalendarReq _); [|discriminate].
        destruct (encodeCompFilter _ _ _); [|discriminate].
        unfold reportAndDecode. destruct (ic_NewXMLRequest_calendarQuery _ _ _ _);
          [|discriminate].
        unfold DoMultiStatus. destruct (ic_DoMultiStatus _ _) as [w [ms|err]]; discriminate.
      * split; [intros [= <-]|intros (-> & _); reflexivity].
        split; [reflexivity|]. split; [assumption|]. exists o'. split; [reflexivity|].
        right. rewrite Hs, He. split; [discriminate|reflexivity].
      * split; [intros [= <-]|intros (-> & _); reflexivity].
        split; [reflexivity|]. split; [assumption|]. exists o'. split; [reflexivity|].
        left. rewrite Hs, He. split; [reflexivity|discriminate].
    + apply bool_decide_eq_false_1 in Hex.
      split; [|intros (_ & Hex' & _); contradiction].
      destruct (encodeCalendarReq _); [|discriminate].
      destruct (encodeCompFilter _ _ _); [|discriminate].
      unfold reportAndDecode. destruct (ic_NewXMLRequest_calendarQuery _ _ _ _);
        [|discriminate].
      unfold DoMultiStatus. destruct (ic_DoMultiStatus _ _) as [w [ms|err]]; discriminate.
  - apply orb_false_iff in Hguard as [Hs He].
    apply bool_decide_eq_false_1 in Hs, He.
    split.
    + destruct (encodeCalendarReq _); [|discriminate].
      destruct (encodeCompFilter _ _ _); [|discriminate].
      unfold reportAndDecode. destruct (ic_NewXMLRequest_calendarQuery _ _ _ _);
        [|discriminate].
      unfold DoMultiStatus. destruct (ic_DoMultiStatus _ _) as [w [ms|err]]; discriminate.
    + intros (_ & _ & o2 & -> & [[H1 H2]|[H1 H2]]); simpl in o; subst o.
      * exfalso. apply He. intros Hnone. apply H2. exact Hnone.
      * exfalso. apply Hs. intros Hnone. apply H1. exact Hnone.
Qed.

(** [QueryCalendar] as it is called, with [query] the caller's pointer,
    nil or not: [modifiedQuery := *query] (client.go:304) dereferences
    it before anything else. *)
Definition QueryCalendar_ptr (fuel : nat) (c : Client Calendar) (calendar : string)
    (query : option CalendarQuery) (opts : option QueryOptions) : ListM :=
  fun s =>
    match query with
    | None => (s, Panics nilDereference)
    | Some q => QueryCalendar fuel c calendar q opts s
    end.

(** X20.  With a client and a context in hand, and whatever the
    substrate answers, [QueryCalendar] panics exactly when [query] is
    nil, or when the options set one end of the time range and not the
    other while the filter has a direct child named VEVENT; the panic
    is the nil dereference. *)
Theorem QueryCalendar_panics_iff
    (fuel : nat) (c : Client Calendar) (calendar : string) (query : option CalendarQuery)
    (opts : option QueryOptions) (s : State) (why : string) :
  (QueryCalendar_ptr fuel c calendar query opts s).2 = Panics why
  <-> why = nilDereference
      /\ (query = None
          \/ exists q, query = Some q
               /\ Exists (fun c0 => cf_Name c0 = "VEVENT")
                    (slice_elems (heap s) (cf_Comps (cq_CompFilter q)))
               /\ exists o, opts = Some o
                    /\ ((TimeRangeStart o = None /\ TimeRangeEnd o <> None)
                        \/ (TimeRangeStart o <> None /\ TimeRangeEnd o = None))).
Proof.
  unfold QueryCalendar_ptr. destruct query as [q|].
  - rewrite QueryCalendar_deref_panics_iff. split.
    + intros (-> & Hex & Hopts). split; [reflexivity|].
      right. exists q. split; [reflexivity|]. split; assumption.
    + intros (-> & [Hnil|(q' & [= <-] & Hex & Hopts)]); [discriminate|].
      split; [reflexivity|]. split; assumption.
  - simpl. split.
    + intros [= <-]. split; [reflexivity|left; reflexivity].
    + intros (-> & _). reflexivity.
Qed.

(** X21.  A time range for a filter without a direct child named VEVENT
    is dropped without a trace: the call runs exactly as it does with nil
    options. *)
Theorem QueryCalendar_range_without_VEVENT
    (fuel : nat) (c : Client Calendar) (calendar : string) (query : CalendarQuery)
    (opts : QueryOptions) (s : State) :
  Forall (fun c0 => cf_Name c0 <> "VEVENT")
    (slice_elems (heap s) (cf_Comps (cq_CompFilter query))) ->
  QueryCalendar fuel c calendar query (Some opts) s
  = QueryCalendar fuel c calendar query None s.
Proof.
  intros Hno. unfold QueryCalendar, applyQueryOptions. simpl default.
  rewrite applyTimeRange_no_VEVENT by assumption.
  destruct (_ || _); reflexivity.
Qed.

Lemma applyTimeRange_token (start end_ : option Time) (token token' : string)
    (comps : option Slice) (elems : list CompFilter) :
  forall (i : nat) (h : gmap loc (list CompFilter)),
    applyTimeRange {| TimeRangeStart := start; TimeRangeEnd := end_;
                      qo_SyncToken := token |} comps elems i h
    = applyTimeRange {| TimeRangeStart := start; TimeRangeEnd := end_;
                        qo_SyncToken := token' |} comps elems i h.
Proof.
  induction elems as [|c0 rest IH]; intros i h; [reflexivity|].
  cbn [applyTimeRange]. destruct (string_eqb (cf_Name c0) "VEVENT"); [reflexivity|].
  apply IH.
Qed.

(** X30.  The [SyncToken] of the query options has no effect on
    [QueryCalendar]: two calls that differ only in it run alike, in
    what they send, what they write and what they return. *)
Theorem QueryCalendar_ignores_SyncToken
    (fuel : nat) (c : Client Calendar) (calendar : string) (query : CalendarQuery)
    (start end_ : option Time) (token token' : string) (s : State) :
  QueryCalendar fuel c calendar query
    (Some {| TimeRangeStart := start; TimeRangeEnd := end_; qo_SyncToken := token |}) s
  = QueryCalendar fuel c calendar query
      (Some {| TimeRangeStart := start; TimeRangeEnd := end_; qo_SyncToken := token' |}) s.
Proof.
  unfold QueryCalendar, applyQueryOptions. simpl default.
  cbn [TimeRangeStart TimeRangeEnd].
  rewrite (applyTimeRange_token start end_ token token'). reflexivity.
Qed.

(** ** The encoder *)

Lemma encodeCalendarCompReq_total :
  forall c : CalendarCompRequest, exists e, encodeCalendarCompReq c = Ok e.
Proof.
  fix IH 1. intros [name allProps props allComps comps ex]. simpl.
  assert (Heach : forall acc,
             exists cs,
               (fix each (l : list CalendarCompRequest) (acc : list comp)
                  : result (list comp) :=
                  match l with
                  | [] => Ok acc
                  | child :: l' =>
                      match encodeCalendarCompReq child with
                      | Failed e => Failed e
                      | Ok encodedChild => each l' (acc ++ [encodedChild])
                      end
                  end) comps acc = Ok cs).
  { induction comps as [|child rest IHrest]; intros acc.
    - exists acc. reflexivity.
    - destruct (IH child) as [e He]. rewrite He. apply IHrest. }
  destruct (Heach []) as [cs Hcs]. rewrite Hcs. eexists. reflexivity.
Qed.

(** X22.  [encodeCalendarCompReq] never returns an error, whatever the
    request tree, so [encodeCalendarReq] fails only when the substrate
    refuses to encode the three properties it asks for: calendar-data
    with the encoded tree, getlastmodified and getetag. *)
Theorem encodeCalendarReq_fails_only_in_EncodeProp (c : CalendarCompRequest) :
  exists e,
    encodeCalendarCompReq c = Ok e
    /\ encodeCalendarReq c
       = internal_EncodeProp
           [calendarDataReqValue
              {| cdr_Comp := Some e; cdr_Expand := encodeExpandRequest (cr_Expand c) |};
            rawXMLElement GetLastModifiedName;
            rawXMLElement GetETagName].
Proof.
  destruct (encodeCalendarCompReq_total c) as [e He]. exists e.
  split; [exact He|]. unfold encodeCalendarReq. rewrite He. reflexivity.
Qed.

(** The time-range clause of a node. *)
Definition rangeClause (start end_ : Time) : option timeRange :=
  if negb (Time_IsZero start) || negb (Time_IsZero end_)
  then Some {| tr_Start := start; tr_End := end_ |}
  else None.

Lemma encodeCompFilter_children (fuel : nat) (h : gmap loc (list CompFilter))
    (l : list CompFilter) :
  forall acc : list compFilter,
    (fix each (l : list CompFilter) (acc : list compFilter) : option (list compFilter) :=
       match l with
       | [] => Some acc
       | child :: l' =>
           match encodeCompFilter fuel h child with
           | None => None
           | Some encodedChild => each l' (acc ++ [encodedChild])
           end
       end) l acc
    = (fun cs => acc ++ cs) <$> mapM (encodeCompFilter fuel h) l.
Proof.
  induction l as [|child rest IH]; intros acc; simpl.
  - rewrite app_nil_r. reflexivity.
  - destruct (encodeCompFilter fuel h child) as [e|]; [|reflexivity].
    rewrite IH. simpl. destruct (mapM (encodeCompFilter fuel h) rest) as [cs|]; simpl.
    + rewrite <- app_assoc. reflexivity.
    + reflexivity.
Qed.

(** The encoder, read as a map over the children. *)
Lemma encodeCompFilter_unfold (fuel : nat) (h : gmap loc (list CompFilter))
    (filter : CompFilter) :
  encodeCompFilter (S fuel) h filter
  = (mk_compFilter (cf_Name filter) (rangeClause (cf_Start filter) (cf_End filter))
       (map encodePropFilter (cf_Props filter)))
    <$> mapM (encodeCompFilter fuel h) (slice_elems h (cf_Comps filter)).
Proof.
  simpl. rewrite encodeCompFilter_children.
  destruct (mapM (encodeCompFilter fuel h) (slice_elems h (cf_Comps filter))); reflexivity.
Qed.

(** The encoding of a filter that has no children. *)
Definition encodeLeaf (c0 : CompFilter) : compFilter :=
  mk_compFilter (cf_Name c0) (rangeClause (cf_Start c0) (cf_End c0))
    (map encodePropFilter (cf_Props c0)) [].

Lemma encodeCompFilter_leaf (fuel : nat) (h : gmap loc (list CompFilter))
    (c0 : CompFilter) :
  cf_Comps c0 = None -> encodeCompFilter (S fuel) h c0 = Some (encodeLeaf c0).
Proof. intros Hleaf. rewrite encodeCompFilter_unfold, Hleaf. reflexivity. Qed.

Lemma encodeCompFilter_leaves (fuel : nat) (h : gmap loc (list CompFilter))
    (l : list CompFilter) :
  Forall (fun c0 => cf_Comps c0 = None) l ->
  mapM (encodeCompFilter (S fuel) h) l = Some (map encodeLeaf l).
Proof.
  induction 1 as [|c0 rest Hleaf _ IH]; [reflexivity|].
  cbn [mapM map]. rewrite (encodeCompFilter_leaf fuel h c0 Hleaf), IH. reflexivity.
Qed.

(** X23.  The range reaches the request.  For a filter whose children
    have no children of their own, a call with both ends of the range
    set hands the request builder the encoding of the filter in which
    the first VEVENT child carries a time-range clause with exactly the
    two instants of the options (and none when both are the zero
    instant), the other children being encoded as they were; the
    request so built is the one REPORT sent, with a Depth header added,
    and the call returns what the decoder makes of the answer. *)
Theorem QueryCalendar_encodes_the_range
    (fuel : nat) (c : Client Calendar) (calendar token : string)
    (query : CalendarQuery) (start end_ : Time) (s : State)
    (pre post : list CompFilter) (child : CompFilter)
    (propReq : internalProp) (req : Request) (w : World) (answer : result MultiStatus) :
  slice_elems (heap s) (cf_Comps (cq_CompFilter query)) = pre ++ child :: post ->
  Forall (fun c0 => cf_Name c0 <> "VEVENT") pre ->
  cf_Name child = "VEVENT" ->
  Forall (fun c0 => cf_Comps c0 = None) (pre ++ child :: post) ->
  encodeCalendarReq (CompRequest query) = Ok propReq ->
  let opts := {| TimeRangeStart := Some start; TimeRangeEnd := Some end_;
                 qo_SyncToken := token |} in
  let root := cq_CompFilter query in
  let sent :=
    mk_compFilter (cf_Name root) (rangeClause (cf_Start root) (cf_End root))
      (map encodePropFilter (cf_Props root))
      (map encodeLeaf pre
       ++ mk_compFilter "VEVENT"
            (if (start =? 0) && (end_ =? 0) then None
             else Some {| tr_Start := start; tr_End := end_ |})
            (map encodePropFilter (cf_Props child)) []
          :: map encodeLeaf post) in
  ic_NewXMLRequest_calendarQuery "REPORT" calendar propReq sent = Ok req ->
  ic_DoMultiStatus (world s) (Request_addHeader req "Depth" "1") = (w, answer) ->
  let run := QueryCalendar (S (S fuel)) c calendar query (Some opts) s in
  events run.1 = events s ++ [EvDoMultiStatus (Request_addHeader req "Depth" "1")]
  /\ world run.1 = w
  /\ run.2 = Returns match answer with
                     | Ok ms => decodeCalendarObjectList ms
                     | Failed err => ([], Some err)
                     end.
Proof.
  intros Helems Hpre Hchild Hleaves Hprop opts root sent Hreq Hdo run.
  pose proof (QueryCalendar_range_elems (S (S fuel)) c calendar token query
                start end_ s pre post child Helems Hpre Hchild) as Hafter.
  cbv zeta in Hafter. rewrite QueryCalendar_heap in Hafter. simpl default in Hafter.
  fold opts in Hafter.
  assert (Hranged : (applyQueryOptions query opts (heap s)).2 = Returns tt).
  { unfold applyQueryOptions, opts. simpl orb. cbv iota. rewrite Helems.
    destruct (cf_Comps (cq_CompFilter query)) as [sl|]; [|destruct pre; discriminate].
    rewrite (applyTimeRange_first start end_ token sl pre post child Hpre Hchild).
    reflexivity. }
  unfold run, QueryCalendar. simpl default. fold opts.
  destruct (applyQueryOptions query opts (heap s)) as [h1 ranged].
  cbn [fst snd] in Hafter, Hranged. subst ranged.
  rewrite Hprop.
  assert (Henc : encodeCompFilter (S (S fuel)) h1 (cq_CompFilter query) = Some sent).
  { rewrite encodeCompFilter_unfold, Hafter.
    rewrite encodeCompFilter_leaves.
    - unfold sent, root. cbn [fmap option_fmap option_map]. rewrite map_app. cbn [map].
      do 4 f_equal. unfold encodeLeaf, withRange, rangeClause, Time_IsZero, Time_zero.
      cbn [cf_Name cf_Start cf_End cf_Props]. rewrite Hchild.
      destruct (start =? 0); destruct (end_ =? 0); reflexivity.
    - apply Forall_app in Hleaves as [Hl Hr]. apply Forall_cons in Hr as [Hc Hr].
      apply Forall_app. split; [exact Hl|]. constructor; [exact Hc|exact Hr]. }
  rewrite Henc. unfold reportAndDecode. rewrite Hreq. unfold DoMultiStatus.
  cbn [world]. rewrite Hdo.
  destruct answer as [ms|err]; repeat split.
Qed.

(** ** The decoder, once more *)

Lemma decodeLoop_cases (resps : list Response) :
  forall (addrs : list (CalendarObject Calendar)) (errs : list error),
    (Forall (fun resp => entryAbort resp = None) resps
     /\ decodeLoop resps addrs errs
        = (addrs ++ flat_map entryObject resps,
           errors_Join (errs ++ flat_map entryPathError resps)))
    \/ (exists resp err,
           In resp resps /\ entryAbort resp = Some err
           /\ decodeLoop resps addrs errs = ([], Some err)).
Proof.
  induction resps as [|resp rest IH]; intros addrs errs.
  - left. split; [constructor|]. simpl. rewrite !app_nil_r. reflexivity.
  - rewrite decodeLoop_cons. destruct (entryAbort resp) as [err|] eqn:Habort.
    + right. exists resp, err. split; [left; reflexivity|]. split; [assumption|reflexivity].
    + destruct (IH (addrs ++ entryObject resp) (errs ++ entryPathError resp))
        as [[Hclean Heq]|(resp' & err & Hin & Habort' & Heq)].
      * left. split; [constructor; assumption|].
        rewrite Heq. simpl. rewrite <- !app_assoc. reflexivity.
      * right. exists resp', err. split; [right; assumption|]. split; assumption.
Qed.

Lemma errors_Join_None (errs : list error) : errors_Join errs = None -> errs = [].
Proof. destruct errs; [reflexivity|discriminate]. Qed.

(** X24.  A nil error from the decoder means that nothing went wrong
    for any entry: every entry had a path, none aborted the call, and
    the objects returned are those of all the entries, in order. *)
Theorem decodeCalendarObjectList_nil_error (ms : MultiStatus) :
  (decodeCalendarObjectList (Calendar := Calendar) ms).2 = None ->
  Forall (fun resp => (exists path, resp_Path resp = Ok path) /\ entryAbort resp = None)
    (Responses ms)
  /\ (decodeCalendarObjectList ms).1 = flat_map entryObject (Responses ms).
Proof.
  unfold decodeCalendarObjectList.
  destruct (decodeLoop_cases (Responses ms) [] [])
    as [[Hclean Heq]|(resp & err & _ & _ & Heq)]; rewrite Heq; simpl; [|discriminate].
  intros Hjoin. apply errors_Join_None in Hjoin. split; [|reflexivity].
  clear Heq. revert Hclean Hjoin.
  generalize (Responses ms) as resps.
  induction resps as [|resp rest IH]; intros Hclean Hjoin; [constructor|].
  apply Forall_cons in Hclean as [Hresp Hclean].
  simpl in Hjoin. apply app_eq_nil in Hjoin as [Hhere Hrest].
  constructor; [|apply IH; assumption].
  split; [|assumption]. unfold entryPathError in Hhere.
  destruct (resp_Path resp) as [path|e]; [exists path; reflexivity|discriminate].
Qed.

Lemma entryObject_one (resp : Response) :
  (length (entryObject resp) + length (entryPathError resp) <= 1)%nat
  /\ Forall (fun obj : CalendarObject Calendar => Data obj <> None) (entryObject resp).
Proof.
  unfold entryObject, entryPathError.
  destruct (resp_Path resp) as [path|err]; [|split; [simpl; lia|constructor]].
  destruct (decodePropOr "" (resp_calendarData resp)) as [calData|err];
    [|split; [simpl; lia|constructor]].
  destruct (len calData =? 0); [split; [simpl; lia|constructor]|].
  destruct (decodePropOr Time_zero (resp_getLastModified resp));
    [|split; [simpl; lia|constructor]].
  destruct (decodePropOr "" (resp_getETag resp)); [|split; [simpl; lia|constructor]].
  destruct (decodePropOr 0 (resp_getContentLength resp)); [|split; [simpl; lia|constructor]].
  destruct (ical_Decode calData); [|split; [simpl; lia|constructor]].
  split; [simpl; lia|]. repeat constructor. discriminate.
Qed.

(** X25.  Every object the decoder returns carries a document, and no
    entry counts twice: the objects returned and the entries whose path
    could not be extracted together number at most the entries of the
    answer. *)
Theorem decodeCalendarObjectList_objects (ms : MultiStatus) :
  Forall (fun obj : CalendarObject Calendar => Data obj <> None)
    (decodeCalendarObjectList ms).1
  /\ (length (decodeCalendarObjectList (Calendar := Calendar) ms).1
      + length (flat_map entryPathError (Responses ms))
      <= length (Responses ms))%nat.
Proof.
  assert (Hcount : forall resps : list Response,
             (length (flat_map (entryObject (Calendar := Calendar)) resps)
              + length (flat_map entryPathError resps) <= length resps)%nat
             /\ (length (flat_map entryPathError resps) <= length resps)%nat
             /\ Forall (fun obj : CalendarObject Calendar => Data obj <> None)
                  (flat_map entryObject resps)).
  { induction resps as [|resp rest (IH1 & IH2 & IH3)]; simpl.
    - repeat split; try lia. constructor.
    - destruct (entryObject_one resp) as [Hone Hdata].
      rewrite !length_app. repeat split; try lia.
      apply Forall_app. split; assumption. }
  unfold decodeCalendarObjectList.
  destruct (Hcount (Responses ms)) as (H1 & H2 & H3).
  destruct (decodeLoop_cases (Responses ms) [] [])
    as [[Hclean Heq]|(resp & err & _ & _ & Heq)]; rewrite Heq; simpl.
  - split; assumption.
  - split; [constructor|lia].
Qed.

(** ** Multiget *)

(** [MultiGetCalendar] once [multiGet] is dereferenced. *)
Lemma MultiGetCalendar_deref_one_report
    (c : Client Calendar) (path : string) (multiGet : CalendarMultiGet) (s : State) :
  let run := MultiGetCalendar c path multiGet s in
  heap run.1 = heap s
  /\ (exists r, run.2 = Returns r)
  /\ ((run.1 = s /\ exists err, run.2 = Returns ([], Some err))
      \/ (exists propReq req,
             encodeCalendarReq (mg_CompRequest multiGet) = Ok propReq
             /\ ic_NewXMLRequest_calendarMultiget "REPORT" path propReq
                  match mg_Paths multiGet with
                  | [] => [path]
                  | paths => paths
                  end = Ok req
             /\ events run.1
                = events s ++ [EvDoMultiStatus (Request_addHeader req "Depth" "1")])).
Proof.
  unfold MultiGetCalendar.
  destruct (encodeCalendarReq (mg_CompRequest multiGet)) as [propReq|err] eqn:Hprop; simpl.
  2:{ split; [reflexivity|]. split; [eexists; reflexivity|].
      left. split; [reflexivity|]. eexists; reflexivity. }
  destruct (ic_NewXMLRequest_calendarMultiget "REPORT" path propReq
              match mg_Paths multiGet with
              | [] => [path]
              | paths => paths
              end)
    as [req|err] eqn:Hreq; simpl.
  2:{ split; [reflexivity|]. split; [eexists; reflexivity|].
      left. split; [reflexivity|]. eexists; reflexivity. }
  unfold DoMultiStatus.
  destruct (ic_DoMultiStatus (world s) (Request_addHeader req "Depth" "1")) as [w [ms|err]];
    simpl.
  - split; [reflexivity|]. split; [eexists; reflexivity|].
    right. exists propReq, req.
    split; [reflexivity|]. split; [first [reflexivity|exact Hreq]|reflexivity].
  - split; [reflexivity|]. split; [eexists; reflexivity|].
    right. exists propReq, req.
    split; [reflexivity|]. split; [first [reflexivity|exact Hreq]|reflexivity].
Qed.

(** [MultiGetCalendar] as it is called, with [multiGet] the caller's
    pointer, nil or not: [&multiGet.CompRequest] (client.go:342)
    dereferences it before anything else. *)
Definition MultiGetCalendar_ptr (c : Client Calendar) (path : string)
    (multiGet : option CalendarMultiGet) : ListM :=
  fun s =>
    match multiGet with
    | None => (s, Panics nilDereference)
    | Some mg => MultiGetCalendar c path mg s
    end.

(** X26.  With a client and a context in hand, and whatever the
    substrate answers, [MultiGetCalendar] panics exactly when
    [multiGet] is nil, and then nothing has been sent; it never writes
    to a filter array.  On a [multiGet] that is not nil it either fails
    without contacting the server, or it sends exactly one REPORT,
    built for the listed paths, or for the collection path itself when
    none is listed, with a Depth header added. *)
Theorem MultiGetCalendar_one_report
    (c : Client Calendar) (path : string) (multiGet : option CalendarMultiGet)
    (s : State) :
  let run := MultiGetCalendar_ptr c path multiGet s in
  heap run.1 = heap s
  /\ (forall why, run.2 = Panics why <-> multiGet = None /\ why = nilDereference)
  /\ (multiGet = None -> run.1 = s)
  /\ (forall mg,
         multiGet = Some mg ->
         (run.1 = s /\ exists err, run.2 = Returns ([], Some err))
         \/ (exists propReq req,
                encodeCalendarReq (mg_CompRequest mg) = Ok propReq
                /\ ic_NewXMLRequest_calendarMultiget "REPORT" path propReq
                     match mg_Paths mg with
                     | [] => [path]
                     | paths => paths
                     end = Ok req
                /\ events run.1
                   = events s ++ [EvDoMultiStatus (Request_addHeader req "Depth" "1")])).
Proof.
  unfold MultiGetCalendar_ptr. destruct multiGet as [mg|]; cbv zeta.
  - destruct (MultiGetCalendar_deref_one_report c path mg s) as (Hheap & [r Hr] & Hsent).
    split; [exact Hheap|]. split; [|split].
    + intros why. rewrite Hr. split; [discriminate|intros [? _]; discriminate].
    + discriminate.
    + intros mg' [= <-]. exact Hsent.
  - simpl. split; [reflexivity|]. split; [|split].
    + intros why. split.
      * intros [= <-]. split; reflexivity.
      * intros [_ ->]. reflexivity.
    + reflexivity.
    + discriminate.
Qed.

End MoreOfCaldav.

(** * Listing the calendars of a home set (client.go) *)

(** The collection record of the package, with the fields that the
    literal in [FindCalendars] fills. *)
Record Calendar : Type := mkCalendar {
  cal_Path : string;
  cal_Name : string;
  cal_Description : string;
  MaxResourceSize : Z;
  SupportedComponentSet : list string
}.

(** The property names [FindCalendars] asks for. *)
Inductive PropName : Type :=
| ResourceTypeName
| DisplayNameName
| calendarDescriptionName
| maxResourceSizeName
| supportedCalendarComponentSetName.

(** An entry of the PROPFIND answer, as the record of what the
    accessors called by [FindCalendars] answer on it. *)
Record CollectionEntry : Type := mkCollectionEntry {
  ce_Path : result string;                     (* resp.Path() *)
  ce_isCalendar : result bool;                 (* resp.DecodeProp(&resType), then
                                                  resType.Is(calendarName) *)
  ce_description : result string;              (* resp.DecodeProp(&desc) *)
  ce_displayName : result string;              (* resp.DecodeProp(&dispName) *)
  ce_maxResourceSize : result Z;               (* resp.DecodeProp(&maxResSize) *)
  ce_supportedComps : result (list string)     (* resp.DecodeProp(&supportedCompSet),
                                                  the names of its Comp *)
}.

Section Collections.

Context {icalCalendar : Type} `{substrate : Substrate icalCalendar}.

(** [c.ic.PropFind(ctx, path, depth, propfind)], with the entries of
    the multistatus it answers. *)
Variable ic_PropFind :
  World -> string -> Depth -> list PropName -> World * result (list CollectionEntry).

Definition negativeSize : error :=
  fmtError "carddav: max-resource-size must be a positive integer" [].

(** The loop of [FindCalendars] over [ms.Responses], with [l] and
    [errs] as they stand before the remaining entries. *)
Fixpoint findLoop (resps : list CollectionEntry) (l : list Calendar) (errs : list error)
    : list Calendar * option error :=
  match resps with
  | [] => (l, errors_Join errs)
  | resp :: rest =>
      match ce_Path resp with
      | Failed err => findLoop rest l (errs ++ [err])
      | Ok path =>
          match ce_isCalendar resp with
          | Failed err => ([], Some err)
          | Ok false => findLoop rest l errs
          | Ok true =>
              match decodePropOr "" (ce_description resp) with
              | Failed err => ([], Some err)
              | Ok desc =>
                  match decodePropOr "" (ce_displayName resp) with
                  | Failed err => ([], Some err)
                  | Ok dispName =>
                      match decodePropOr 0 (ce_maxResourceSize resp) with
                      | Failed err => ([], Some err)
                      | Ok size =>
                          if size <? 0 then ([], Some negativeSize)
                          else
                            match decodePropOr [] (ce_supportedComps resp) with
                            | Failed err => ([], Some err)
                            | Ok compNames =>
                                findLoop rest
                                  (l ++ [{| cal_Path := path;
                                            cal_Name := dispName;
                                            cal_Description := desc;
                                            MaxResourceSize := size;
                                            SupportedComponentSet := compNames |}])
                                  errs
                            end
                      end
                  end
              end
          end
      end
  end.

(** [FindCalendars(ctx, calendarHomeSet)] *)
Definition FindCalendars (c : Client icalCalendar) (calendarHomeSet : string) (w : World)
    : World * (list Calendar * option error) :=
  match ic_PropFind w calendarHomeSet DepthOne
          [ResourceTypeName; DisplayNameName; calendarDescriptionName;
           maxResourceSizeName; supportedCalendarComponentSetName] with
  | (w', Failed err) => (w', ([], Some err))
  | (w', Ok responses) => (w', findLoop responses [] [])
  end.

(** What one entry contributes when the loop runs through it. *)
Definition findAbort (resp : CollectionEntry) : option error :=
  match ce_Path resp with
  | Failed _ => None
  | Ok _ =>
      match ce_isCalendar resp with
      | Failed err => Some err
      | Ok false => None
      | Ok true =>
          match decodePropOr "" (ce_description resp) with
          | Failed err => Some err
          | Ok _ =>
              match decodePropOr "" (ce_displayName resp) with
              | Failed err => Some err
              | Ok _ =>
                  match decodePropOr 0 (ce_maxResourceSize resp) with
                  | Failed err => Some err
                  | Ok size =>
                      if size <? 0 then Some negativeSize
                      else match decodePropOr [] (ce_supportedComps resp) with
                           | Failed err => Some err
                           | Ok _ => None
                           end
                  end
              end
          end
      end
  end.

Definition findCalendar (resp : CollectionEntry) : list Calendar :=
  match ce_Path resp, ce_isCalendar resp with
  | Ok path, Ok true =>
      match decodePropOr "" (ce_description resp),
            decodePropOr "" (ce_displayName resp),
            decodePropOr 0 (ce_maxResourceSize resp),
            decodePropOr [] (ce_supportedComps resp) with
      | Ok desc, Ok dispName, Ok size, Ok compNames =>
          if size <? 0 then []
          else [{| cal_Path := path; cal_Name := dispName; cal_Description := desc;
                   MaxResourceSize := size; SupportedComponentSet := compNames |}]
      | _, _, _, _ => []
      end
  | _, _ => []
  end.

Definition findPathError (resp : CollectionEntry) : list error :=
  match ce_Path resp with
  | Failed err => [err]
  | Ok _ => []
  end.

Lemma findLoop_cons (resp : CollectionEntry) (rest : list CollectionEntry)
    (l : list Calendar) (errs : list error) :
  findLoop (resp :: rest) l errs
  = match findAbort resp with
    | Some err => ([], Some err)
    | None => findLoop rest (l ++ findCalendar resp) (errs ++ findPathError resp)
    end.
Proof.
  simpl. unfold findAbort, findCalendar, findPathError.
  destruct (ce_Path resp) as [path|err]; [|rewrite app_nil_r; reflexivity].
  destruct (ce_isCalendar resp) as [[|]|err]; [|rewrite !app_nil_r; reflexivity|reflexivity].
  destruct (decodePropOr "" (ce_description resp)) as [desc|err]; [|reflexivity].
  destruct (decodePropOr "" (ce_displayName resp)) as [dispName|err]; [|reflexivity].
  destruct (decodePropOr 0 (ce_maxResourceSize resp)) as [size|err]; [|reflexivity].
  destruct (size <? 0); [reflexivity|].
  destruct (decodePropOr [] (ce_supportedComps resp)) as [compNames|err]; [|reflexivity].
  rewrite app_nil_r. reflexivity.
Qed.

Lemma findLoop_cases (resps : list CollectionEntry) :
  forall (l : list Calendar) (errs : list error),
    (Forall (fun resp => findAbort resp = None) resps
     /\ findLoop resps l errs
        = (l ++ flat_map findCalendar resps,
           errors_Join (errs ++ flat_map findPathError resps)))
    \/ (exists pre resp post err,
           resps = pre ++ resp :: post
           /\ Forall (fun resp' => findAbort resp' = None) pre
           /\ findAbort resp = Some err
           /\ findLoop resps l errs = ([], Some err)).
Proof.
  induction resps as [|resp rest IH]; intros l errs.
  - left. split; [constructor|]. simpl. rewrite !app_nil_r. reflexivity.
  - rewrite findLoop_cons. destruct (findAbort resp) as [err|] eqn:Habort.
    + right. exists [], resp, rest, err. repeat split; [constructor|assumption].
    + destruct (IH (l ++ findCalendar resp) (errs ++ findPathError resp))
        as [[Hclean Heq]|(pre & resp' & post & err & -> & Hpre & Habort' & Heq)].
      * left. split; [constructor; assumption|].
        rewrite Heq. simpl. rewrite <- !app_assoc. reflexivity.
      * right. exists (resp :: pre), resp', post, err.
        repeat split; [constructor; assumption|assumption|assumption].
Qed.

Lemma findCalendar_sound (resp : CollectionEntry) (cal : Calendar) :
  In cal (findCalendar resp) ->
  ce_Path resp = Ok (cal_Path cal) /\ ce_isCalendar resp = Ok true
  /\ 0 <= MaxResourceSize cal.
Proof.
  unfold findCalendar.
  destruct (ce_Path resp) as [path|err]; [|intros []].
  destruct (ce_isCalendar resp) as [[|]|err]; [|intros []|intros []].
  destruct (decodePropOr "" (ce_description resp)) as [desc|err]; [|intros []].
  destruct (decodePropOr "" (ce_displayName resp)) as [dispName|err]; [|intros []].
  destruct (decodePropOr 0 (ce_maxResourceSize resp)) as [size|err]; [|intros []].
  destruct (decodePropOr [] (ce_supportedComps resp)) as [compNames|err]; [|intros []].
  destruct (size <? 0) eqn:Hsize; [intros []|].
  intros [<-|[]]. simpl. repeat split. lia.
Qed.

Lemma findLoop_result (resps : list CollectionEntry) :
  (findLoop resps [] []).1 = []
  \/ (findLoop resps [] []).1 = flat_map findCalendar resps.
Proof.
  destruct (findLoop_cases resps [] [])
    as [[_ Heq]|(pre & resp & post & err & _ & _ & _ & Heq)]; rewrite Heq; simpl.
  - right. reflexivity.
  - left. reflexivity.
Qed.

(** X27.  Whatever the server answers, every calendar that
    [FindCalendars] returns comes from an entry of the answer that gave
    that path and declared the calendar resource type, and its maximum
    resource size is not negative.  This holds for what is returned
    beside an error as well. *)
Theorem FindCalendars_returns_only_calendars
    (c : Client icalCalendar) (calendarHomeSet : string) (w : World) (cal : Calendar) :
  In cal (FindCalendars c calendarHomeSet w).2.1 ->
  0 <= MaxResourceSize cal
  /\ exists responses resp,
       (ic_PropFind w calendarHomeSet DepthOne
          [ResourceTypeName; DisplayNameName; calendarDescriptionName;
           maxResourceSizeName; supportedCalendarComponentSetName]).2 = Ok responses
       /\ In resp responses
       /\ ce_Path resp = Ok (cal_Path cal)
       /\ ce_isCalendar resp = Ok true.
Proof.
  unfold FindCalendars.
  destruct (ic_PropFind w calendarHomeSet DepthOne _) as [w' [responses|err]]; simpl;
    [|intros []].
  destruct (findLoop_result responses) as [-> | ->]; [intros []|].
  intros Hin. apply in_flat_map in Hin as (resp & Hresp & Hcal).
  destruct (findCalendar_sound resp cal Hcal) as (Hpath & Hres & Hsize).
  split; [exact Hsize|]. exists responses, resp. repeat split; assumption.
Qed.

(** X28.  One bad entry spoils the listing: when an entry with a path
    fails to give its resource type, whatever the error, not-found
    included, or declares a calendar with a negative maximum resource
    size, [FindCalendars] returns no calendar at all and an error, even
    though the other entries were fine. *)
Theorem FindCalendars_one_bad_entry
    (c : Client icalCalendar) (calendarHomeSet path : string) (w : World)
    (responses : list CollectionEntry) (resp : CollectionEntry) :
  (ic_PropFind w calendarHomeSet DepthOne
     [ResourceTypeName; DisplayNameName; calendarDescriptionName;
      maxResourceSizeName; supportedCalendarComponentSetName]).2 = Ok responses ->
  In resp responses ->
  ce_Path resp = Ok path ->
  ((exists err, ce_isCalendar resp = Failed err)
   \/ (exists desc dispName size,
          ce_isCalendar resp = Ok true
          /\ decodePropOr "" (ce_description resp) = Ok desc
          /\ decodePropOr "" (ce_displayName resp) = Ok dispName
          /\ ce_maxResourceSize resp = Ok size /\ size < 0)) ->
  (FindCalendars c calendarHomeSet w).2.1 = []
  /\ (FindCalendars c calendarHomeSet w).2.2 <> None.
Proof.
  unfold FindCalendars.
  destruct (ic_PropFind w calendarHomeSet DepthOne _) as [w' [responses'|err]]; simpl;
    [|discriminate].
  intros [= ->] Hin Hpath Hbad.
  assert (Habort : findAbort resp <> None).
  { unfold findAbort. rewrite Hpath.
    destruct Hbad as [[err ->]|(desc & dispName & size & -> & -> & -> & Hsize & Hneg)];
      [discriminate|].
    unfold decodePropOr. rewrite Hsize.
    destruct (size <? 0) eqn:Hlt; [discriminate|lia]. }
  destruct (findLoop_cases responses [] [])
    as [[Hclean _]|(pre & resp' & post & err & _ & _ & _ & Heq)].
  - rewrite List.Forall_forall in Hclean. contradiction (Habort (Hclean resp Hin)).
  - rewrite Heq. split; [reflexivity|discriminate].
Qed.

(** X29.  A nil error from [FindCalendars] means that the PROPFIND was
    answered, that every entry had a path and none aborted the loop,
    and that the calendars returned are those of all the calendar
    entries, in the order of the answer. *)
Theorem FindCalendars_nil_error
    (c : Client icalCalendar) (calendarHomeSet : string) (w : World) :
  (FindCalendars c calendarHomeSet w).2.2 = None ->
  exists responses,
    (ic_PropFind w calendarHomeSet DepthOne
       [ResourceTypeName; DisplayNameName; calendarDescriptionName;
        maxResourceSizeName; supportedCalendarComponentSetName]).2 = Ok responses
    /\ Forall (fun resp => (exists path, ce_Path resp = Ok path) /\ findAbort resp = None)
         responses
    /\ (FindCalendars c calendarHomeSet w).2.1 = flat_map findCalendar responses.
Proof.
  unfold FindCalendars.
  destruct (ic_PropFind w calendarHomeSet DepthOne _) as [w' [responses|err]]; simpl;
    [|discriminate].
  destruct (findLoop_cases responses [] [])
    as [[Hclean Heq]|(pre & resp & post & err & _ & _ & _ & Heq)]; rewrite Heq; simpl;
    [|discriminate].
  intros Hjoin. exists responses. split; [reflexivity|]. split; [|reflexivity].
  assert (Hnone : flat_map findPathError responses = []).
  { destruct (flat_map findPathError responses); [reflexivity|discriminate]. }
  clear Heq Hjoin. revert Hclean Hnone.
  induction responses as [|resp rest IH]; intros Hclean Hnone; [constructor|].
  apply Forall_cons in Hclean as [Hresp Hclean].
  simpl in Hnone. apply app_eq_nil in Hnone as [Hhere Hrest].
  constructor; [|apply IH; assumption].
  split; [|assumption]. unfold findPathError in Hhere.
  destruct (ce_Path resp) as [path|e]; [exists path; reflexivity|discriminate].
Qed.

End Collections.

(** * A test double

    A scripted server in the manner of the package's mock CalDAV server,
    with stand-ins for the codec and the parsers, on which the general
    statements above are run.  Documents are kept as their text. *)

Definition dquote : ascii := "034"%char.

Definition quoted (s : string) : string := String dquote (s ++ String dquote "")%string.

(** Printable ASCII other than the double quote and the backslash. *)
Definition plainByte (c : ascii) : bool :=
  let n := nat_of_ascii c in
  ((32 <=? n) && (n <? 127) && negb (n =? 34) && negb (n =? 92))%nat.

Fixpoint allPlain (s : string) : bool :=
  match s with
  | EmptyString => true
  | String c s' => plainByte c && allPlain s'
  end.

(** [strconv.Unquote] on the literals the double can meet: a double
    quoted literal of plain bytes is unquoted, any text that does not
    start with a quote character is a syntax error.  (Escapes, raw and
    single-quoted literals are not scripted and are refused here.) *)
Definition unquotePlain (s : string) : result string :=
  let inner := slice s 1 (len s - 1) in
  if (2 <=? len s)
     && bool_decide (byte_at s 0 = Some dquote)
     && bool_decide (byte_at s (len s - 1) = Some dquote)
     && allPlain inner
  then Ok inner
  else Failed (errorString "invalid syntax").

(** Decimal digits to a number, as [strconv.ParseInt(s, 10, 64)] reads an
    unsigned literal. *)
Fixpoint parseDigits (s : string) (acc : Z) : option Z :=
  match s with
  | EmptyString => Some acc
  | String c s' =>
      let n := Z.of_nat (nat_of_ascii c) in
      if (48 <=? n) && (n <=? 57) then parseDigits s' (10 * acc + (n - 48)) else None
  end.

Definition parseDecimal (s : string) : result Z :=
  match s with
  | EmptyString => Failed (errorString "invalid syntax")
  | _ => match parseDigits s 0 with
         | Some n => Ok n
         | None => Failed (errorString "invalid syntax")
         end
  end.

(** The codec of the double: a document is accepted when it opens with
    the iCalendar header line. *)
Definition decodeText (b : bytes) : result string :=
  if strings_HasPrefix b "BEGIN:VCALENDAR" then Ok b
  else Failed (errorString "ical: malformed calendar").

Definition mockDocument : string := "BEGIN:VCALENDAR END:VCALENDAR".

(** The server of the double.  The world is the clock, which every
    request and every reading advances by one.  A write that carries
    If-Match is refused with 412 (the stored version is never the one
    the caller names); any other write is accepted with 201 and a quoted
    ETag; a read returns the stored document, last modified at [100]. *)
Definition mockDo (w : Z) (req : Request) : Z * result HTTPResponse :=
  if string_eqb (req_Method req) "PUT" then
    if string_eqb (Header_Get (req_Header req) "If-Match") "" then
      (w + 1, Ok {| StatusCode := 201;
                    hr_Header := {[ "ETag" := [quoted "etag-2"] ]};
                    hr_Body := ""; hr_RequestPath := req_Path req |})
    else
      (w + 1, Ok {| StatusCode := 412; hr_Header := ∅;
                    hr_Body := ""; hr_RequestPath := req_Path req |})
  else
    (w + 1, Ok {| StatusCode := 200;
                  hr_Header := {[ "Content-Type" := ["text/calendar"];
                                  "ETag" := [quoted "etag-1"];
                                  "Last-Modified" := ["100"] ]};
                  hr_Body := mockDocument; hr_RequestPath := req_Path req |}).

Definition notFound : error := HTTPError 404 (Some (errorString "missing property")).

Definition okStatus : Status := {| st_Code := 200; st_Text := "HTTP/1.1 200 OK" |}.

(** An entry of a sync answer with one propstat. *)
Definition syncEntryOf (path : string) (status : option Status) (etag : result string)
    (data : result bytes) : Response :=
  {| resp_Path := Ok path; resp_Err := None; resp_Status := status;
     resp_PropStats := [{| ps_Status := okStatus; ps_getETag := etag;
                           ps_calendarData := data |}];
     resp_calendarData := data; resp_getLastModified := Failed notFound;
     resp_getETag := etag; resp_getContentLength := Failed notFound |}.

Definition rootEntry : Response :=
  syncEntryOf "/cal/" None (Failed notFound) (Failed notFound).

Definition changedEntry : Response :=
  syncEntryOf "/cal/changed.ics" None (Ok "etag-7") (Ok mockDocument).

Definition goneEntry : Response :=
  {| resp_Path := Ok "/cal/gone.ics"; resp_Err := None;
     resp_Status := Some {| st_Code := 404; st_Text := "HTTP/1.1 404 Not Found" |};
     resp_PropStats := [];
     resp_calendarData := Failed notFound; resp_getLastModified := Failed notFound;
     resp_getETag := Failed notFound; resp_getContentLength := Failed notFound |}.

Definition metadataEntry : Response :=
  syncEntryOf "/cal/meta.ics" None (Ok "etag-8") (Failed notFound).

Definition garbledEntry : Response :=
  syncEntryOf "/cal/garbled.ics" None (Ok "etag-9") (Ok "not a calendar").

Definition pathlessEntry : Response :=
  {| resp_Path := Failed (errorString "webdav: malformed response: expected exactly one href element, got 0");
     resp_Err := None; resp_Status := None; resp_PropStats := [];
     resp_calendarData := Failed notFound; resp_getLastModified := Failed notFound;
     resp_getETag := Failed notFound; resp_getContentLength := Failed notFound |}.

(** The sync answers of the double: the token [stale] has expired; the
    collection [/garbled/] answers with one entry whose payload is not a
    calendar; any other collection answers with the five entries above. *)
Definition mockSyncCollection (w : Z) (path syncToken : string) (level : Depth)
    (prop : list propValue) : Z * result (MultiStatus) :=
  if string_eqb syncToken "stale" then (w + 1, Failed (HTTPError 410 None))
  else if string_eqb path "/garbled/" then
    (w + 1, Ok {| Responses := [garbledEntry]; ms_SyncToken := "token-2" |})
  else
    (w + 1, Ok {| Responses := [rootEntry; changedEntry; goneEntry; metadataEntry;
                                garbledEntry];
                  ms_SyncToken := "token-2" |}).

#[local] Instance mock : Substrate string := {|
  World := Z;
  internalProp := list propValue;
  ical_Decode := decodeText;
  ical_Encode := fun cal => Ok cal;
  url_Parse_Path := fun s => Ok s;
  strconv_Unquote := unquotePlain;
  strconv_ParseInt := parseDecimal;
  http_ParseTime := parseDecimal;
  mime_ParseMediaType := fun s => Ok s;
  time_Now := fun w => (w + 1, w);
  internal_IsNotFound := fun err => bool_decide (errors_As_HTTPError err = Some 404);
  internal_EncodeProp := fun values => Ok values;
  ic_NewRequest := fun method path body =>
    Ok {| req_Method := method; req_Path := path; req_Header := ∅; req_Body := body |};
  ic_NewXMLRequest_calendarQuery := fun method path _ _ =>
    Ok {| req_Method := method; req_Path := path; req_Header := ∅; req_Body := None |};
  ic_NewXMLRequest_calendarMultiget := fun method path _ _ =>
    Ok {| req_Method := method; req_Path := path; req_Header := ∅; req_Body := None |};
  ic_Do := mockDo;
  ic_DoMultiStatus := fun w req =>
    (w + 1, Ok {| Responses := [pathlessEntry; changedEntry; metadataEntry];
                  ms_SyncToken := "" |});
  ic_SyncCollection := mockSyncCollection
|}.

Definition mockStart : @State string mock :=
  {| world := 1000; heap := ∅; events := [] |}.

Definition mockClient (resolver : option (ResolverValue string)) : Client string :=
  {| conflictResolver := resolver |}.

(** What a read of the double returns. *)
Definition mockRemote : CalendarObject string :=
  {| Path := "/cal/a.ics"; ModTime := 100; ContentLength := 0;
     ETag := "etag-1"; Data := Some mockDocument |}.

(** A conditional update with a stale tag, as in the package's tests. *)
Definition staleUpdate : option PutOptions :=
  Some {| IfMatch := quoted "old-etag"; IfNoneMatch := "" |}.

(** ** The statements at work on the double *)

(** C1: [AlwaysUseLocalResolver] and [AlwaysUseRemoteResolver] do not
    answer [Skip] when both arguments are nil. *)
Lemma always_resolvers_both_nil_not_Skip :
  Resolve AlwaysUseLocalResolver_value (@None (CalendarObject string)) None = UseRemote
  /\ Resolve AlwaysUseRemoteResolver_value (@None (CalendarObject string)) None = UseLocal
  /\ UseRemote <> Skip /\ UseLocal <> Skip.
Proof. repeat split; discriminate. Qed.

(** C2 on the double: the stale update meets a 412.  With
    [LastModifiedWinsResolver] the local side is the newer one, the write
    is sent again without condition and the new object is returned.
    With [AlwaysUseRemoteResolver] the fetched object is returned, and
    the call has sent the refused write and the GET, and nothing after
    the resolver was asked. *)
Lemma PutCalendarObject_precondition_failed_on_double :
  (PutCalendarObject 2 (mockClient (Some (asResolver LastModifiedWinsResolver_value)))
     "/cal/a.ics" mockDocument staleUpdate mockStart).2
  = Returns (Ok {| Path := "/cal/a.ics"; ModTime := 0; ContentLength := 0;
                   ETag := "etag-2"; Data := None |})
  /\ (PutCalendarObject 2 (mockClient (Some (asResolver AlwaysUseRemoteResolver_value)))
        "/cal/a.ics" mockDocument staleUpdate mockStart).2
     = Returns (Ok mockRemote)
  /\ events (PutCalendarObject 2
               (mockClient (Some (asResolver AlwaysUseRemoteResolver_value)))
               "/cal/a.ics" mockDocument staleUpdate mockStart).1
     = [EvDo {| req_Method := "PUT"; req_Path := "/cal/a.ics";
                req_Header := {[ "Content-Type" := ["text/calendar"];
                                 "If-Match" := [quoted "old-etag"] ]};
                req_Body := Some mockDocument |};
        EvDo {| req_Method := "GET"; req_Path := "/cal/a.ics";
                req_Header := {[ "Accept" := ["text/calendar"] ]};
                req_Body := None |};
        EvResolve (Some {| Path := "/cal/a.ics"; ModTime := 1002; ContentLength := 0;
                           ETag := ""; Data := Some mockDocument |})
          (Some mockRemote)].
Proof.
  split.
  - edestruct (PutCalendarObject_precondition_failed 0
                 (mockClient (Some (asResolver LastModifiedWinsResolver_value)))
                 "/cal/a.ics" mockDocument staleUpdate mockStart)
      as (_ & Hresolved & _); [reflexivity..|].
    match type of Hresolved with
    | context [GetCalendarObject ?c ?p ?s1] =>
        destruct (Hresolved _ (GetCalendarObject c p s1).1 mockRemote eq_refl)
          as (_ & Hlocal & _); [vm_compute; reflexivity|]
    end.
    destruct Hlocal as [Hrun _]; [reflexivity|].
    rewrite Hrun. vm_compute. reflexivity.
  - edestruct (PutCalendarObject_precondition_failed 0
                 (mockClient (Some (asResolver AlwaysUseRemoteResolver_value)))
                 "/cal/a.ics" mockDocument staleUpdate mockStart)
      as (_ & Hresolved & _); [reflexivity..|].
    match type of Hresolved with
    | context [GetCalendarObject ?c ?p ?s1] =>
        destruct (Hresolved _ (GetCalendarObject c p s1).1 mockRemote eq_refl)
          as (_ & _ & Hremote & _); [vm_compute; reflexivity|]
    end.
    destruct Hremote as (Hrun & _ & getReq & HgetReq & Htrace); [reflexivity|].
    split; [rewrite Hrun; reflexivity|].
    injection HgetReq as <-. etransitivity; [exact Htrace|]. vm_compute. reflexivity.
Defined.

(** C3 on the double: the 404 entry of the answer shows up as a deleted
    item named after its path. *)
Lemma SyncCalendar_entry_classification_on_double :
  exists s' result,
    SyncCalendar (mockClient None) "/cal/" "token-1" None mockStart
    = (s', Returns (Ok result))
    /\ In {| sdi_Path := "/cal/gone.ics"; sdi_UID := "gone" |} (Deleted result).
Proof.
  edestruct (SyncCalendar_entry_classification (mockClient None) "/cal/" "token-1" None
               mockStart)
    as (s' & result & Hrun & Hproduced & _); [reflexivity..|].
  exists s', result. split; [exact Hrun|].
  edestruct (Hproduced goneEntry "/cal/gone.ics") as [Hdeleted _];
    [right; right; left; reflexivity|reflexivity|discriminate|reflexivity|].
  apply Hdeleted. vm_compute. reflexivity.
Defined.

(** C3: an entry with a 200 status text and a payload that is not a
    calendar produces no entry at all. *)
Lemma SyncCalendar_garbled_payload_dropped :
  entryProps garbledEntry = ("HTTP/1.1 200 OK", "etag-9", "not a calendar")
  /\ strings_Contains "HTTP/1.1 200 OK" "404" = false
  /\ strings_Contains "HTTP/1.1 200 OK" "200" = true
  /\ (SyncCalendar (mockClient None) "/garbled/" "" None mockStart).2
     = Returns (Ok {| Created := []; Updated := []; Deleted := [];
                      SyncToken := "token-2" |}).
Proof. repeat split; vm_compute; reflexivity. Qed.

(** C5 on the double: an unquoted ETag header is stored as it is. *)
Lemma ETag_as_stored_on_double :
  ETag {| Path := ""; ModTime := 0; ContentLength := 0;
          ETag := "1764836851523"; Data := @None string |}
  = "1764836851523".
Proof.
  exact (proj1 ETag_as_stored CalendarObject_zero
           {| Path := ""; ModTime := 0; ContentLength := 0;
              ETag := "1764836851523"; Data := None |}
           {[ "ETag" := ["1764836851523"] ]} eq_refl).
Defined.

(** C5: a quoted ETag header is stored without its quotes. *)
Lemma populateCalendarObject_unquotes_ETag :
  exists co',
    populateCalendarObject (@CalendarObject_zero string)
      {[ "ETag" := [quoted "test-etag"] ]} = Ok co'
    /\ ETag co' = "test-etag"
    /\ ETag co' <> Header_Get {[ "ETag" := [quoted "test-etag"] ]} "ETag".
Proof.
  eexists. split; [vm_compute; reflexivity|]. split; [reflexivity|].
  vm_compute. discriminate.
Qed.

(** C6 on the double: after a pathless entry and a good one, an entry
    whose document does not decode ends the call with the codec's error
    and no object. *)
Lemma decodeCalendarObjectList_failure_asymmetry_on_double :
  decodeCalendarObjectList
    {| Responses := [pathlessEntry; changedEntry] ++ garbledEntry :: [metadataEntry];
       ms_SyncToken := "" |}
  = ([], Some (errorString "ical: malformed calendar")).
Proof.
  eapply (proj1 (proj2 decodeCalendarObjectList_failure_asymmetry)
            [pathlessEntry; changedEntry] [metadataEntry] garbledEntry "");
    try reflexivity.
  - repeat constructor.
  - discriminate.
Defined.

(** C7 on the double: the stale token is answered with 410, and the
    call returns the sentinel after that one exchange; any other token
    is answered with five entries, and the call returns the new token
    with the two updated items and the deleted one that they stand
    for. *)
Lemma SyncCalendar_terminal_outcomes_on_double :
  SyncCalendar (mockClient None) "/cal/" "stale" None mockStart
  = (State_emit mockStart 1001 (EvSyncCollection "/cal/" "stale" DepthOne),
     Returns (Failed ErrSyncTokenExpired))
  /\ exists s2 result,
       SyncCalendar (mockClient None) "/cal/" "token-1" None mockStart
       = (s2, Returns (Ok result))
       /\ SyncToken result = "token-2"
       /\ map objectView (Created result) = []
       /\ map objectView (Updated result)
          = [("/cal/changed.ics", "etag-7", Some mockDocument);
             ("/cal/meta.ics", "etag-8", None)]
       /\ Deleted result = [{| sdi_Path := "/cal/gone.ics"; sdi_UID := "gone" |}].
Proof.
  split.
  - edestruct (SyncCalendar_terminal_outcomes (mockClient None) "/cal/" "stale" None
                 mockStart)
      as [Hexpired _]; [reflexivity..|].
    eapply Hexpired; reflexivity.
  - edestruct (SyncCalendar_terminal_outcomes (mockClient None) "/cal/" "token-1" None
                 mockStart)
      as (_ & Hanswered & _); [reflexivity..|].
    destruct (Hanswered _ eq_refl)
      as (s2 & result & Hrun & Htoken & _ & Hcreated & Hupdated & Hdeleted).
    exists s2, result. split; [exact Hrun|].
    split; [rewrite Htoken; reflexivity|].
    split; [rewrite Hcreated; vm_compute; reflexivity|].
    split; [rewrite Hupdated; vm_compute; reflexivity|].
    rewrite Hdeleted. vm_compute. reflexivity.
Defined.

(** C10 on the double: the resolver sees the clock, not the document:
    with [LastModifiedWinsResolver] the local side wins against a remote
    object last modified at [100], and the write is sent again. *)
Lemma handleConflict_local_argument_on_double :
  (handleConflict
     (PutCalendarObject 1 (mockClient (Some (asResolver LastModifiedWinsResolver_value))))
     (mockClient (Some (asResolver LastModifiedWinsResolver_value)))
     "/cal/a.ics" mockDocument mockStart).2
  = Returns (Ok {| Path := "/cal/a.ics"; ModTime := 0; ContentLength := 0;
                   ETag := "etag-2"; Data := None |}).
Proof.
  destruct (handleConflict_local_argument 1
              (mockClient (Some (asResolver LastModifiedWinsResolver_value)))
              "/cal/a.ics" mockDocument mockStart
              (GetCalendarObject (mockClient None) "/cal/a.ics" mockStart).1
              (asResolver LastModifiedWinsResolver_value) mockRemote)
    as (_ & _ & Hwins); [reflexivity|vm_compute; reflexivity|].
  rewrite Hwins by reflexivity. vm_compute. reflexivity.
Defined.

(** ** More of the package on the double *)

(** X2 on a path of the package's tests. *)
Lemma UID_of_event_path_on_test_path :
  extractUIDFromPath "/calendars/user/event-123.ics" = "event-123"
  /\ ExtractUID {| sdi_Path := "/calendars/user/event-123.ics"; sdi_UID := "" |}
     = "event-123".
Proof.
  destruct (UID_of_event_path "/calendars/user" "event-123") as [Hclient Hitem];
    [reflexivity|].
  split; [exact Hclient|apply Hitem; discriminate].
Defined.

(** X5 on the double: of the five entries of the answer, the one with
    the 404 status is the deleted item. *)
Lemma SyncCalendar_Deleted_in_answer_order_on_double :
  exists s' result,
    SyncCalendar (mockClient None) "/cal/" "token-1" None mockStart
    = (s', Returns (Ok result))
    /\ Deleted result = [{| sdi_Path := "/cal/gone.ics"; sdi_UID := "gone" |}].
Proof.
  edestruct (SyncCalendar_Deleted_in_answer_order (mockClient None) "/cal/" "token-1" None
               mockStart)
    as (s' & result & Hrun & Hdeleted); [reflexivity..|].
  exists s', result. split; [exact Hrun|]. rewrite Hdeleted. vm_compute. reflexivity.
Defined.

(** X6 on the double: the answer holds an entry for [/cal/] itself, and
    no item of the result is at that path. *)
Lemma SyncCalendar_never_reports_the_root_on_double :
  exists s' result,
    SyncCalendar (mockClient None) "/cal/" "token-1" None mockStart
    = (s', Returns (Ok result))
    /\ Forall (fun obj => Path obj <> "/cal/") (Created result)
    /\ Forall (fun obj => Path obj <> "/cal/") (Updated result)
    /\ Forall (fun item => sdi_Path item <> "/cal/") (Deleted result).
Proof.
  eexists. eexists. split; [vm_compute; reflexivity|].
  eapply (SyncCalendar_never_reports_the_root (mockClient None) "/cal/" "token-1" None
            mockStart).
  vm_compute. reflexivity.
Defined.

(** X7 on the double: five entries, the root among them, so fewer than
    five changes. *)
Lemma SyncCalendar_at_most_one_change_per_entry_on_double :
  exists s' result,
    SyncCalendar (mockClient None) "/cal/" "token-1" None mockStart
    = (s', Returns (Ok result))
    /\ TotalChanges result < 5.
Proof.
  edestruct (SyncCalendar_at_most_one_change_per_entry (mockClient None) "/cal/" "token-1"
               None mockStart)
    as (s' & result & Hrun & _ & Hroot); [reflexivity..|].
  exists s', result. split; [exact Hrun|].
  apply (Hroot rootEntry); [left; reflexivity|reflexivity].
Defined.

(** An entry that reports an error of its own, with a status line that
    happens to mention 200, and with a propstat that holds a document
    and an ETag. *)
Definition proxiedEntry (err : option error) : Response :=
  {| resp_Path := Ok "/cal/proxied.ics";
     resp_Err := err;
     resp_Status := Some {| st_Code := 502;
                            st_Text := "HTTP/1.1 502 Bad Gateway (upstream sent 200)" |};
     resp_PropStats := [{| ps_Status := okStatus; ps_getETag := Ok "etag-5";
                           ps_calendarData := Ok mockDocument |}];
     resp_calendarData := Ok mockDocument; resp_getLastModified := Failed notFound;
     resp_getETag := Ok "etag-5"; resp_getContentLength := Failed notFound |}.

(** X10 on the double: the entry is recorded as updated, and neither
    the document nor the ETag of its propstat is read; without the
    error of its own the same entry is recorded with both. *)
Lemma syncLoop_entries_with_errors_on_double :
  Forall (fun obj => Data obj = None /\ ETag obj = "")
    (Updated (syncLoop "/cal/" [proxiedEntry (Some (HTTPError 502 None))]
                (NewSyncResult "token-1") mockStart).2)
  /\ Updated (syncLoop "/cal/" [proxiedEntry (Some (HTTPError 502 None))]
                (NewSyncResult "token-1") mockStart).2
     = [{| Path := "/cal/proxied.ics"; ModTime := 0; ContentLength := 0;
           ETag := ""; Data := None |}]
  /\ Updated (syncLoop "/cal/" [proxiedEntry None] (NewSyncResult "token-1") mockStart).2
     = [{| Path := "/cal/proxied.ics"; ModTime := 1000; ContentLength := 0;
           ETag := "etag-5"; Data := Some mockDocument |}].
Proof.
  split; [|split; vm_compute; reflexivity].
  apply (syncLoop_entries_with_errors "/cal/" "token-1"
           [proxiedEntry (Some (HTTPError 502 None))] mockStart).
  repeat constructor. discriminate.
Defined.

(** X11 on the double: the server answers a DELETE with 200. *)
Lemma DeleteCalendarObject_outcome_on_double :
  (DeleteCalendarObject (mockClient None) "/cal/a.ics" mockStart).2 = Returns (Ok tt).
Proof.
  erewrite (DeleteCalendarObject_outcome (mockClient None) "/cal/a.ics" mockStart);
    [|reflexivity..].
  reflexivity.
Defined.

(** X13 on the double: without a resolver the stale update ends at the
    first level. *)
Lemma PutCalendarObject_without_resolver_on_double :
  PutCalendarObject 5 (mockClient None) "/cal/a.ics" mockDocument staleUpdate mockStart
  = PutCalendarObject 1 (mockClient None) "/cal/a.ics" mockDocument staleUpdate mockStart.
Proof.
  exact (proj1 (PutCalendarObject_without_resolver 4 (mockClient None) "/cal/a.ics"
                  mockDocument staleUpdate mockStart eq_refl)).
Defined.

(** X14 on the double: with [AlwaysUseRemoteResolver] the stale update
    ends at the first level. *)
Lemma PutCalendarObject_AlwaysUseRemote_writes_once_on_double :
  PutCalendarObject 5 (mockClient (Some (asResolver AlwaysUseRemoteResolver_value)))
    "/cal/a.ics" mockDocument staleUpdate mockStart
  = PutCalendarObject 1 (mockClient (Some (asResolver AlwaysUseRemoteResolver_value)))
      "/cal/a.ics" mockDocument staleUpdate mockStart.
Proof.
  exact (proj1 (PutCalendarObject_AlwaysUseRemote_writes_once 4
                  (mockClient (Some (asResolver AlwaysUseRemoteResolver_value)))
                  "/cal/a.ics" mockDocument staleUpdate mockStart eq_refl)).
Defined.

(** X16 on the double: the read returns the stored object, document
    included. *)
Lemma GetCalendarObject_success_on_double :
  exists cal, Data mockRemote = Some cal.
Proof.
  destruct (GetCalendarObject_success (mockClient None) "/cal/a.ics" mockStart
              (GetCalendarObject (mockClient None) "/cal/a.ics" mockStart).1 mockRemote)
    as [Hdocument _]; [vm_compute; reflexivity|].
  exact Hdocument.
Defined.

(** X18 on the double: an unconditional write is answered with 201 and
    a quoted ETag. *)
Lemma PutCalendarObject_accepted_on_double :
  (PutCalendarObject 1 (mockClient None) "/cal/a.ics" mockDocument None mockStart).2
  = Returns (Ok {| Path := "/cal/a.ics"; ModTime := 0; ContentLength := 0;
                   ETag := "etag-2"; Data := None |}).
Proof.
  edestruct (PutCalendarObject_accepted 0 (mockClient None) "/cal/a.ics" mockDocument None
               mockStart)
    as [Hrun _]; [reflexivity|reflexivity|reflexivity|discriminate|].
  rewrite Hrun. vm_compute. reflexivity.
Defined.

(** A filter with three children, the first of them not a VEVENT. *)
Definition todoFilter : CompFilter :=
  {| cf_Name := "VTODO"; cf_Start := Time_zero; cf_End := Time_zero;
     cf_Props := []; cf_Comps := None |}.

Definition eventFilter : CompFilter :=
  {| cf_Name := "VEVENT"; cf_Start := Time_zero; cf_End := Time_zero;
     cf_Props := []; cf_Comps := None |}.

Definition mixedQuery : CalendarQuery :=
  {| CompRequest := mkCalendarCompRequest "VCALENDAR" false [] false [] None;
     cq_CompFilter :=
       {| cf_Name := "VCALENDAR"; cf_Start := Time_zero; cf_End := Time_zero;
          cf_Props := [];
          cf_Comps := Some {| sl_array := 1%positive; sl_off := 0; sl_len := 3 |} |} |}.

Definition mixedState : @State string mock :=
  {| world := 1000; heap := {[ 1%positive := [todoFilter; eventFilter; eventFilter] ]};
     events := [] |}.

Definition todoQuery : CalendarQuery :=
  {| CompRequest := mkCalendarCompRequest "VCALENDAR" false [] false [] None;
     cq_CompFilter :=
       {| cf_Name := "VCALENDAR"; cf_Start := Time_zero; cf_End := Time_zero;
          cf_Props := [];
          cf_Comps := Some {| sl_array := 1%positive; sl_off := 0; sl_len := 1 |} |} |}.

Definition mayToJune : QueryOptions :=
  {| TimeRangeStart := Some 500; TimeRangeEnd := Some 600; qo_SyncToken := "" |}.

(** X19 on the double: of the two VEVENT children the first one gets
    the range. *)
Lemma QueryCalendar_range_goes_to_first_VEVENT_on_double :
  slice_elems (heap (QueryCalendar 2 (mockClient None) "/cal/" mixedQuery (Some mayToJune)
                       mixedState).1)
    (cf_Comps (cq_CompFilter mixedQuery))
  = [todoFilter; withRange eventFilter 500 600; eventFilter].
Proof.
  apply (QueryCalendar_range_goes_to_first_VEVENT 2 (mockClient None) "/cal/" "" mixedQuery
           500 600 mixedState [todoFilter] [eventFilter] eventFilter).
  - reflexivity.
  - repeat constructor. discriminate.
  - reflexivity.
Defined.

(** X21 on the double: with no VEVENT child even a one-sided range is
    dropped. *)
Lemma QueryCalendar_range_without_VEVENT_on_double :
  QueryCalendar 2 (mockClient None) "/cal/" todoQuery
    (Some {| TimeRangeStart := Some 500; TimeRangeEnd := None; qo_SyncToken := "" |})
    mixedState
  = QueryCalendar 2 (mockClient None) "/cal/" todoQuery None mixedState.
Proof.
  apply (QueryCalendar_range_without_VEVENT 2 (mockClient None) "/cal/" todoQuery).
  repeat constructor. discriminate.
Defined.

(** X23 on the double: the query with three leaf children sends its
    one REPORT. *)
Lemma QueryCalendar_encodes_the_range_on_double :
  events (QueryCalendar 2 (mockClient None) "/cal/" mixedQuery (Some mayToJune)
            mixedState).1
  = [EvDoMultiStatus
       {| req_Method := "REPORT"; req_Path := "/cal/";
          req_Header := {[ "Depth" := ["1"] ]}; req_Body := None |}].
Proof.
  edestruct (QueryCalendar_encodes_the_range 0 (mockClient None) "/cal/" "" mixedQuery
               500 600 mixedState [todoFilter] [eventFilter] eventFilter)
    as (Hevents & _).
  - reflexivity.
  - repeat constructor. discriminate.
  - reflexivity.
  - repeat constructor.
  - reflexivity.
  - reflexivity.
  - reflexivity.
  - etransitivity; [exact Hevents|]. vm_compute. reflexivity.
Defined.

(** X24 on the double: one entry with a document, one without; no
    error, and the one object. *)
Lemma decodeCalendarObjectList_nil_error_on_double :
  (decodeCalendarObjectList
     {| Responses := [changedEntry; metadataEntry]; ms_SyncToken := "" |}).1
  = [{| Path := "/cal/changed.ics"; ModTime := 0; ContentLength := 0;
        ETag := "etag-7"; Data := Some mockDocument |}].
Proof.
  destruct (decodeCalendarObjectList_nil_error (Calendar := string)
              {| Responses := [changedEntry; metadataEntry]; ms_SyncToken := "" |})
    as [_ Hobjects]; [vm_compute; reflexivity|].
  rewrite Hobjects. vm_compute. reflexivity.
Defined.

(** The PROPFIND answers of the double: the home set [/home/] holds
    itself and two calendars, the second without the optional
    properties; [/broken/] holds a calendar and one that declares a
    negative size; any other path is not found. *)
Definition collectionEntry (path : string) (isCalendar : bool) (size : result Z)
    : CollectionEntry :=
  {| ce_Path := Ok path; ce_isCalendar := Ok isCalendar;
     ce_description := Failed notFound; ce_displayName := Ok path;
     ce_maxResourceSize := size; ce_supportedComps := Ok ["VEVENT"; "VTODO"] |}.

Definition mockPropFind (w : Z) (path : string) (level : Depth) (names : list PropName)
    : Z * result (list CollectionEntry) :=
  if string_eqb path "/home/" then
    (w + 1, Ok [collectionEntry "/home/" false (Failed notFound);
                collectionEntry "/home/work/" true (Ok 1000);
                collectionEntry "/home/private/" true (Failed notFound)])
  else if string_eqb path "/broken/" then
    (w + 1, Ok [collectionEntry "/broken/work/" true (Ok 1000);
                collectionEntry "/broken/odd/" true (Ok (-1))])
  else (w + 1, Failed (HTTPError 404 None)).

Definition workCalendar : Calendar :=
  {| cal_Path := "/home/work/"; cal_Name := "/home/work/"; cal_Description := "";
     MaxResourceSize := 1000; SupportedComponentSet := ["VEVENT"; "VTODO"] |}.

(** X27 on the double: the work calendar is listed, and the answer
    holds its entry. *)
Lemma FindCalendars_returns_only_calendars_on_double :
  0 <= MaxResourceSize workCalendar
  /\ exists responses resp,
       (mockPropFind 1000 "/home/" DepthOne
          [ResourceTypeName; DisplayNameName; calendarDescriptionName;
           maxResourceSizeName; supportedCalendarComponentSetName]).2 = Ok responses
       /\ In resp responses
       /\ ce_Path resp = Ok "/home/work/"
       /\ ce_isCalendar resp = Ok true.
Proof.
  apply (FindCalendars_returns_only_calendars (substrate := mock) mockPropFind (mockClient None) "/home/" 1000
           workCalendar).
  left. reflexivity.
Defined.

(** X28 on the double: the negative size of the second calendar costs
    the first one its place in the listing. *)
Lemma FindCalendars_one_bad_entry_on_double :
  (FindCalendars (substrate := mock) mockPropFind (mockClient None) "/broken/" 1000).2.1 = []
  /\ (FindCalendars (substrate := mock) mockPropFind (mockClient None) "/broken/" 1000).2.2 <> None.
Proof.
  eapply (FindCalendars_one_bad_entry (substrate := mock) mockPropFind (mockClient None) "/broken/"
            "/broken/odd/" 1000 _ (collectionEntry "/broken/odd/" true (Ok (-1)))).
  - reflexivity.
  - right. left. reflexivity.
  - reflexivity.
  - right. exists "", "/broken/odd/", (-1). repeat split.
Defined.

(** X29 on the double: the home set lists its two calendars, in order,
    and the home set itself is left out. *)
Lemma FindCalendars_nil_error_on_double :
  exists responses,
    (mockPropFind 1000 "/home/" DepthOne
       [ResourceTypeName; DisplayNameName; calendarDescriptionName;
        maxResourceSizeName; supportedCalendarComponentSetName]).2 = Ok responses
    /\ Forall (fun resp => (exists path, ce_Path resp = Ok path)
                           /\ findAbort resp = None) responses
    /\ (FindCalendars (substrate := mock) mockPropFind (mockClient None) "/home/" 1000).2.1
       = flat_map findCalendar responses.
Proof.
  apply (FindCalendars_nil_error (substrate := mock) mockPropFind (mockClient None) "/home/" 1000).
  reflexivity.
Defined.
